(** * OttoCook: session engine, timer supervisor, speech queue and recipe
      mutation applier, embedded from the Go sources.

    Conventions of the embedding.
    - Go [int] and [time.Duration] are 64-bit signed integers: they are
      values of [Z] and every arithmetic step of the source is wrapped with
      [wrap64].
    - [time.Time] is an instant counted in nanoseconds from the zero value
      of [time.Time]; [IsZero] is equality with [0].
    - Go maps of pointers ([map[int]*StepState], [map[string]*TimerState])
      are finite maps; a missing key reads as the nil pointer, and a write
      through it is a run-time panic.
    - Every operation returns an [Outcome]: a value, a Go [error], or a
      panic.  Calls to the logger are not modelled. *)

From Stdlib Require Import ZArith Lia.
From stdpp Require Import gmap strings list fin_maps pretty sorting.

Open Scope Z_scope.

(** ** Machine integers and slices *)

Definition wrap64 (z : Z) : Z := (z + 2 ^ 63) mod 2 ^ 64 - 2 ^ 63.

Definition maxInt64 : Z := 2 ^ 63 - 1.
Definition minInt64 : Z := - 2 ^ 63.

Definition inInt64 (z : Z) : Prop := minInt64 <= z <= maxInt64.

(** [len(s)] of a slice. *)
Definition len {A} (s : list A) : Z := Z.of_nat (length s).

(** [s[i]]: [None] stands for the index-out-of-range panic. *)
Definition index {A} (s : list A) (i : Z) : option A :=
  if i <? 0 then None else s !! Z.to_nat i.

(** Result of running a Go function. *)
Inductive Outcome (E A : Type) : Type :=
| Return (a : A)
| Fail (e : E)
| Panic.
Arguments Return {E A} a.
Arguments Fail {E A} e.
Arguments Panic {E A}.

(** ** internal/domain *)

Module Domain.

Definition Time := Z.
Definition Duration := Z.

Definition IsZero (t : Time) : bool := t =? 0.

(** [t.Sub(u)]: the difference, saturated to the range of a Duration. *)
Definition Sub (t u : Time) : Duration :=
  Z.max minInt64 (Z.min maxInt64 (t - u)).

Definition Second : Duration := 1000000000.
Definition Minute : Duration := 60 * Second.

Inductive SessionStatus :=
| SessionActive | SessionPaused | SessionCompleted | SessionAbandoned.

Inductive StepStatus := StepPending | StepActive | StepDone | StepSkipped.

Inductive TimerStatus :=
| TimerPending | TimerRunning | TimerPaused | TimerFired | TimerDismissed.

#[global] Instance SessionStatus_eq_dec : EqDecision SessionStatus :=
  ltac:(solve_decision).
#[global] Instance StepStatus_eq_dec : EqDecision StepStatus :=
  ltac:(solve_decision).
#[global] Instance TimerStatus_eq_dec : EqDecision TimerStatus :=
  ltac:(solve_decision).

(** Sentinel errors of errors.go, and the [fmt.Errorf] values built by the
    engine and by the applier.  [Wrapf p e] is [fmt.Errorf(p + ": %w", e)]. *)
Inductive error :=
| ErrNotFound
| ErrSessionNotActive
| ErrSessionPaused
| ErrNoMoreSteps
| ErrAlreadyExists
| ErrNotImplemented
| Wrapf (prefix : string) (inner : error)
| ErrTimerNotFound (timerID : string)
| ErrTimerCannotDismiss (timerID : string) (status : TimerStatus)
| ErrStepOutOfRange (stepIndex : Z) (steps : Z).

(** The text given to [errors.New] for each sentinel. *)
Definition sentinelText (e : error) : option string :=
  match e with
  | ErrNotFound => Some "not found"%string
  | ErrSessionNotActive => Some "session is not active"%string
  | ErrSessionPaused => Some "session is paused"%string
  | ErrNoMoreSteps => Some "no more steps in recipe"%string
  | ErrAlreadyExists => Some "already exists"%string
  | ErrNotImplemented => Some "not implemented"%string
  | _ => None
  end.

Inductive ConditionType :=
| ConditionManual | ConditionTime | ConditionVisual | ConditionTemperature.

Record StepCondition := {
  condType : ConditionType;
  condDescription : string;
}.

Record TimerConfig := {
  tcDuration : Duration;
  tcLabel : string;
}.

Record Step := {
  stepID : string;
  stepOrder : Z;
  stepInstruction : string;
  stepDuration : Duration;
  stepConditions : list StepCondition;
  stepParallelHints : list string;
  stepTimerConfig : option TimerConfig;
}.

(** Ingredients are not touched by any operation below; their quantity
    (a float64 in the source) is kept abstract as its bit pattern. *)
Record Ingredient := {
  ingName : string;
  ingQuantityBits : Z;
  ingUnit : string;
  ingSizeDescriptor : string;
  ingOptional : bool;
}.

Record Recipe := {
  recipeID : string;
  recipeName : string;
  recipeDescription : string;
  recipeServings : Z;
  recipeIngredients : list Ingredient;
  recipeSteps : list Step;
  recipeTags : list string;
  recipeVersion : Z;
}.

Record StepState := {
  ssStatus : StepStatus;
  ssStartedAt : Time;
  ssCompletedAt : Time;
}.

Record TimerState := {
  tsID : string;
  tsStepID : string;
  tsLabel : string;
  tsDuration : Duration;
  tsRemaining : Duration;
  tsStatus : TimerStatus;
  tsLastNotified : Time;
  tsLastRemindedAt : Time;
  tsWarnedAlmost : bool;
  tsEscalationLevel : Z;
}.

Record Session := {
  sessID : string;
  sessRecipeID : string;
  sessRecipeName : string;
  sessServings : Z;
  sessCurrentStepIndex : Z;
  sessStepStates : gmap Z StepState;
  sessTimerStates : gmap string TimerState;
  sessStatus : SessionStatus;
  sessStartedAt : Time;
  sessUpdatedAt : Time;
}.

(** Field assignments. *)
Definition setStepStatus (v : StepStatus) (s : StepState) : StepState :=
  {| ssStatus := v; ssStartedAt := ssStartedAt s;
     ssCompletedAt := ssCompletedAt s |}.
Definition setStepStartedAt (v : Time) (s : StepState) : StepState :=
  {| ssStatus := ssStatus s; ssStartedAt := v;
     ssCompletedAt := ssCompletedAt s |}.
Definition setStepCompletedAt (v : Time) (s : StepState) : StepState :=
  {| ssStatus := ssStatus s; ssStartedAt := ssStartedAt s;
     ssCompletedAt := v |}.

Definition setTimerStatus (v : TimerStatus) (t : TimerState) : TimerState :=
  {| tsID := tsID t; tsStepID := tsStepID t; tsLabel := tsLabel t;
     tsDuration := tsDuration t; tsRemaining := tsRemaining t;
     tsStatus := v; tsLastNotified := tsLastNotified t;
     tsLastRemindedAt := tsLastRemindedAt t;
     tsWarnedAlmost := tsWarnedAlmost t;
     tsEscalationLevel := tsEscalationLevel t |}.
Definition setRemaining (v : Duration) (t : TimerState) : TimerState :=
  {| tsID := tsID t; tsStepID := tsStepID t; tsLabel := tsLabel t;
     tsDuration := tsDuration t; tsRemaining := v;
     tsStatus := tsStatus t; tsLastNotified := tsLastNotified t;
     tsLastRemindedAt := tsLastRemindedAt t;
     tsWarnedAlmost := tsWarnedAlmost t;
     tsEscalationLevel := tsEscalationLevel t |}.
Definition setLastNotified (v : Time) (t : TimerState) : TimerState :=
  {| tsID := tsID t; tsStepID := tsStepID t; tsLabel := tsLabel t;
     tsDuration := tsDuration t; tsRemaining := tsRemaining t;
     tsStatus := tsStatus t; tsLastNotified := v;
     tsLastRemindedAt := tsLastRemindedAt t;
     tsWarnedAlmost := tsWarnedAlmost t;
     tsEscalationLevel := tsEscalationLevel t |}.
Definition setLastRemindedAt (v : Time) (t : TimerState) : TimerState :=
  {| tsID := tsID t; tsStepID := tsStepID t; tsLabel := tsLabel t;
     tsDuration := tsDuration t; tsRemaining := tsRemaining t;
     tsStatus := tsStatus t; tsLastNotified := tsLastNotified t;
     tsLastRemindedAt := v;
     tsWarnedAlmost := tsWarnedAlmost t;
     tsEscalationLevel := tsEscalationLevel t |}.
Definition setWarnedAlmost (v : bool) (t : TimerState) : TimerState :=
  {| tsID := tsID t; tsStepID := tsStepID t; tsLabel := tsLabel t;
     tsDuration := tsDuration t; tsRemaining := tsRemaining t;
     tsStatus := tsStatus t; tsLastNotified := tsLastNotified t;
     tsLastRemindedAt := tsLastRemindedAt t;
     tsWarnedAlmost := v;
     tsEscalationLevel := tsEscalationLevel t |}.
Definition setEscalationLevel (v : Z) (t : TimerState) : TimerState :=
  {| tsID := tsID t; tsStepID := tsStepID t; tsLabel := tsLabel t;
     tsDuration := tsDuration t; tsRemaining := tsRemaining t;
     tsStatus := tsStatus t; tsLastNotified := tsLastNotified t;
     tsLastRemindedAt := tsLastRemindedAt t;
     tsWarnedAlmost := tsWarnedAlmost t;
     tsEscalationLevel := v |}.

Definition setCurrentStepIndex (v : Z) (s : Session) : Session :=
  {| sessID := sessID s; sessRecipeID := sessRecipeID s;
     sessRecipeName := sessRecipeName s; sessServings := sessServings s;
     sessCurrentStepIndex := v; sessStepStates := sessStepStates s;
     sessTimerStates := sessTimerStates s; sessStatus := sessStatus s;
     sessStartedAt := sessStartedAt s; sessUpdatedAt := sessUpdatedAt s |}.
Definition setStepStates (v : gmap Z StepState) (s : Session) : Session :=
  {| sessID := sessID s; sessRecipeID := sessRecipeID s;
     sessRecipeName := sessRecipeName s; sessServings := sessServings s;
     sessCurrentStepIndex := sessCurrentStepIndex s; sessStepStates := v;
     sessTimerStates := sessTimerStates s; sessStatus := sessStatus s;
     sessStartedAt := sessStartedAt s; sessUpdatedAt := sessUpdatedAt s |}.
Definition setTimerStates (v : gmap string TimerState) (s : Session)
  : Session :=
  {| sessID := sessID s; sessRecipeID := sessRecipeID s;
     sessRecipeName := sessRecipeName s; sessServings := sessServings s;
     sessCurrentStepIndex := sessCurrentStepIndex s;
     sessStepStates := sessStepStates s;
     sessTimerStates := v; sessStatus := sessStatus s;
     sessStartedAt := sessStartedAt s; sessUpdatedAt := sessUpdatedAt s |}.
Definition setStatus (v : SessionStatus) (s : Session) : Session :=
  {| sessID := sessID s; sessRecipeID := sessRecipeID s;
     sessRecipeName := sessRecipeName s; sessServings := sessServings s;
     sessCurrentStepIndex := sessCurrentStepIndex s;
     sessStepStates := sessStepStates s;
     sessTimerStates := sessTimerStates s; sessStatus := v;
     sessStartedAt := sessStartedAt s; sessUpdatedAt := sessUpdatedAt s |}.
Definition setUpdatedAt (v : Time) (s : Session) : Session :=
  {| sessID := sessID s; sessRecipeID := sessRecipeID s;
     sessRecipeName := sessRecipeName s; sessServings := sessServings s;
     sessCurrentStepIndex := sessCurrentStepIndex s;
     sessStepStates := sessStepStates s;
     sessTimerStates := sessTimerStates s; sessStatus := sessStatus s;
     sessStartedAt := sessStartedAt s; sessUpdatedAt := v |}.

End Domain.

(** ** internal/storage: the in-memory session store

    [MemoryStore] keeps pointers: [Load] hands out the stored pointer itself,
    so an assignment to a loaded session is already visible in the store.
    [poke] is that write through the pointer held under a key; [Save] stores
    the pointer under the session's own ID. *)

Module Storage.
Import Domain.

Definition Load (st : gmap string Session) (id : string)
  : Outcome error Session :=
  match st !! id with
  | Some sess => Return sess
  | None => Fail ErrNotFound
  end.

Definition Save (st : gmap string Session) (session : Session)
  : gmap string Session :=
  <[sessID session := session]> st.

Definition poke (st : gmap string Session) (key : string) (session : Session)
  : gmap string Session :=
  <[key := session]> st.

(** [ListActive]: the sessions whose status is active or paused (in the
    unspecified order of a Go map iteration). *)
Definition isListed (sess : Session) : bool :=
  bool_decide (sessStatus sess = SessionActive) ||
  bool_decide (sessStatus sess = SessionPaused).

Definition ListActive (st : gmap string Session) : list Session :=
  filter (fun sess => isListed sess = true) (snd <$> map_to_list st).

End Storage.

(** ** internal/engine *)

Module Engine.
Import Domain.

Record Engine := {
  recipes : gmap string Recipe;
  store : gmap string Session;
  defaultServings : Z;
}.

Definition withStore (e : Engine) (st : gmap string Session) : Engine :=
  {| recipes := recipes e; store := st;
     defaultServings := defaultServings e |}.

(** [e.recipes.Get] on the in-memory recipe source. *)
Definition recipesGet (e : Engine) (id : string) : Outcome error Recipe :=
  match recipes e !! id with
  | Some r => Return r
  | None => Fail ErrNotFound
  end.

(** [fmt.Sprintf("timer-%s", step.ID)] *)
Definition timerIDOf (stepId : string) : string := ("timer-" ++ stepId)%string.

(** [maybeStartTimer]: a pending timer for the step when it has a timer
    config; the remaining fields take their zero values. *)
Definition maybeStartTimer (session : Session) (step : Step) : Session :=
  match stepTimerConfig step with
  | None => session
  | Some cfg =>
      let timerID := timerIDOf (stepID step) in
      setTimerStates
        (<[timerID := {| tsID := timerID;
                         tsStepID := stepID step;
                         tsLabel := tcLabel cfg;
                         tsDuration := tcDuration cfg;
                         tsRemaining := tcDuration cfg;
                         tsStatus := TimerPending;
                         tsLastNotified := 0;
                         tsLastRemindedAt := 0;
                         tsWarnedAlmost := false;
                         tsEscalationLevel := 0 |}]>
           (sessTimerStates session))
        session
  end.

Definition pendingStepState : StepState :=
  {| ssStatus := StepPending; ssStartedAt := 0; ssCompletedAt := 0 |}.

(** [for i := range recipe.Steps { session.StepStates[i] = ... }] *)
Definition initStepStates (steps : list Step) : gmap Z StepState :=
  foldl (fun m i => <[Z.of_nat i := pendingStepState]> m) ∅
        (seq 0 (length steps)).

(** [StartSession].  [newID] is the value of [generateID()]; [startedAt],
    [updatedAt] and [stepStartedAt] are the three readings of [time.Now()],
    in the order of the source. *)
Definition StartSession (e : Engine) (newID : string)
    (startedAt updatedAt stepStartedAt : Time)
    (recipeID : string) (servings : Z)
  : Outcome error Session * Engine :=
  match recipesGet e recipeID with
  | Panic => (Panic, e)
  | Fail err => (Fail (Wrapf "getting recipe" err), e)
  | Return recipe =>
      let servings := if servings <=? 0 then defaultServings e else servings in
      let session :=
        {| sessID := newID;
           sessRecipeID := Domain.recipeID recipe;
           sessRecipeName := recipeName recipe;
           sessServings := servings;
           sessCurrentStepIndex := 0;
           sessStepStates := initStepStates (recipeSteps recipe);
           sessTimerStates := ∅;
           sessStatus := SessionActive;
           sessStartedAt := startedAt;
           sessUpdatedAt := updatedAt |} in
      match sessStepStates session !! 0 with
      | None => (Panic, e)
      | Some st0 =>
          let st0 := setStepStartedAt stepStartedAt
                       (setStepStatus StepActive st0) in
          let session := setStepStates (<[0 := st0]> (sessStepStates session))
                           session in
          match index (recipeSteps recipe) 0 with
          | None => (Panic, e)
          | Some step0 =>
              let session := maybeStartTimer session step0 in
              (Return session, withStore e (Storage.Save (store e) session))
          end
      end
  end.

(** The common body of [Advance] and [Skip], which differ only in the status
    given to the step that is left ([StepDone] or [StepSkipped]).  The
    session is mutated in place, so what was assigned before a panic stays
    in the store. *)
Definition leaveStep (final : StepStatus) (e : Engine) (now : Time)
    (sessionID : string) : Outcome error Step * Engine :=
  match Storage.Load (store e) sessionID with
  | Panic => (Panic, e)
  | Fail err => (Fail (Wrapf "loading session" err), e)
  | Return session =>
      if negb (bool_decide (sessStatus session = SessionActive))
      then (Fail ErrSessionNotActive, e)
      else
        match recipesGet e (sessRecipeID session) with
        | Panic => (Panic, e)
        | Fail err => (Fail (Wrapf "getting recipe" err), e)
        | Return recipe =>
            let cur := sessCurrentStepIndex session in
            match sessStepStates session !! cur with
            | None => (Panic, e)
            | Some current =>
                let current := setStepCompletedAt now
                                 (setStepStatus final current) in
                let session :=
                  setStepStates (<[cur := current]> (sessStepStates session))
                                session in
                let nextIdx := wrap64 (cur + 1) in
                if nextIdx >=? len (recipeSteps recipe) then
                  let session := setUpdatedAt now
                                   (setStatus SessionCompleted session) in
                  (Fail ErrNoMoreSteps,
                   withStore e
                     (Storage.Save (Storage.poke (store e) sessionID session)
                                   session))
                else
                  let session := setCurrentStepIndex nextIdx session in
                  match sessStepStates session !! nextIdx with
                  | None =>
                      (Panic,
                       withStore e (Storage.poke (store e) sessionID session))
                  | Some next =>
                      let next := setStepStartedAt now
                                    (setStepStatus StepActive next) in
                      let session :=
                        setUpdatedAt now
                          (setStepStates
                             (<[nextIdx := next]> (sessStepStates session))
                             session) in
                      match index (recipeSteps recipe) nextIdx with
                      | None =>
                          (Panic,
                           withStore e
                             (Storage.poke (store e) sessionID session))
                      | Some step =>
                          let session := maybeStartTimer session step in
                          (Return step,
                           withStore e
                             (Storage.Save
                                (Storage.poke (store e) sessionID session)
                                session))
                      end
                  end
            end
        end
  end.

Definition Advance := leaveStep StepDone.
Definition Skip := leaveStep StepSkipped.

(** The loop of [Pause] over the timers. *)
Definition pauseTimer (ts : TimerState) : TimerState :=
  if bool_decide (tsStatus ts = TimerRunning)
  then setTimerStatus TimerPaused ts else ts.

Definition Pause (e : Engine) (now : Time) (sessionID : string)
  : Outcome error unit * Engine :=
  match Storage.Load (store e) sessionID with
  | Panic => (Panic, e)
  | Fail err => (Fail (Wrapf "loading session" err), e)
  | Return session =>
      if negb (bool_decide (sessStatus session = SessionActive))
      then (Fail ErrSessionNotActive, e)
      else
        let session := setUpdatedAt now (setStatus SessionPaused session) in
        let session :=
          setTimerStates (pauseTimer <$> sessTimerStates session) session in
        (Return tt,
         withStore e
           (Storage.Save (Storage.poke (store e) sessionID session) session))
  end.

(** The loop of [Resume] over the timers. *)
Definition resumeTimer (ts : TimerState) : TimerState :=
  if bool_decide (tsStatus ts = TimerPaused)
  then setTimerStatus TimerRunning ts else ts.

Definition Resume (e : Engine) (now : Time) (sessionID : string)
  : Outcome error Session * Engine :=
  match Storage.Load (store e) sessionID with
  | Panic => (Panic, e)
  | Fail err => (Fail (Wrapf "loading session" err), e)
  | Return session =>
      if negb (bool_decide (sessStatus session = SessionPaused))
      then (Fail ErrSessionPaused, e)
      else
        let session := setUpdatedAt now (setStatus SessionActive session) in
        let session :=
          setTimerStates (resumeTimer <$> sessTimerStates session) session in
        (Return session,
         withStore e
           (Storage.Save (Storage.poke (store e) sessionID session) session))
  end.

Definition Abandon (e : Engine) (now : Time) (sessionID : string)
  : Outcome error unit * Engine :=
  match Storage.Load (store e) sessionID with
  | Panic => (Panic, e)
  | Fail err => (Fail (Wrapf "loading session" err), e)
  | Return session =>
      let session := setUpdatedAt now (setStatus SessionAbandoned session) in
      (Return tt,
       withStore e
         (Storage.Save (Storage.poke (store e) sessionID session) session))
  end.

(** The loop of [StartPendingTimers] over the timers. *)
Definition startTimer (ts : TimerState) : TimerState :=
  if bool_decide (tsStatus ts = TimerPending)
  then setTimerStatus TimerRunning ts else ts.

Definition countPending (timers : gmap string TimerState) : Z :=
  Z.of_nat (size (filter (fun kv => tsStatus kv.2 = TimerPending) timers)).

Definition StartPendingTimers (e : Engine) (now : Time) (sessionID : string)
  : Outcome error Z * Engine :=
  match Storage.Load (store e) sessionID with
  | Panic => (Panic, e)
  | Fail err => (Fail (Wrapf "loading session" err), e)
  | Return session =>
      let started := countPending (sessTimerStates session) in
      let session :=
        setTimerStates (startTimer <$> sessTimerStates session) session in
      if 0 <? started then
        let session := setUpdatedAt now session in
        (Return started,
         withStore e
           (Storage.Save (Storage.poke (store e) sessionID session) session))
      else
        (Return started,
         withStore e (Storage.poke (store e) sessionID session))
  end.

Definition DismissTimer (e : Engine) (now : Time) (sessionID timerID : string)
  : Outcome error unit * Engine :=
  match Storage.Load (store e) sessionID with
  | Panic => (Panic, e)
  | Fail err => (Fail (Wrapf "loading session" err), e)
  | Return session =>
      match sessTimerStates session !! timerID with
      | None => (Fail (ErrTimerNotFound timerID), e)
      | Some ts =>
          if negb (bool_decide (tsStatus ts = TimerRunning)) &&
             negb (bool_decide (tsStatus ts = TimerFired))
          then (Fail (ErrTimerCannotDismiss timerID (tsStatus ts)), e)
          else
            let ts := setTimerStatus TimerDismissed ts in
            let session :=
              setUpdatedAt now
                (setTimerStates (<[timerID := ts]> (sessTimerStates session))
                                session) in
            (Return tt,
             withStore e
               (Storage.Save (Storage.poke (store e) sessionID session)
                             session))
      end
  end.

(** [UpdateRecipe] through [MemorySource.Update]: the stored recipe is
    replaced and its version incremented; unknown IDs are refused. *)
Definition UpdateRecipe (e : Engine) (recipe : Recipe)
  : Outcome error unit * Engine :=
  match recipes e !! recipeID recipe with
  | None => (Fail ErrNotFound, e)
  | Some _ =>
      let recipe :=
        {| recipeID := recipeID recipe; recipeName := recipeName recipe;
           recipeDescription := recipeDescription recipe;
           recipeServings := recipeServings recipe;
           recipeIngredients := recipeIngredients recipe;
           recipeSteps := recipeSteps recipe;
           recipeTags := recipeTags recipe;
           recipeVersion := wrap64 (recipeVersion recipe + 1) |} in
      (Return tt,
       {| recipes := <[recipeID recipe := recipe]> (recipes e);
          store := store e; defaultServings := defaultServings e |})
  end.

End Engine.

(** ** internal/timer: the supervisor *)

Module Timer.
Import Domain.

Record Supervisor := {
  tickInterval : Duration;
  notifyCooldown : Duration;
  maxEscalation : Z;
  reminderInterval : Duration;
  almostDoneThreshold : Duration;
}.

(** The values set by [New] before any option is applied. *)
Definition New : Supervisor :=
  {| tickInterval := 1 * Second;
     notifyCooldown := 15 * Second;
     maxEscalation := 3;
     reminderInterval := 2 * Minute;
     almostDoneThreshold := 30 * Second |}.

(** One call of the notifier: [NotifyUrgent] or [Notify], and its message. *)
Record Notification := {
  ntUrgent : bool;
  ntMessage : string;
}.

(** [escalationMessage] *)
Definition escalationMessage (ts : TimerState) : string :=
  match tsEscalationLevel ts with
  | 0 => "[Timer] " ++ tsLabel ts ++ " is up."
  | 1 => "[Timer] " ++ tsLabel ts ++ " -- check it now."
  | 2 => "[Timer] " ++ tsLabel ts ++ ". Now."
  | _ => "[Timer] " ++ tsLabel ts ++ "."
  end%string.

(** [lessThanHalf(x, y)] of package time: [uint64(x)+uint64(x) < uint64(y)]. *)
Definition lessThanHalf (x y : Duration) : bool :=
  ((x mod 2 ^ 64 + x mod 2 ^ 64) mod 2 ^ 64) <? y mod 2 ^ 64.

(** [d.Round(m)] of package time: half away from zero, saturating. *)
Definition Round (d m : Duration) : Duration :=
  if m <=? 0 then d
  else
    let r := Z.rem d m in
    if d <? 0 then
      let r := wrap64 (- r) in
      if lessThanHalf r m then wrap64 (d + r)
      else
        let d1 := wrap64 (wrap64 (d - m) + r) in
        if d1 <? d then d1 else minInt64
    else
      if lessThanHalf r m then wrap64 (d - r)
      else
        let d1 := wrap64 (wrap64 (d + m) - r) in
        if d1 >? d then d1 else maxInt64.

(** [int(d.Seconds())] on a value returned by [Round] with [time.Second]:
    such a value is a whole number of seconds or one of the two saturation
    bounds, for which the float64 sum of the whole seconds and the
    fraction truncates to the truncated quotient. *)
Definition wholeSeconds (d : Duration) : Z := Z.quot d Second.

(** [formatRemaining] *)
Definition formatRemaining (d : Duration) : string :=
  let d := Round d Second in
  let totalSec := wholeSeconds d in
  if totalSec <? 60 then
    if totalSec =? 1 then "1 second"%string
    else (pretty totalSec ++ " seconds")%string
  else
    let m := Z.quot (wrap64 (totalSec + 30)) 60 in
    let m := if m <=? 0 then 1 else m in
    if m =? 1 then "1 minute"%string
    else (pretty m ++ " minutes")%string.

Definition almostDoneMessage (ts : TimerState) : string :=
  ("[Timer] " ++ tsLabel ts ++ " — almost done, " ++
   formatRemaining (tsRemaining ts) ++ " left.")%string.

Definition reminderMessage (ts : TimerState) : string :=
  ("[Timer] " ++ tsLabel ts ++ " — " ++
   formatRemaining (tsRemaining ts) ++ " remaining.")%string.

(** What one iteration of a loop over the timers did to its timer: the
    timer afterwards, the notifier calls it made, and whether it set
    [changed]. *)
Record Visit := {
  vTimer : TimerState;
  vNotes : list Notification;
  vChanged : bool;
}.

(** Body of the first loop of [processSession]: the countdown. *)
Definition countdown (s : Supervisor) (now : Time) (ts : TimerState) : Visit :=
  if negb (bool_decide (tsStatus ts = TimerRunning)) then
    {| vTimer := ts; vNotes := []; vChanged := false |}
  else
    let ts := setRemaining (wrap64 (tsRemaining ts - tickInterval s)) ts in
    if tsRemaining ts <=? 0 then
      let ts := setTimerStatus TimerFired (setRemaining 0 ts) in
      let msg := escalationMessage ts in
      let ts := setEscalationLevel 1 (setLastNotified now ts) in
      {| vTimer := ts;
         vNotes := [ {| ntUrgent := true; ntMessage := msg |} ];
         vChanged := true |}
    else if negb (tsWarnedAlmost ts) &&
            (tsRemaining ts <=? almostDoneThreshold s) &&
            (tsDuration ts >? wrap64 (almostDoneThreshold s * 2)) then
      let ts := setWarnedAlmost true ts in
      let msg := almostDoneMessage ts in
      let ts := setLastRemindedAt now ts in
      {| vTimer := ts;
         vNotes := [ {| ntUrgent := false; ntMessage := msg |} ];
         vChanged := true |}
    else if (reminderInterval s >? 0) &&
            (tsDuration ts >? reminderInterval s) then
      let sinceLastReminder := Sub now (tsLastRemindedAt ts) in
      if IsZero (tsLastRemindedAt ts) then
        let elapsed := wrap64 (tsDuration ts - tsRemaining ts) in
        if elapsed >=? reminderInterval s then
          let ts := setLastRemindedAt now ts in
          {| vTimer := ts;
             vNotes := [ {| ntUrgent := false;
                            ntMessage := reminderMessage ts |} ];
             vChanged := true |}
        else {| vTimer := ts; vNotes := []; vChanged := true |}
      else if sinceLastReminder >=? reminderInterval s then
        let ts := setLastRemindedAt now ts in
        {| vTimer := ts;
           vNotes := [ {| ntUrgent := false;
                          ntMessage := reminderMessage ts |} ];
           vChanged := true |}
      else {| vTimer := ts; vNotes := []; vChanged := true |}
    else {| vTimer := ts; vNotes := []; vChanged := true |}.

(** Body of the second loop of [processSession]: follow-up on fired
    timers. *)
Definition followUp (s : Supervisor) (now : Time) (ts : TimerState) : Visit :=
  if negb (bool_decide (tsStatus ts = TimerFired)) then
    {| vTimer := ts; vNotes := []; vChanged := false |}
  else if tsEscalationLevel ts >? maxEscalation s then
    {| vTimer := ts; vNotes := []; vChanged := false |}
  else if negb (IsZero (tsLastNotified ts)) &&
          (Sub now (tsLastNotified ts) <? notifyCooldown s) then
    {| vTimer := ts; vNotes := []; vChanged := false |}
  else
    let msg := escalationMessage ts in
    let ts := setLastNotified now ts in
    let ts := setEscalationLevel (wrap64 (tsEscalationLevel ts + 1)) ts in
    {| vTimer := ts;
       vNotes := [ {| ntUrgent := false; ntMessage := msg |} ];
       vChanged := true |}.

(** The notifier calls of one loop, each recorded with the map key of the
    timer whose iteration made it.  The order of the keys is that of
    [map_to_list]; Go leaves the iteration order of a map unspecified. *)
Definition loopNotes (visits : gmap string Visit)
  : list (string * Notification) :=
  flat_map (fun kv => (fun n => (kv.1, n)) <$> vNotes kv.2)
           (map_to_list visits).

Definition loopChanged (visits : gmap string Visit) : bool :=
  existsb (fun kv => vChanged kv.2) (map_to_list visits).

Record Processed := {
  pSession : Session;
  pNotes : list (string * Notification);
  pChanged : bool;
}.

(** [processSession] *)
Definition processSession (s : Supervisor) (now : Time) (session : Session)
  : Processed :=
  if negb (bool_decide (sessStatus session = SessionActive)) then
    {| pSession := session; pNotes := []; pChanged := false |}
  else
    let first := countdown s now <$> sessTimerStates session in
    let second := followUp s now <$> (vTimer <$> first) in
    {| pSession := setTimerStates (vTimer <$> second) session;
       pNotes := loopNotes first ++ loopNotes second;
       pChanged := loopChanged first || loopChanged second |}.

(** [tick]: every listed session is processed.  The sessions are mutated
    through the stored pointers; the [Save] of a changed session stores
    the same pointer under the session's ID, the key it already has in
    every store the engine builds ([Reachable_storeInv]). *)
Definition tickSession (s : Supervisor) (now : Time) (session : Session)
  : Session :=
  if Storage.isListed session then pSession (processSession s now session)
  else session.

Definition tick (s : Supervisor) (now : Time) (st : gmap string Session)
  : gmap string Session * list (string * Notification) :=
  (tickSession s now <$> st,
   flat_map (fun session => pNotes (processSession s now session))
            (Storage.ListActive st)).

(** Successive calls of [processSession] on one session, one per instant of
    [nows]; each notifier call is recorded with the instant of its tick. *)
Fixpoint ticks (s : Supervisor) (nows : list Time) (session : Session)
  : Session * list (Time * (string * Notification)) :=
  match nows with
  | [] => (session, [])
  | now :: rest =>
      let p := processSession s now session in
      let r := ticks s rest (pSession p) in
      (r.1, ((fun n => (now, n)) <$> pNotes p) ++ r.2)
  end.

(** The calls recorded for the timer stored under [key]. *)
Definition notesFor {T} (key : string) (l : list (T * (string * Notification)))
  : list (T * Notification) :=
  (fun x => (x.1, x.2.2)) <$> filter (fun x => x.2.1 = key) l.

(** What one call of [processSession] on an active session does to a
    single timer: its iteration of the first loop, then of the second. *)
Definition visit (s : Supervisor) (now : Time) (ts : TimerState)
  : TimerState :=
  vTimer (followUp s now (vTimer (countdown s now ts))).

(** The notifier calls made for that timer, in the order of the two loops. *)
Definition visitNotes (s : Supervisor) (now : Time) (ts : TimerState)
  : list Notification :=
  vNotes (countdown s now ts)
  ++ vNotes (followUp s now (vTimer (countdown s now ts))).

(** The timer after the calls of [processSession] at the instants [nows],
    and the notifier calls made for it, each with its instant. *)
Fixpoint visits (s : Supervisor) (nows : list Time) (ts : TimerState)
  : TimerState * list (Time * Notification) :=
  match nows with
  | [] => (ts, [])
  | now :: rest =>
      let r := visits s rest (visit s now ts) in
      (r.1, ((fun n => (now, n)) <$> visitNotes s now ts) ++ r.2)
  end.

(** A fired timer at level [level], last notified at [last]. *)
Definition firedAt (ts : TimerState) (level : Z) (last : Time) : Prop :=
  tsStatus ts = TimerFired /\ tsEscalationLevel ts = level
  /\ tsLastNotified ts = last.

(** The instants [t0], [t0 + step], ..., [n] of them. *)
Definition every (t0 step : Time) (n : nat) : list Time :=
  (fun k => t0 + Z.of_nat k * step) <$> seq 0 n.

End Timer.

(** ** internal/speech: the queue of the Mouth *)

Module Speech.
Import Domain.

Definition Priority := Z.
Definition PriorityLow : Priority := 0.
Definition PriorityNormal : Priority := 1.
Definition PriorityHigh : Priority := 2.
Definition PriorityCritical : Priority := 3.

Record SpeechRequest := {
  Text : string;
  Prio : Priority;
  QueuedAt : Time;
}.

(** [flushLowLocked]: the items above [PriorityLow], in their order. *)
Definition flushLowLocked (queue : list SpeechRequest) : list SpeechRequest :=
  filter (fun item => PriorityLow < Prio item) queue.

(** [Say], on the queue; [now] is the reading of [time.Now()]. *)
Definition Say (queue : list SpeechRequest) (text : string)
    (priority : Priority) (now : Time) : list SpeechRequest :=
  let queue := if priority >=? PriorityNormal then flushLowLocked queue
               else queue in
  queue ++ [ {| Text := text; Prio := priority; QueuedAt := now |} ].

(** [Interrupt], on the queue. *)
Definition Interrupt (queue : list SpeechRequest) : list SpeechRequest := [].

(** The scan of [dequeue]: [bestIdx] after the items from position [i] on
    have been visited. *)
Fixpoint scan (queue rest : list SpeechRequest) (i bestIdx : nat) : nat :=
  match rest with
  | [] => bestIdx
  | item :: rest' =>
      let bestIdx :=
        match queue !! bestIdx with
        | Some best => if Prio item >? Prio best then i else bestIdx
        | None => bestIdx
        end in
      scan queue rest' (S i) bestIdx
  end.

Definition bestIndex (queue : list SpeechRequest) : nat := scan queue queue 0 0.

(** [dequeue]: [None] is the [false] of the source. *)
Definition dequeue (queue : list SpeechRequest)
  : option (SpeechRequest * list SpeechRequest) :=
  match queue with
  | [] => None
  | _ =>
      let bestIdx := bestIndex queue in
      match queue !! bestIdx with
      | Some item => Some (item, take bestIdx queue ++ drop (S bestIdx) queue)
      | None => None
      end
  end.

(** The requests in the order in which [drain] processes them when nothing
    is queued meanwhile; [fuel] bounds the number of iterations. *)
Fixpoint drainN (fuel : nat) (queue : list SpeechRequest)
  : list SpeechRequest :=
  match fuel with
  | O => []
  | S fuel' =>
      match dequeue queue with
      | None => []
      | Some (item, queue') => item :: drainN fuel' queue'
      end
  end.

Definition drain (queue : list SpeechRequest) : list SpeechRequest :=
  drainN (length queue) queue.

(** The queues the Mouth can hold: built from the empty queue by [Say] at
    readings of a clock that never runs backwards, by [dequeue] and by
    [Interrupt].  The index is the latest reading of the clock. *)
Inductive Queued : Time -> list SpeechRequest -> Prop :=
| Queued_new t : Queued t []
| Queued_say t q text priority now :
    Queued t q -> t <= now -> Queued now (Say q text priority now)
| Queued_dequeue t q item q' :
    Queued t q -> dequeue q = Some (item, q') -> Queued t q'
| Queued_interrupt t q : Queued t q -> Queued t (Interrupt q).

(** Requests in the order of their [QueuedAt]. *)
Definition byQueuedAt (a b : SpeechRequest) : Prop := QueuedAt a <= QueuedAt b.

(** Requests in descending order of priority. *)
Definition byPriorityDesc (a b : SpeechRequest) : Prop := Prio b <= Prio a.

(** What the scan knows after visiting the positions below [i]. *)
Definition scanInv (queue : list SpeechRequest) (i bestIdx : nat) : Prop :=
  exists best,
    queue !! bestIdx = Some best
    /\ (forall j x, (j < i)%nat -> queue !! j = Some x -> Prio x <= Prio best)
    /\ (forall j x, (j < bestIdx)%nat -> queue !! j = Some x ->
          Prio x < Prio best).

End Speech.

(** ** internal/gpt: the step actions of the recipe mutation applier *)

Module Gpt.
Import Domain.

Inductive ActionType :=
| ActionUpdateIngredient | ActionRemoveIngredient | ActionAddIngredient
| ActionUpdateStep | ActionRemoveStep | ActionAddStep
| ActionUpdateServings | ActionUpdateTimer.

Record Action := {
  Type_ : ActionType;
  IngredientName : string;
  NewIngredientName : string;
  QuantityBits : Z;
  Unit : string;
  SizeDescriptor : string;
  StepIndex : Z;
  Instruction : string;
  TimerLabel : string;
  TimerDuration : string;
  Servings : Z;
}.

Definition setSteps (steps : list Step) (r : Recipe) : Recipe :=
  {| recipeID := recipeID r; recipeName := recipeName r;
     recipeDescription := recipeDescription r;
     recipeServings := recipeServings r;
     recipeIngredients := recipeIngredients r;
     recipeSteps := steps;
     recipeTags := recipeTags r;
     recipeVersion := recipeVersion r |}.

Definition setOrder (v : Z) (s : Step) : Step :=
  {| stepID := stepID s; stepOrder := v;
     stepInstruction := stepInstruction s; stepDuration := stepDuration s;
     stepConditions := stepConditions s;
     stepParallelHints := stepParallelHints s;
     stepTimerConfig := stepTimerConfig s |}.

Definition setInstruction (v : string) (s : Step) : Step :=
  {| stepID := stepID s; stepOrder := stepOrder s;
     stepInstruction := v; stepDuration := stepDuration s;
     stepConditions := stepConditions s;
     stepParallelHints := stepParallelHints s;
     stepTimerConfig := stepTimerConfig s |}.

(** [for i := range r.Steps { r.Steps[i].Order = i + 1 }] *)
Definition renumber (steps : list Step) : list Step :=
  imap (fun i s => setOrder (wrap64 (Z.of_nat i + 1)) s) steps.

(** The zero value [domain.Step{}]. *)
Definition zeroStep : Step :=
  {| stepID := EmptyString; stepOrder := 0; stepInstruction := EmptyString;
     stepDuration := 0; stepConditions := []; stepParallelHints := [];
     stepTimerConfig := None |}.

(** [copy(s[dst:], s[src:])] inside one slice: as many elements as the
    shorter of the two windows, moved as by memmove. *)
Definition copyWithin {A} (s : list A) (dst src : nat) : list A :=
  let n := Nat.min (length s - dst) (length s - src) in
  take dst s ++ take n (drop src s) ++ drop (dst + n) s.

(** [updateStep] *)
Definition updateStep (r : Recipe) (act : Action) : Outcome error Recipe :=
  let idx := wrap64 (StepIndex act - 1) in
  if (idx <? 0) || (idx >=? len (recipeSteps r)) then
    Fail (ErrStepOutOfRange (StepIndex act) (len (recipeSteps r)))
  else
    if negb (bool_decide (Instruction act = EmptyString)) then
      Return (setSteps (alter (setInstruction (Instruction act))
                              (Z.to_nat idx) (recipeSteps r)) r)
    else Return r.

(** [removeStep] *)
Definition removeStep (r : Recipe) (act : Action) : Outcome error Recipe :=
  let idx := wrap64 (StepIndex act - 1) in
  if (idx <? 0) || (idx >=? len (recipeSteps r)) then
    Fail (ErrStepOutOfRange (StepIndex act) (len (recipeSteps r)))
  else
    let i := Z.to_nat idx in
    let steps := take i (recipeSteps r) ++ drop (S i) (recipeSteps r) in
    Return (setSteps (renumber steps) r).

(** [addStep] *)
Definition addStep (r : Recipe) (act : Action) : Outcome error Recipe :=
  let idx := wrap64 (StepIndex act - 1) in
  let idx := if (idx <? 0) || (idx >? len (recipeSteps r))
             then len (recipeSteps r) else idx in
  let newStep :=
    {| stepID := ("step-" ++ pretty (wrap64 (len (recipeSteps r) + 1)))%string;
       stepOrder := wrap64 (idx + 1);
       stepInstruction := Instruction act;
       stepDuration := 0; stepConditions := []; stepParallelHints := [];
       stepTimerConfig := None |} in
  let i := Z.to_nat idx in
  let steps := recipeSteps r ++ [zeroStep] in
  let steps := copyWithin steps (S i) i in
  let steps := <[i := newStep]> steps in
  Return (setSteps (renumber steps) r).

End Gpt.

(** ** The running program: engine operations interleaved with ticks *)

Module System.
Import Domain.

(** One operation of the orchestrator on the engine, with the clock
    readings and the random ID it consumes, or one tick of a supervisor
    working on the engine's store. *)
Inductive Op :=
| OpStartSession (newID : string) (startedAt updatedAt stepStartedAt : Time)
                 (recipeID : string) (servings : Z)
| OpAdvance (now : Time) (sessionID : string)
| OpSkip (now : Time) (sessionID : string)
| OpPause (now : Time) (sessionID : string)
| OpResume (now : Time) (sessionID : string)
| OpAbandon (now : Time) (sessionID : string)
| OpStartPendingTimers (now : Time) (sessionID : string)
| OpDismissTimer (now : Time) (sessionID timerID : string)
| OpUpdateRecipe (recipe : Recipe)
| OpMutateRecipe (recipeID : string) (recipe : Recipe)
| OpTick (s : Timer.Supervisor) (now : Time).

(** The engine after an operation that returned (with a value or with an
    error); [None] when the operation panicked, which ends the process. *)
Definition after {A} (r : Outcome error A * Engine.Engine)
  : option Engine.Engine :=
  match r.1 with
  | Panic => None
  | _ => Some r.2
  end.

(** [ApplyActions] works on the pointer handed out by the recipe source:
    the stored recipe changes in place, before and without [UpdateRecipe]. *)
Definition mutateRecipe (e : Engine.Engine) (rid : string) (recipe : Recipe)
  : Engine.Engine :=
  match Engine.recipes e !! rid with
  | None => e
  | Some _ =>
      {| Engine.recipes := <[rid := recipe]> (Engine.recipes e);
         Engine.store := Engine.store e;
         Engine.defaultServings := Engine.defaultServings e |}
  end.

Definition exec (op : Op) (e : Engine.Engine) : option Engine.Engine :=
  match op with
  | OpStartSession newID t1 t2 t3 rid n =>
      after (Engine.StartSession e newID t1 t2 t3 rid n)
  | OpAdvance now sid => after (Engine.Advance e now sid)
  | OpSkip now sid => after (Engine.Skip e now sid)
  | OpPause now sid => after (Engine.Pause e now sid)
  | OpResume now sid => after (Engine.Resume e now sid)
  | OpAbandon now sid => after (Engine.Abandon e now sid)
  | OpStartPendingTimers now sid =>
      after (Engine.StartPendingTimers e now sid)
  | OpDismissTimer now sid tid => after (Engine.DismissTimer e now sid tid)
  | OpUpdateRecipe recipe => after (Engine.UpdateRecipe e recipe)
  | OpMutateRecipe rid recipe => Some (mutateRecipe e rid recipe)
  | OpTick s now =>
      Some (Engine.withStore e (Timer.tick s now (Engine.store e)).1)
  end.

(** The engines reachable from [engine.New] over an empty session store. *)
Inductive Reachable : Engine.Engine -> Prop :=
| Reachable_new rs d :
    Reachable {| Engine.recipes := rs; Engine.store := ∅;
                 Engine.defaultServings := d |}
| Reachable_exec e op e' :
    Reachable e -> exec op e = Some e' -> Reachable e'.

(** Running a list of operations from an engine. *)
Fixpoint execAll (ops : list Op) (e : Engine.Engine) : option Engine.Engine :=
  match ops with
  | [] => Some e
  | op :: ops' =>
      match exec op e with
      | Some e' => execAll ops' e'
      | None => None
      end
  end.

(** Facts about a timer that hold in every reachable engine, relative to the
    status of its session: a fired timer has no time remaining; a paused
    timer lives in a paused or abandoned session; a timer that has not
    fired is at escalation level 0. *)
Definition timerInv (st : SessionStatus) (ts : TimerState) : Prop :=
  (tsStatus ts = TimerFired -> tsRemaining ts = 0)
  /\ (tsStatus ts = TimerPaused ->
        st = SessionPaused \/ st = SessionAbandoned)
  /\ (tsStatus ts = TimerPending \/ tsStatus ts = TimerRunning
        \/ tsStatus ts = TimerPaused -> tsEscalationLevel ts = 0).

Definition sessInv (session : Session) : Prop :=
  forall tid ts, sessTimerStates session !! tid = Some ts ->
                 timerInv (sessStatus session) ts.

(** Every session is stored under its own ID and satisfies [sessInv]. *)
Definition storeInv (st : gmap string Session) : Prop :=
  forall sid session, st !! sid = Some session ->
                      sessID session = sid /\ sessInv session.

End System.

(** ** Shapes of sessions kept by the operations *)

Module Shape.
Import Domain.

(** The two statuses no operation leaves. *)
Definition finished (st : SessionStatus) : Prop :=
  st = SessionCompleted \/ st = SessionAbandoned.

(** In an active or paused session the current step has a step state, it
    is active, and no other step is; in a completed session no step is
    active. *)
Definition stepInv (session : Session) : Prop :=
  (sessStatus session = SessionActive \/ sessStatus session = SessionPaused ->
   (exists st, sessStepStates session !! sessCurrentStepIndex session = Some st
               /\ ssStatus st = StepActive)
   /\ (forall i st, sessStepStates session !! i = Some st ->
                    ssStatus st = StepActive ->
                    i = sessCurrentStepIndex session))
  /\ (sessStatus session = SessionCompleted ->
      forall i st, sessStepStates session !! i = Some st ->
                   ssStatus st <> StepActive).

(** A timer within its bounds: [0 <= Remaining <= Duration]. *)
Definition timerBounded (ts : TimerState) : Prop :=
  0 <= tsRemaining ts <= tsDuration ts /\ tsDuration ts <= maxInt64.

Definition sessBounded (session : Session) : Prop :=
  forall tid ts, sessTimerStates session !! tid = Some ts -> timerBounded ts.

Definition storeBounded (st : gmap string Session) : Prop :=
  forall sid session, st !! sid = Some session -> sessBounded session.

(** Recipes whose timer configs have a non-negative duration. *)
Definition configBounded (step : Step) : Prop :=
  match stepTimerConfig step with
  | Some cfg => 0 <= tcDuration cfg <= maxInt64
  | None => True
  end.

Definition recipesBounded (e : Engine.Engine) : Prop :=
  forall rid recipe step,
    Engine.recipes e !! rid = Some recipe -> step ∈ recipeSteps recipe ->
    configBounded step.

(** A tick of a supervisor whose interval is not negative. *)
Definition tickBounded (op : System.Op) : Prop :=
  match op with
  | System.OpTick s _ => 0 <= Timer.tickInterval s <= maxInt64
  | _ => True
  end.

(** An operation that does not start a session under the ID [sid]. *)
Definition keepsID (sid : string) (op : System.Op) : Prop :=
  match op with
  | System.OpStartSession newID _ _ _ _ _ => newID <> sid
  | _ => True
  end.

(** The steps are taken in order: those before the current one are done
    or skipped, those after it are pending; no index is negative. *)
Definition progressInv (session : Session) : Prop :=
  0 <= sessCurrentStepIndex session <= maxInt64
  /\ forall i st,
       sessStepStates session !! i = Some st ->
       0 <= i
       /\ (i < sessCurrentStepIndex session ->
           ssStatus st = StepDone \/ ssStatus st = StepSkipped)
       /\ (sessCurrentStepIndex session < i -> ssStatus st = StepPending).

End Shape.

(** ** internal/engine: the read-only operations *)

Module EngineQueries.
Import Domain.

(** [CurrentStep]: the current step with its step state ([None] is the
    nil pointer the map gives for a missing index). *)
Definition CurrentStep (e : Engine.Engine) (sessionID : string)
  : Outcome error (Step * option StepState) :=
  match Storage.Load (Engine.store e) sessionID with
  | Panic => Panic
  | Fail err => Fail (Wrapf "loading session" err)
  | Return session =>
      match Engine.recipesGet e (sessRecipeID session) with
      | Panic => Panic
      | Fail err => Fail (Wrapf "getting recipe" err)
      | Return recipe =>
          let idx := sessCurrentStepIndex session in
          if idx >=? len (recipeSteps recipe) then Fail ErrNoMoreSteps
          else
            match index (recipeSteps recipe) idx with
            | None => Panic
            | Some step => Return (step, sessStepStates session !! idx)
            end
      end
  end.

(** [Repeat] *)
Definition Repeat (e : Engine.Engine) (sessionID : string)
  : Outcome error Step :=
  match CurrentStep e sessionID with
  | Panic => Panic
  | Fail err => Fail err
  | Return (step, _) => Return step
  end.

(** [NextStep]: [Return None] is the [nil, nil] of the last step. *)
Definition NextStep (e : Engine.Engine) (sessionID : string)
  : Outcome error (option Step) :=
  match Storage.Load (Engine.store e) sessionID with
  | Panic => Panic
  | Fail err => Fail (Wrapf "loading session" err)
  | Return session =>
      match Engine.recipesGet e (sessRecipeID session) with
      | Panic => Panic
      | Fail err => Fail (Wrapf "getting recipe" err)
      | Return recipe =>
          let nextIdx := wrap64 (sessCurrentStepIndex session + 1) in
          if nextIdx >=? len (recipeSteps recipe) then Return None
          else
            match index (recipeSteps recipe) nextIdx with
            | None => Panic
            | Some step => Return (Some step)
            end
      end
  end.

(** [HasPendingTimers] *)
Definition HasPendingTimers (e : Engine.Engine) (sessionID : string)
  : Outcome error bool :=
  match Storage.Load (Engine.store e) sessionID with
  | Panic => Panic
  | Fail err => Fail (Wrapf "loading session" err)
  | Return session =>
      Return (existsb (fun kv => bool_decide (tsStatus kv.2 = TimerPending))
                      (map_to_list (sessTimerStates session)))
  end.

Definition isActiveTimer (ts : TimerState) : bool :=
  bool_decide (tsStatus ts = TimerRunning)
  || bool_decide (tsStatus ts = TimerFired).

(** [ActiveTimers]: the running and the fired timers, in the order of the
    map iteration. *)
Definition ActiveTimers (e : Engine.Engine) (sessionID : string)
  : Outcome error (list TimerState) :=
  match Storage.Load (Engine.store e) sessionID with
  | Panic => Panic
  | Fail err => Fail (Wrapf "loading session" err)
  | Return session =>
      Return (filter (fun ts => isActiveTimer ts = true)
                     (snd <$> map_to_list (sessTimerStates session)))
  end.

End EngineQueries.

(** ** internal/storage: deletion *)

Module StorageMore.
Import Domain.

(** [Delete] *)
Definition Delete (st : gmap string Session) (id : string)
  : Outcome error unit * gmap string Session :=
  match st !! id with
  | None => (Fail ErrNotFound, st)
  | Some _ => (Return tt, delete id st)
  end.

End StorageMore.

(** ** internal/gpt: the timer action *)

Module GptTimer.
Import Domain.

(** The two errors of [updateTimer]: [step %d out of range (1-%d)] and
    [invalid timer duration: %q]. *)
Inductive updateTimerError :=
| TimerStepOutOfRange (stepIndex steps : Z)
| InvalidTimerDuration (timerDuration : string).

Definition setTimerConfig (cfg : option TimerConfig) (s : Step) : Step :=
  {| stepID := stepID s; stepOrder := stepOrder s;
     stepInstruction := stepInstruction s; stepDuration := stepDuration s;
     stepConditions := stepConditions s;
     stepParallelHints := stepParallelHints s;
     stepTimerConfig := cfg |}.

(** The assignments of [updateTimer] to the step it found. *)
Definition retime (dur : Duration) (label : string) (step : Step) : Step :=
  let cfg := match stepTimerConfig step with
             | Some cfg => cfg
             | None => {| tcDuration := 0; tcLabel := EmptyString |}
             end in
  let cfg := {| tcDuration := dur; tcLabel := tcLabel cfg |} in
  let cfg := if negb (bool_decide (label = EmptyString))
             then {| tcDuration := tcDuration cfg; tcLabel := label |}
             else cfg in
  setTimerConfig (Some cfg) step.

(** [updateTimer]; [dur] is the value of [act.ParsedTimerDuration()].  Each
    step owns its timer config (no two steps hold the same pointer). *)
Definition updateTimer (dur : Duration) (r : Recipe) (act : Gpt.Action)
  : Outcome updateTimerError Recipe :=
  let idx := wrap64 (Gpt.StepIndex act - 1) in
  if (idx <? 0) || (idx >=? len (recipeSteps r)) then
    Fail (TimerStepOutOfRange (Gpt.StepIndex act) (len (recipeSteps r)))
  else if dur <=? 0 then Fail (InvalidTimerDuration (Gpt.TimerDuration act))
  else
    Return (Gpt.setSteps (alter (retime dur (Gpt.TimerLabel act))
                                (Z.to_nat idx) (recipeSteps r)) r).

End GptTimer.

(** ** internal/speech: sentences and log truncation

    A text is the sequence of its runes, as [[]rune(text)] gives them for
    well-formed UTF-8; a rune is its code point. *)

Module Sentences.

Definition rune := Z.

(** [isSentenceEnd]: [.], [!] or [?]. *)
Definition isSentenceEnd (r : rune) : bool :=
  (r =? 46) || (r =? 33) || (r =? 63).

(** [unicode.IsSpace]: the Latin-1 spaces and the code points with the
    White_Space property. *)
Definition IsSpace (r : rune) : bool :=
  ((9 <=? r) && (r <=? 13)) || (r =? 32) || (r =? 133) || (r =? 160)
  || (r =? 5760) || ((8192 <=? r) && (r <=? 8202))
  || (r =? 8232) || (r =? 8233) || (r =? 8239) || (r =? 8287)
  || (r =? 12288).

(** The loop of [splitSentences] from position [i] on: [current] is the
    builder, [afterEnd] tells that the inner loop, which consumes the
    white space after a sentence end, is running; the result lists the
    sentences appended from here on. *)
Fixpoint splitFrom (runes : list rune) (current : list rune)
    (afterEnd : bool) : list (list rune) :=
  match runes with
  | [] => if bool_decide (current = []) then [] else [current]
  | r :: rest =>
      if afterEnd && IsSpace r then splitFrom rest (current ++ [r]) true
      else
        let flushed := if afterEnd then [current] else [] in
        let current := if afterEnd then [] else current in
        flushed ++ splitFrom rest (current ++ [r]) (isSentenceEnd r)
  end.

(** [splitSentences] *)
Definition splitSentences (text : list rune) : list (list rune) :=
  splitFrom text [] false.

(** [truncate] of the Mouth and [truncateStr] of the command loop, on the
    bytes of the string; [None] is the panic of a slice bound out of
    range. *)
Definition truncate (s : list Z) (maxLen : Z) : option (list Z) :=
  if len s <=? maxLen then Some s
  else
    let hi := wrap64 (maxLen - 3) in
    if (hi <? 0) || (hi >? len s) then None
    else Some (take (Z.to_nat hi) s ++ [46; 46; 46]).

End Sentences.

(** ** Two statements in the specification's own words *)

Module Spec.
Import Domain.

(** Level 0: "is up."; level 1: an em dash before "check it now."; level 2:
    ". Now."; level 3 and above: the bare label. *)
Definition escalationTemplate (level : Z) (label : string) : string :=
  if level =? 0 then ("[Timer] " ++ label ++ " is up.")%string
  else if level =? 1 then ("[Timer] " ++ label ++ " — check it now.")%string
  else if level =? 2 then ("[Timer] " ++ label ++ ". Now.")%string
  else ("[Timer] " ++ label ++ ".")%string.


End Spec.

(** A timer as [maybeStartTimer] creates it, used in the examples. *)
Definition sampleTimer (label : string) (d : Z) (st : Domain.TimerStatus)
    (level : Z) : Domain.TimerState :=
  {| Domain.tsID := "timer-s1"; Domain.tsStepID := "s1";
     Domain.tsLabel := label; Domain.tsDuration := d;
     Domain.tsRemaining := d; Domain.tsStatus := st;
     Domain.tsLastNotified := 0; Domain.tsLastRemindedAt := 0;
     Domain.tsWarnedAlmost := false; Domain.tsEscalationLevel := level |}.

(** A small recipe source and the engines used in the examples: step [s1]
    has a 3 s timer, step [s2] none, step [s3] a 2 s timer; the recipe
    [empty] has no step. *)
Definition sampleStep (id : string) (order : Z) (tc : option Domain.TimerConfig)
  : Domain.Step :=
  {| Domain.stepID := id; Domain.stepOrder := order;
     Domain.stepInstruction := "stir"; Domain.stepDuration := 0;
     Domain.stepConditions := []; Domain.stepParallelHints := [];
     Domain.stepTimerConfig := tc |}.

Definition sampleRecipe (id : string) (steps : list Domain.Step)
  : Domain.Recipe :=
  {| Domain.recipeID := id; Domain.recipeName := id;
     Domain.recipeDescription := "sample"; Domain.recipeServings := 2;
     Domain.recipeIngredients := []; Domain.recipeSteps := steps;
     Domain.recipeTags := []; Domain.recipeVersion := 1 |}.

Definition pastaSteps : list Domain.Step :=
  [ sampleStep "s1" 1
      (Some {| Domain.tcDuration := 3 * Domain.Second;
               Domain.tcLabel := "Pasta" |});
    sampleStep "s2" 2 None;
    sampleStep "s3" 3
      (Some {| Domain.tcDuration := 2 * Domain.Second;
               Domain.tcLabel := "Sauce" |}) ].

Definition engine0 : Engine.Engine :=
  {| Engine.recipes :=
       <["pasta" := sampleRecipe "pasta" pastaSteps]>
         (<["empty" := sampleRecipe "empty" []]> ∅);
     Engine.store := ∅;
     Engine.defaultServings := 2 |}.

(** [engine0] after a session [abc] was started on the recipe [pasta]. *)
Definition engineStarted : Engine.Engine :=
  (Engine.StartSession engine0 "abc" 100 100 100 "pasta" 0).2.

(** ... and after its pending timer was started. *)
Definition engineRunning : Engine.Engine :=
  (Engine.StartPendingTimers engineStarted 110 "abc").2.

(** A step action of the given type, index and instruction. *)
Definition stepAction (ty : Gpt.ActionType) (stepIndex : Z)
    (instruction : string) : Gpt.Action :=
  {| Gpt.Type_ := ty; Gpt.IngredientName := EmptyString;
     Gpt.NewIngredientName := EmptyString; Gpt.QuantityBits := 0;
     Gpt.Unit := EmptyString; Gpt.SizeDescriptor := EmptyString;
     Gpt.StepIndex := stepIndex; Gpt.Instruction := instruction;
     Gpt.TimerLabel := EmptyString; Gpt.TimerDuration := EmptyString;
     Gpt.Servings := 0 |}.

(** A queue of three requests said at the instants 10, 20 and 30. *)
Definition sampleQueue : list Speech.SpeechRequest :=
  Speech.Say
    (Speech.Say (Speech.Say [] "step one" Speech.PriorityNormal 10)
                "timer is up" Speech.PriorityHigh 20)
    "step two" Speech.PriorityNormal 30.

(** ... and after that timer was dismissed while running. *)
Definition engineDismissed : Engine.Engine :=
  (Engine.DismissTimer engineRunning 120 "abc" "timer-s1").2.

(** An engine whose recipe [egg] has one step with a 1 s timer ... *)
Definition engineEgg0 : Engine.Engine :=
  {| Engine.recipes :=
       <["egg" := sampleRecipe "egg"
                    [ sampleStep "e1" 1
                        (Some {| Domain.tcDuration := 1 * Domain.Second;
                                 Domain.tcLabel := "Egg" |}) ]]> ∅;
     Engine.store := ∅;
     Engine.defaultServings := 2 |}.

(** ... after a session [egg1] was started and its timer set running. *)
Definition engineEgg : Engine.Engine :=
  (Engine.StartPendingTimers
     (Engine.StartSession engineEgg0 "egg1" 100 100 100 "egg" 0).2
     110 "egg1").2.

(** The recipe [pasta] after an add_step action appended a fourth step to
    it in place ... *)
Definition pastaGrown : Domain.Recipe :=
  match Gpt.addStep (sampleRecipe "pasta" pastaSteps)
                    (stepAction Gpt.ActionAddStep 4 "serve") with
  | Return r => r
  | _ => sampleRecipe "pasta" pastaSteps
  end.

(** ... and [engineStarted] after that change, made while the session
    [abc] was on its first step, was persisted with [UpdateRecipe] ... *)
Definition engineModified : Engine.Engine :=
  (Engine.UpdateRecipe (System.mutateRecipe engineStarted "pasta" pastaGrown)
                       pastaGrown).2.

(** ... and after the session advanced twice, to the third step. *)
Definition engineGrown : Engine.Engine :=
  (Engine.Advance (Engine.Advance engineModified 200 "abc").2 210 "abc").2.

(** * Properties *)

Import Domain.

(** ** Machine arithmetic *)

Lemma wrap64_id z : inInt64 z -> wrap64 z = z.
Proof.
  unfold inInt64, minInt64, maxInt64, wrap64. intros H.
  rewrite Z.mod_small; lia.
Qed.

Lemma len_nonneg {A} (s : list A) : 0 <= len s.
Proof. unfold len. lia. Qed.

Lemma index_lookup {A} (s : list A) (i : Z) :
  0 <= i -> index s i = s !! Z.to_nat i.
Proof. unfold index. intros H. destruct (Z.ltb_spec i 0); [lia | done]. Qed.

Lemma index_Some_lt {A} (s : list A) (i : Z) :
  0 <= i < len s -> is_Some (index s i).
Proof.
  intros H. rewrite index_lookup by lia. apply lookup_lt_is_Some.
  unfold len in H. lia.
Qed.

(** ** Escalation messages *)

(** C6 (as stated, refuted): at level 1 the source writes two ASCII hyphens
    where the table of the specification has an em dash. *)
Lemma escalationMessage_level1_differs :
  Timer.escalationMessage (sampleTimer "Pasta" 5 TimerFired 1)
  <> Spec.escalationTemplate 1 "Pasta".
Proof. vm_compute. discriminate. Qed.

(** C6 (amended): the message for a timer at level 0 is "[Timer] {label} is
    up.", at level 1 "[Timer] {label} -- check it now." with two ASCII
    hyphens, at level 2 "[Timer] {label}. Now.", and at every other level
    (3 and above, and below 0) "[Timer] {label}.". *)
Theorem escalationMessage_table (ts : TimerState) :
  (tsEscalationLevel ts = 0 ->
     Timer.escalationMessage ts = ("[Timer] " ++ tsLabel ts ++ " is up.")%string)
  /\ (tsEscalationLevel ts = 1 ->
     Timer.escalationMessage ts
     = ("[Timer] " ++ tsLabel ts ++ " -- check it now.")%string)
  /\ (tsEscalationLevel ts = 2 ->
     Timer.escalationMessage ts = ("[Timer] " ++ tsLabel ts ++ ". Now.")%string)
  /\ (3 <= tsEscalationLevel ts \/ tsEscalationLevel ts < 0 ->
     Timer.escalationMessage ts = ("[Timer] " ++ tsLabel ts ++ ".")%string).
Proof.
  unfold Timer.escalationMessage.
  repeat split; intros H.
  - by rewrite H.
  - by rewrite H.
  - by rewrite H.
  - destruct (tsEscalationLevel ts) as [|p|p]; [lia | | done].
    destruct p as [[q|q|]|[q|q|]|]; try done; lia.
Qed.

Lemma escalationMessage_table_witness :
  Timer.escalationMessage (sampleTimer "Pasta" 5 TimerFired 1)
  = "[Timer] Pasta -- check it now."%string
  /\ Timer.escalationMessage (sampleTimer "Pasta" 5 TimerFired 7)
  = "[Timer] Pasta."%string.
Proof.
  split.
  - apply (escalationMessage_table (sampleTimer "Pasta" 5 TimerFired 1)).
    reflexivity.
  - apply (escalationMessage_table (sampleTimer "Pasta" 5 TimerFired 7)).
    left. simpl. lia.
Defined.

(** ** Resume on a session that is not paused *)

(** C9: for a stored session whose status is not paused, [Resume] fails
    with the sentinel [ErrSessionPaused], whose text is "session is paused"
    and which is not [ErrSessionNotActive]; the engine, hence the session
    and each of its timers, is as before the call. *)
Theorem Resume_not_paused (e : Engine.Engine) (now : Time)
    (sessionID : string) (session : Session) :
  Engine.store e !! sessionID = Some session ->
  sessStatus session <> SessionPaused ->
  Engine.Resume e now sessionID = (Fail ErrSessionPaused, e)
  /\ sentinelText ErrSessionPaused = Some "session is paused"%string
  /\ ErrSessionPaused <> ErrSessionNotActive
  /\ Engine.store (Engine.Resume e now sessionID).2 !! sessionID
     = Some session.
Proof.
  intros Hload Hst.
  assert (Hres : Engine.Resume e now sessionID = (Fail ErrSessionPaused, e)).
  { unfold Engine.Resume, Storage.Load. rewrite Hload.
    rewrite bool_decide_eq_false_2 by done. reflexivity. }
  rewrite Hres. repeat split; done.
Qed.

Lemma Resume_not_paused_witness :
  Engine.Resume engineStarted 200 "abc" = (Fail ErrSessionPaused, engineStarted).
Proof.
  refine (proj1 (Resume_not_paused engineStarted 200 "abc" _ _ _)).
  - vm_compute. reflexivity.
  - vm_compute. discriminate.
Defined.

(** ** Starting a session *)

Lemma initStepStates_range (n : nat) : forall (a : nat) (m : gmap Z StepState) (i : Z),
  foldl (fun m i => <[Z.of_nat i := Engine.pendingStepState]> m) m (seq a n) !! i
  = if decide (Z.of_nat a <= i < Z.of_nat a + Z.of_nat n)
    then Some Engine.pendingStepState else m !! i.
Proof.
  induction n as [|n IH]; intros a m i; simpl.
  - case_decide; [lia | done].
  - rewrite IH. repeat case_decide; try done; try lia.
    + assert (i = Z.of_nat a) as -> by lia. by rewrite lookup_insert_eq.
    + rewrite lookup_insert_ne; [done | lia].
Qed.

Lemma initStepStates_lookup (steps : list Step) (i : Z) :
  Engine.initStepStates steps !! i
  = if decide (0 <= i < len steps) then Some Engine.pendingStepState else None.
Proof.
  unfold Engine.initStepStates, len. rewrite initStepStates_range.
  repeat case_decide; try done; lia.
Qed.

(** C8: when the recipe is found, [StartSession] panics exactly when the
    recipe has no step (the write through [StepStates[0]] meets a nil
    pointer; no error is returned and nothing is stored); with at least one
    step it returns the session, stored under its ID, with step 0 active
    and started at the third clock reading, every later step pending, and
    no step state outside the recipe's indices. *)
Theorem StartSession_needs_a_step (e : Engine.Engine) (newID : string)
    (startedAt updatedAt stepStartedAt : Time) (rid : string) (servings : Z)
    (recipe : Recipe) :
  Engine.recipes e !! rid = Some recipe ->
  (recipeSteps recipe = [] ->
     Engine.StartSession e newID startedAt updatedAt stepStartedAt rid servings
     = (Panic, e))
  /\ (recipeSteps recipe <> [] ->
     exists session,
       Engine.StartSession e newID startedAt updatedAt stepStartedAt rid
                           servings
       = (Return session,
          Engine.withStore e (<[newID := session]> (Engine.store e)))
       /\ sessID session = newID
       /\ sessStatus session = SessionActive
       /\ sessCurrentStepIndex session = 0
       /\ is_Some (index (recipeSteps recipe) 0)
       /\ sessStepStates session !! 0
          = Some {| ssStatus := StepActive; ssStartedAt := stepStartedAt;
                    ssCompletedAt := 0 |}
       /\ (forall i, 0 < i < len (recipeSteps recipe) ->
             sessStepStates session !! i = Some Engine.pendingStepState)
       /\ (forall i, ~ 0 <= i < len (recipeSteps recipe) ->
             sessStepStates session !! i = None)).
Proof.
  intros Hget. unfold Engine.StartSession, Engine.recipesGet. rewrite Hget.
  cbn [sessStepStates]. rewrite initStepStates_lookup. split.
  - intros ->. reflexivity.
  - intros Hne.
    assert (Hlen : 0 < len (recipeSteps recipe)).
    { destruct (recipeSteps recipe); [done | unfold len; simpl; lia]. }
    destruct (index_Some_lt (recipeSteps recipe) 0 ltac:(lia)) as [step0 Hidx].
    rewrite Hidx, decide_True by lia.
    unfold Engine.maybeStartTimer, Storage.Save.
    destruct (stepTimerConfig step0); (eexists; split; [reflexivity |]);
      cbn [sessID sessStatus sessCurrentStepIndex sessStepStates
           setTimerStates setStepStates];
      (repeat split; try done; try (by eexists);
       [ by rewrite lookup_insert_eq
       | intros i Hi; rewrite lookup_insert_ne by lia;
         rewrite initStepStates_lookup, decide_True; [done | lia]
       | intros i Hi; rewrite lookup_insert_ne by lia;
         rewrite initStepStates_lookup, decide_False; [done | lia] ]).
Qed.

Lemma StartSession_needs_a_step_witness :
  Engine.StartSession engine0 "abc" 100 100 100 "empty" 2 = (Panic, engine0)
  /\ exists session,
       Engine.StartSession engine0 "abc" 100 101 102 "pasta" 2
       = (Return session,
          Engine.withStore engine0 (<["abc" := session]> (Engine.store engine0)))
       /\ sessStepStates session !! 0
          = Some {| ssStatus := StepActive; ssStartedAt := 102;
                    ssCompletedAt := 0 |}.
Proof.
  split.
  - refine (proj1 (StartSession_needs_a_step engine0 "abc" 100 100 100
                     "empty" 2 (sampleRecipe "empty" []) _) _);
      vm_compute; reflexivity.
  - destruct (proj2 (StartSession_needs_a_step engine0 "abc" 100 101 102
                       "pasta" 2 (sampleRecipe "pasta" pastaSteps)
                       ltac:(vm_compute; reflexivity))
                ltac:(vm_compute; discriminate))
      as (session & H1 & _ & _ & _ & _ & H2 & _).
    exists session. split; assumption.
Defined.

(** ** Step actions of the applier *)

Lemma renumber_lookup (steps : list Step) (i : nat) :
  Gpt.renumber steps !! i
  = Gpt.setOrder (wrap64 (Z.of_nat i + 1)) <$> steps !! i.
Proof. unfold Gpt.renumber. by rewrite list_lookup_imap. Qed.

Lemma renumber_order (steps : list Step) (i : nat) (st : Step) :
  len steps <= maxInt64 ->
  Gpt.renumber steps !! i = Some st -> stepOrder st = Z.of_nat i + 1.
Proof.
  intros Hlen. rewrite renumber_lookup. intros H.
  destruct (steps !! i) as [st0|] eqn:Hi; [|done].
  apply lookup_lt_Some in Hi. simplify_eq/=.
  apply wrap64_id. unfold inInt64, minInt64, maxInt64, len in *. lia.
Qed.

(** The append, copy and assignment of [addStep] insert the new step at the
    chosen position. *)
Lemma addStep_inserts {A} (l : list A) (z x : A) (i : nat) :
  (i <= length l)%nat ->
  <[i := x]> (Gpt.copyWithin (l ++ [z]) (S i) i) = take i l ++ x :: drop i l.
Proof.
  intros Hi. unfold Gpt.copyWithin. rewrite length_app. simpl.
  replace (Nat.min (length l + 1 - S i) (length l + 1 - i))
    with (length l - i)%nat by lia.
  replace (S (i + (length l - i))) with (length l + 1)%nat by lia.
  rewrite (drop_ge (l ++ [z]) (length l + 1)) by (rewrite length_app; simpl; lia).
  rewrite app_nil_r.
  destruct (decide (i = length l)) as [->|Hne].
  - rewrite Nat.sub_diag, take_0, app_nil_r.
    rewrite take_ge by (rewrite length_app; simpl; lia).
    rewrite take_ge, drop_ge by lia.
    rewrite insert_app_r_alt by lia. by rewrite Nat.sub_diag.
  - rewrite take_app_le by lia.
    rewrite drop_app_le by lia.
    rewrite take_app_le by (rewrite length_drop; lia).
    rewrite (take_ge (drop i l)) by (rewrite length_drop; lia).
    rewrite insert_app_l by (rewrite length_take; lia).
    rewrite (take_S_r l i (default x (l !! i))).
    + rewrite insert_app_r_alt by (rewrite length_take; lia).
      rewrite length_take, Nat.min_l, Nat.sub_diag by lia. simpl.
      by rewrite <- app_assoc.
    + destruct (lookup_lt_is_Some_2 l i ltac:(lia)) as [y ->]. done.
Qed.

(** C10: for an add_step action whose 1-based step_index is zero or
    negative, [addStep] returns without error the recipe with the new step
    appended at the end, the same recipe as for any index past the end, and
    every step's order is its position plus one; on the same action
    [updateStep] and [removeStep] fail with the out-of-range error. *)
Theorem addStep_nonpositive_appends (r : Recipe) (act : Gpt.Action) :
  inInt64 (Gpt.StepIndex act) ->
  len (recipeSteps r) < maxInt64 ->
  Gpt.StepIndex act <= 0 ->
  let n := len (recipeSteps r) in
  let newStep :=
    {| stepID := ("step-" ++ pretty (n + 1))%string;
       stepOrder := n + 1;
       stepInstruction := Gpt.Instruction act;
       stepDuration := 0; stepConditions := []; stepParallelHints := [];
       stepTimerConfig := None |} in
  Gpt.addStep r act
  = Return (Gpt.setSteps (Gpt.renumber (recipeSteps r ++ [newStep])) r)
  /\ (forall act', inInt64 (Gpt.StepIndex act') ->
        n + 1 <= Gpt.StepIndex act' ->
        Gpt.Instruction act' = Gpt.Instruction act ->
        Gpt.addStep r act' = Gpt.addStep r act)
  /\ (forall (i : nat) (st : Step),
        Gpt.renumber (recipeSteps r ++ [newStep]) !! i = Some st ->
        stepOrder st = Z.of_nat i + 1)
  /\ Gpt.updateStep r act = Fail (ErrStepOutOfRange (Gpt.StepIndex act) n)
  /\ Gpt.removeStep r act = Fail (ErrStepOutOfRange (Gpt.StepIndex act) n).
Proof.
  intros Hrange Hlen Hidx n newStep.
  pose proof (len_nonneg (recipeSteps r)) as Hn.
  assert (Happend : forall a : Gpt.Action,
    inInt64 (Gpt.StepIndex a) ->
    Gpt.StepIndex a <= 0 \/ n + 1 <= Gpt.StepIndex a ->
    Gpt.Instruction a = Gpt.Instruction act ->
    Gpt.addStep r a
    = Return (Gpt.setSteps (Gpt.renumber (recipeSteps r ++ [newStep])) r)).
  { intros a Ha Hcase Hins. unfold Gpt.addStep. fold n.
    assert (Hsel : (if (wrap64 (Gpt.StepIndex a - 1) <? 0)
                       || (wrap64 (Gpt.StepIndex a - 1) >? n)
                    then n else wrap64 (Gpt.StepIndex a - 1)) = n).
    { unfold inInt64, minInt64, maxInt64 in *.
      destruct (decide (Gpt.StepIndex a = - 2 ^ 63)) as [Hmin|Hmin].
      - rewrite Hmin.
        replace (wrap64 (- 2 ^ 63 - 1)) with (2 ^ 63 - 1) by (vm_compute; done).
        destruct (Z.ltb_spec (2 ^ 63 - 1) 0); [lia|].
        destruct (Z.gtb_spec (2 ^ 63 - 1) n); [done | subst n; lia].
      - rewrite wrap64_id by (unfold inInt64, minInt64, maxInt64; lia).
        destruct (Z.ltb_spec (Gpt.StepIndex a - 1) 0); [done|].
        destruct (Z.gtb_spec (Gpt.StepIndex a - 1) n); [done|]. simpl. lia. }
    rewrite Hsel.
    rewrite wrap64_id by (unfold inInt64, minInt64, maxInt64 in *; subst n; lia).
    assert (Hnat : Z.to_nat n = length (recipeSteps r))
      by (unfold n, len; lia).
    rewrite Hnat, addStep_inserts by lia.
    rewrite take_ge, drop_ge by lia. rewrite Hins. reflexivity. }
  repeat split.
  - apply Happend; [done | lia | done].
  - intros act' Hr' Hpast Hins.
    rewrite (Happend act') by (try done; lia).
    rewrite (Happend act) by (try done; lia). done.
  - intros i st. apply renumber_order.
    unfold len in *. rewrite length_app. simpl. lia.
  - unfold Gpt.updateStep. fold n.
    assert (Hneg : (wrap64 (Gpt.StepIndex act - 1) <? 0)
                   || (wrap64 (Gpt.StepIndex act - 1) >=? n) = true);
      [| by rewrite Hneg].
    unfold inInt64, minInt64, maxInt64 in *.
    destruct (decide (Gpt.StepIndex act = - 2 ^ 63)) as [Hmin|Hmin].
    + rewrite Hmin.
      replace (wrap64 (- 2 ^ 63 - 1)) with (2 ^ 63 - 1) by (vm_compute; done).
      apply orb_true_iff. right. apply Z.geb_le. subst n. lia.
    + rewrite wrap64_id by (unfold inInt64, minInt64, maxInt64; lia).
      apply orb_true_iff. left. apply Z.ltb_lt. lia.
  - unfold Gpt.removeStep. fold n.
    assert (Hneg : (wrap64 (Gpt.StepIndex act - 1) <? 0)
                   || (wrap64 (Gpt.StepIndex act - 1) >=? n) = true);
      [| by rewrite Hneg].
    unfold inInt64, minInt64, maxInt64 in *.
    destruct (decide (Gpt.StepIndex act = - 2 ^ 63)) as [Hmin|Hmin].
    + rewrite Hmin.
      replace (wrap64 (- 2 ^ 63 - 1)) with (2 ^ 63 - 1) by (vm_compute; done).
      apply orb_true_iff. right. apply Z.geb_le. subst n. lia.
    + rewrite wrap64_id by (unfold inInt64, minInt64, maxInt64; lia).
      apply orb_true_iff. left. apply Z.ltb_lt. lia.
Qed.

Lemma addStep_nonpositive_appends_witness :
  (exists r', Gpt.addStep (sampleRecipe "pasta" pastaSteps)
                          (stepAction Gpt.ActionAddStep (-2) "rest")
              = Return r'
              /\ length (recipeSteps r') = 4%nat)
  /\ Gpt.removeStep (sampleRecipe "pasta" pastaSteps)
                    (stepAction Gpt.ActionAddStep (-2) "rest")
     = Fail (ErrStepOutOfRange (-2) 3).
Proof.
  destruct (addStep_nonpositive_appends (sampleRecipe "pasta" pastaSteps)
              (stepAction Gpt.ActionAddStep (-2) "rest"))
    as (Hadd & _ & _ & _ & Hrem).
  - vm_compute. split; discriminate.
  - vm_compute. reflexivity.
  - vm_compute. discriminate.
  - split; [| exact Hrem].
    eexists. split; [exact Hadd | reflexivity].
Defined.

(** ** The queue of the Mouth *)

Section MouthQueue.
Import Speech.

Lemma StronglySorted_sublist {A} (R : relation A) (k l : list A) :
  sublist k l -> StronglySorted R l -> StronglySorted R k.
Proof.
  induction 1 as [|x k l Hsub IH|x k l Hsub IH]; intros Hl.
  - constructor.
  - apply StronglySorted_cons in Hl as [Hall Hl].
    apply StronglySorted_cons. split; [| by apply IH].
    apply Forall_forall. intros y Hy.
    rewrite Forall_forall in Hall. apply Hall.
    by eapply elem_of_sublist.
  - apply StronglySorted_cons in Hl as [_ Hl]. by apply IH.
Qed.

Lemma scan_keeps_inv (queue : list SpeechRequest) :
  forall (rest : list SpeechRequest) (i bestIdx : nat),
    drop i queue = rest ->
    scanInv queue i bestIdx ->
    scanInv queue (length queue) (scan queue rest i bestIdx).
Proof.
  induction rest as [|item rest IH]; intros i bestIdx Hdrop Hinv; simpl.
  - assert (length queue <= i)%nat.
    { destruct (decide (length queue <= i)%nat) as [|Hlt]; [done|].
      apply (f_equal length) in Hdrop. rewrite length_drop in Hdrop.
      simpl in Hdrop. lia. }
    destruct Hinv as (best & Hb & Hle & Hlt). exists best.
    repeat split; [done | | done].
    intros j x Hj Hx. apply (Hle j x); [| done].
    apply lookup_lt_Some in Hx. lia.
  - assert (Hi : queue !! i = Some item).
    { rewrite <- (Nat.add_0_r i), <- lookup_drop, Hdrop. done. }
    assert (Hdrop' : drop (S i) queue = rest).
    { rewrite (drop_S queue item i Hi) in Hdrop. by simplify_eq. }
    destruct Hinv as (best & Hb & Hle & Hlt). rewrite Hb.
    apply IH; [done |].
    destruct (Z.gtb_spec (Prio item) (Prio best)) as [Hgt|Hngt].
    + exists item. repeat split; [done | |].
      * intros j x Hj Hx. destruct (decide (j = i)) as [->|Hne].
        -- simplify_eq. lia.
        -- specialize (Hle j x ltac:(lia) Hx). lia.
      * intros j x Hj Hx. specialize (Hle j x Hj Hx). lia.
    + exists best. repeat split; [done | | done].
      intros j x Hj Hx. destruct (decide (j = i)) as [->|Hne].
      * simplify_eq. lia.
      * apply (Hle j x); [lia | done].
Qed.

(** [bestIndex] is the first position holding a maximal priority. *)
Lemma bestIndex_first_max (queue : list SpeechRequest) :
  queue <> [] ->
  exists best,
    queue !! bestIndex queue = Some best
    /\ (forall x, x ∈ queue -> Prio x <= Prio best)
    /\ (forall j x, (j < bestIndex queue)%nat -> queue !! j = Some x ->
          Prio x < Prio best).
Proof.
  intros Hne. unfold bestIndex.
  destruct (scan_keeps_inv queue queue 0 0) as (best & Hb & Hle & Hlt).
  - done.
  - destruct queue as [|x0 queue']; [done |]. exists x0.
    repeat split; intros j x Hj; lia.
  - exists best. repeat split; [done | | done].
    intros x [j Hj]%list_elem_of_lookup.
    apply (Hle j x); [| done]. by eapply lookup_lt_Some.
Qed.

Lemma dequeue_spec (queue : list SpeechRequest) :
  queue <> [] ->
  exists item,
    queue !! bestIndex queue = Some item
    /\ dequeue queue = Some (item, delete (bestIndex queue) queue).
Proof.
  intros Hne. destruct (bestIndex_first_max queue Hne) as (item & Hb & _).
  exists item. split; [done |].
  unfold dequeue. destruct queue; [done |].
  rewrite Hb. by rewrite delete_take_drop.
Qed.

Lemma dequeue_nil : dequeue [] = None.
Proof. reflexivity. Qed.

(** The invariant of the reachable queues: in [QueuedAt] order, and no
    request stamped after the latest clock reading. *)
Lemma Queued_ordered (t : Time) (q : list SpeechRequest) :
  Queued t q ->
  StronglySorted byQueuedAt q /\ Forall (fun x => QueuedAt x <= t) q.
Proof.
  induction 1 as [t|t q text priority now Hq [IHs IHb] Hnow
                 |t q item q' Hq [IHs IHb] Hdq|t q Hq [IHs IHb]].
  - split; constructor.
  - assert (Hsub : sublist (if priority >=? PriorityNormal
                            then flushLowLocked q else q) q).
    { destruct (priority >=? PriorityNormal); [apply sublist_filter | done]. }
    unfold Say. split.
    + apply StronglySorted_app_2.
      * intros x1 x2 Hx1 ->%list_elem_of_singleton.
        unfold byQueuedAt. simpl.
        rewrite Forall_forall in IHb.
        specialize (IHb x1 (elem_of_sublist _ _ _ Hx1 Hsub)). lia.
      * by eapply StronglySorted_sublist.
      * repeat constructor.
    + apply Forall_app. split.
      * apply Forall_forall. intros x Hx. rewrite Forall_forall in IHb.
        specialize (IHb x (elem_of_sublist _ _ _ Hx Hsub)). lia.
      * repeat constructor. simpl. lia.
  - assert (Hne : q <> []) by (by destruct q).
    destruct (dequeue_spec q Hne) as (item' & _ & Heq).
    rewrite Heq in Hdq. simplify_eq. split.
    + eapply StronglySorted_sublist; [apply sublist_delete | done].
    + apply Forall_forall. intros x Hx. rewrite Forall_forall in IHb.
      apply IHb. eapply elem_of_sublist; [done | apply sublist_delete].
  - split; constructor.
Qed.

End MouthQueue.

Section MouthDrain.
Import Speech.

Lemma filter_none {A} (P : A -> Prop) `{!forall x, Decision (P x)} (l : list A) :
  (forall x, x ∈ l -> ~ P x) -> filter P l = [].
Proof.
  induction l as [|y l IH]; intros Hall; [done |].
  rewrite filter_cons_False by (apply Hall; left).
  apply IH. intros x Hx. apply Hall. by right.
Qed.

(** Before the position picked by the scan every priority is strictly
    smaller. *)
Lemma before_best_smaller (queue : list SpeechRequest) (item x : SpeechRequest) :
  queue <> [] ->
  queue !! bestIndex queue = Some item ->
  x ∈ take (bestIndex queue) queue -> Prio x < Prio item.
Proof.
  intros Hne Hitem [j Hj]%list_elem_of_lookup.
  destruct (bestIndex_first_max queue Hne) as (best & Hb & _ & Hlt).
  simplify_eq.
  assert (j < bestIndex queue)%nat.
  { apply lookup_lt_Some in Hj. rewrite length_take in Hj. lia. }
  apply (Hlt j x); [done |]. by rewrite lookup_take_lt in Hj.
Qed.

Lemma drainN_stable_sort (n : nat) : forall queue : list SpeechRequest,
  (length queue <= n)%nat ->
  drainN n queue ≡ₚ queue
  /\ StronglySorted byPriorityDesc (drainN n queue)
  /\ forall p, filter (fun x => Prio x = p) (drainN n queue)
               = filter (fun x => Prio x = p) queue.
Proof.
  induction n as [|n IH]; intros queue Hlen.
  - destruct queue; [| simpl in Hlen; lia].
    repeat split; constructor.
  - destruct (decide (queue = [])) as [->|Hne].
    { repeat split; constructor. }
    destruct (dequeue_spec queue Hne) as (item & Hitem & Hdq).
    destruct (bestIndex_first_max queue Hne) as (best & Hb & Hmax & _).
    simplify_eq. simpl. rewrite Hdq.
    set (b := bestIndex queue) in *.
    pose proof (delete_Permutation queue b item Hitem) as Hperm.
    destruct (IH (delete b queue)) as (IHp & IHs & IHf).
    { apply Permutation_length in Hperm. simpl in Hperm. lia. }
    repeat split.
    + rewrite IHp. symmetry. exact Hperm.
    + apply StronglySorted_cons. split; [| done].
      apply Forall_forall. intros y Hy. apply Hmax.
      assert (Hy' : y ∈ item :: delete b queue)
        by (right; by rewrite <- IHp).
      eapply elem_of_Permutation_proper; [exact Hperm | exact Hy'].
    + intros p.
      rewrite <- (take_drop_middle queue b item Hitem) at 2.
      rewrite filter_app, !filter_cons, IHf, delete_take_drop, filter_app.
      destruct (decide (Prio item = p)) as [Hp|Hp]; [| done].
      rewrite (filter_none _ (take b queue)); [done |].
      intros x Hx. pose proof (before_best_smaller queue item x Hne Hitem Hx).
      lia.
Qed.

(** C7: in every queue the Mouth can hold, [dequeue] removes one request
    (the others stay, in their order); it has maximal priority among the
    queued ones and the earliest [QueuedAt] among those of its priority.
    Hence [drain] processes every queued request, in descending order of
    priority, and within each priority in the order of the queue, which is
    the order of [QueuedAt]. *)
Theorem dequeue_highest_priority_fifo (t : Time) (q : list SpeechRequest) :
  Queued t q ->
  q <> [] ->
  (exists item q',
     dequeue q = Some (item, q')
     /\ q ≡ₚ item :: q'
     /\ sublist q' q
     /\ (forall x, x ∈ q -> Prio x <= Prio item)
     /\ (forall x, x ∈ q -> Prio x = Prio item ->
           QueuedAt item <= QueuedAt x))
  /\ drain q ≡ₚ q
  /\ StronglySorted byPriorityDesc (drain q)
  /\ (forall p, filter (fun x => Prio x = p) (drain q)
               = filter (fun x => Prio x = p) q)
  /\ (forall p, StronglySorted byQueuedAt
                  (filter (fun x => Prio x = p) (drain q))).
Proof.
  intros Hq Hne. destruct (Queued_ordered t q Hq) as [Hsorted _].
  destruct (drainN_stable_sort (length q) q ltac:(lia)) as (Hp & Hs & Hf).
  split; [| repeat split; try done].
  - destruct (dequeue_spec q Hne) as (item & Hitem & Hdq).
    destruct (bestIndex_first_max q Hne) as (best & Hb & Hmax & _).
    simplify_eq. exists item, (delete (bestIndex q) q).
    repeat split; [done | by apply delete_Permutation | apply sublist_delete
                  | done |].
    intros x Hx Hprio.
    rewrite <- (take_drop_middle q (bestIndex q) item Hitem) in Hx, Hsorted.
    apply elem_of_app in Hx as [Hx|Hx].
    + pose proof (before_best_smaller q item x Hne Hitem Hx). lia.
    + apply StronglySorted_app_1_r, StronglySorted_cons in Hsorted
        as [Hall _].
      apply elem_of_cons in Hx as [->|Hx]; [lia |].
      rewrite Forall_forall in Hall. by apply Hall.
  - intros p. unfold drain. rewrite Hf.
    eapply StronglySorted_sublist; [apply sublist_filter | done].
Qed.

End MouthDrain.

Lemma dequeue_highest_priority_fifo_witness :
  StronglySorted Speech.byPriorityDesc (Speech.drain sampleQueue)
  /\ (Speech.Text <$> Speech.drain sampleQueue)
     = ["timer is up"; "step one"; "step two"]%string.
Proof.
  split; [| vm_compute; reflexivity].
  apply (dequeue_highest_priority_fifo 30 sampleQueue).
  - unfold sampleQueue.
    apply (Speech.Queued_say 20); [| lia].
    apply (Speech.Queued_say 10); [| lia].
    apply (Speech.Queued_say 0); [apply Speech.Queued_new | lia].
  - vm_compute. discriminate.
Defined.

(** ** Advancing a session *)

(** X30: on a stored session that is not active, [Advance] fails with
    [ErrSessionNotActive] and leaves the engine as it was.  On an active
    session whose recipe is in the source, whose current index is not
    negative and whose current step has a step state, it marks the current
    step done with [CompletedAt = now]; when the next index is past the end
    of the recipe's steps it sets the status to completed, leaves every
    timer as it was and returns [ErrNoMoreSteps]; otherwise, provided the
    next step has a step state, it makes the next step the current one,
    active with [StartedAt = now], returns it, stores a pending timer for
    it when it has a timer config, and leaves every timer stored under
    another ID exactly as it was. *)
Theorem Advance_spec (e : Engine.Engine) (now : Time) (sessionID : string)
    (session : Session) :
  Engine.store e !! sessionID = Some session ->
  (sessStatus session <> SessionActive ->
     Engine.Advance e now sessionID = (Fail ErrSessionNotActive, e))
  /\ (sessStatus session = SessionActive ->
      forall (recipe : Recipe) (current : StepState),
      Engine.recipes e !! sessRecipeID session = Some recipe ->
      0 <= sessCurrentStepIndex session < maxInt64 ->
      sessStepStates session !! sessCurrentStepIndex session = Some current ->
      let cur := sessCurrentStepIndex session in
      let finished := {| ssStatus := StepDone;
                         ssStartedAt := ssStartedAt current;
                         ssCompletedAt := now |} in
      (len (recipeSteps recipe) <= cur + 1 ->
         exists session',
           Engine.Advance e now sessionID
           = (Fail ErrNoMoreSteps,
              Engine.withStore e
                (<[sessID session' := session']>
                   (<[sessionID := session']> (Engine.store e))))
           /\ sessStatus session' = SessionCompleted
           /\ sessUpdatedAt session' = now
           /\ sessCurrentStepIndex session' = cur
           /\ sessStepStates session' = <[cur := finished]> (sessStepStates session)
           /\ sessTimerStates session' = sessTimerStates session)
      /\ (cur + 1 < len (recipeSteps recipe) ->
          forall next : StepState,
          sessStepStates session !! (cur + 1) = Some next ->
          exists (step : Step) (session' : Session),
            index (recipeSteps recipe) (cur + 1) = Some step
            /\ Engine.Advance e now sessionID
               = (Return step,
                  Engine.withStore e
                    (<[sessID session' := session']>
                       (<[sessionID := session']> (Engine.store e))))
            /\ sessStatus session' = SessionActive
            /\ sessUpdatedAt session' = now
            /\ sessCurrentStepIndex session' = cur + 1
            /\ sessStepStates session'
               = <[cur + 1 := {| ssStatus := StepActive; ssStartedAt := now;
                                 ssCompletedAt := ssCompletedAt next |}]>
                   (<[cur := finished]> (sessStepStates session))
            /\ sessTimerStates session'
               = match stepTimerConfig step with
                 | None => sessTimerStates session
                 | Some cfg =>
                     <[Engine.timerIDOf (stepID step) :=
                         {| tsID := Engine.timerIDOf (stepID step);
                            tsStepID := stepID step;
                            tsLabel := tcLabel cfg;
                            tsDuration := tcDuration cfg;
                            tsRemaining := tcDuration cfg;
                            tsStatus := TimerPending;
                            tsLastNotified := 0;
                            tsLastRemindedAt := 0;
                            tsWarnedAlmost := false;
                            tsEscalationLevel := 0 |}]>
                       (sessTimerStates session)
                 end
            /\ (forall tid, tid <> Engine.timerIDOf (stepID step) ->
                  sessTimerStates session' !! tid
                  = sessTimerStates session !! tid))).
Proof.
  intros Hload. split.
  - intros Hst. unfold Engine.Advance, Engine.leaveStep, Storage.Load.
    rewrite Hload. by rewrite bool_decide_eq_false_2.
  - intros Hst recipe current Hrec Hcur Hstate cur finished.
    assert (Hnext : wrap64 (cur + 1) = cur + 1).
    { apply wrap64_id. unfold inInt64, minInt64, maxInt64 in *.
      subst cur. lia. }
    split.
    + intros Hend. eexists.
      unfold Engine.Advance, Engine.leaveStep, Storage.Load, Engine.recipesGet.
      rewrite Hload, Hrec, bool_decide_eq_true_2 by done. cbn [negb].
      rewrite Hstate. fold cur. rewrite Hnext.
      destruct (Z.geb_spec (cur + 1) (len (recipeSteps recipe))); [| lia].
      unfold Storage.Save, Storage.poke.
      split; [reflexivity |]. repeat split.
    + intros Hin next Hnextst.
      destruct (index_Some_lt (recipeSteps recipe) (cur + 1)) as [step Hstep].
      { subst cur. lia. }
      exists step. eexists. split; [done |].
      unfold Engine.Advance, Engine.leaveStep, Storage.Load, Engine.recipesGet.
      rewrite Hload, Hrec, bool_decide_eq_true_2 by done. cbn [negb].
      rewrite Hstate. fold cur. rewrite Hnext.
      destruct (Z.geb_spec (cur + 1) (len (recipeSteps recipe))); [lia |].
      cbn [sessStepStates setCurrentStepIndex setStepStates].
      rewrite lookup_insert_ne by lia. fold cur in Hnextst. rewrite Hnextst.
      rewrite Hstep.
      unfold Storage.Save, Storage.poke, Engine.maybeStartTimer.
      split; [reflexivity |].
      destruct (stepTimerConfig step) as [cfg|]; cbn; repeat split; try done.
      intros tid Hne. by rewrite lookup_insert_ne.
Qed.

Lemma Advance_spec_witness :
  exists (step : Step) (session' : Session),
    (Engine.Advance engineStarted 200 "abc").1 = Return step
    /\ Engine.store (Engine.Advance engineStarted 200 "abc").2 !! "abc"
       = Some session'
    /\ sessCurrentStepIndex session' = 1.
Proof.
  edestruct (Advance_spec engineStarted 200 "abc") as [_ H].
  { vm_compute. reflexivity. }
  edestruct (H ltac:(vm_compute; reflexivity)
               (sampleRecipe "pasta" pastaSteps)
               {| ssStatus := StepActive; ssStartedAt := 100;
                  ssCompletedAt := 0 |}) as [_ Hadv].
  { vm_compute. reflexivity. }
  { vm_compute. split; [discriminate | reflexivity]. }
  { vm_compute. reflexivity. }
  edestruct Hadv as (step & session' & _ & Hres & _ & _ & Hidx & _).
  { vm_compute. reflexivity. }
  { vm_compute. reflexivity. }
  exists step, session'. rewrite Hres. repeat split.
  - cbn. rewrite lookup_insert. case_decide; [done |].
    apply lookup_insert_eq.
  - exact Hidx.
Defined.

(** ** Invariants of the reachable engines *)

Section Invariants.
Import System.

Lemma timers_fmap_inv (st st' : SessionStatus) (f : TimerState -> TimerState)
    (timers : gmap string TimerState) :
  (forall ts, timerInv st ts -> timerInv st' (f ts)) ->
  (forall tid ts, timers !! tid = Some ts -> timerInv st ts) ->
  forall tid ts, (f <$> timers) !! tid = Some ts -> timerInv st' ts.
Proof.
  intros Hf Hall tid ts. rewrite lookup_fmap.
  destruct (timers !! tid) as [ts0|] eqn:Hts; [| done].
  intros [= <-]. apply Hf. by eapply Hall.
Qed.

Lemma pauseTimer_inv (st : SessionStatus) (ts : TimerState) :
  timerInv st ts -> timerInv SessionPaused (Engine.pauseTimer ts).
Proof.
  unfold timerInv, Engine.pauseTimer. intros (H1 & H2 & H3).
  case_bool_decide as Hs; simpl; [rewrite Hs in *|]; intuition congruence.
Qed.

Lemma resumeTimer_inv (st : SessionStatus) (ts : TimerState) :
  timerInv st ts -> timerInv SessionActive (Engine.resumeTimer ts).
Proof.
  unfold timerInv, Engine.resumeTimer. intros (H1 & H2 & H3).
  case_bool_decide as Hs; simpl; [rewrite Hs in *|]; intuition congruence.
Qed.

Lemma startTimer_inv (st : SessionStatus) (ts : TimerState) :
  timerInv st ts -> timerInv st (Engine.startTimer ts).
Proof.
  unfold timerInv, Engine.startTimer. intros (H1 & H2 & H3).
  case_bool_decide as Hs; simpl; [rewrite Hs in *|]; intuition congruence.
Qed.

Lemma dismiss_inv (st : SessionStatus) (ts : TimerState) :
  timerInv st ts -> timerInv st (setTimerStatus TimerDismissed ts).
Proof. unfold timerInv. simpl. intuition congruence. Qed.

Lemma timerInv_abandon (st : SessionStatus) (ts : TimerState) :
  timerInv st ts -> timerInv SessionAbandoned ts.
Proof. unfold timerInv. intuition congruence. Qed.

(** In an active session no timer is paused, so the invariant does not
    depend on the status the session takes next. *)
Lemma timerInv_from_active (st' : SessionStatus) (ts : TimerState) :
  timerInv SessionActive ts -> timerInv st' ts.
Proof. unfold timerInv. intuition congruence. Qed.

Lemma countdown_inv (s : Timer.Supervisor) (now : Time) (st : SessionStatus)
    (ts : TimerState) :
  timerInv st ts -> timerInv st (Timer.vTimer (Timer.countdown s now ts)).
Proof.
  unfold timerInv, Timer.countdown. intros (H1 & H2 & H3).
  case_bool_decide as Hs; simpl; [| done].
  repeat (case_match; simpl); rewrite ?Hs; intuition congruence.
Qed.

Lemma followUp_inv (s : Timer.Supervisor) (now : Time) (st : SessionStatus)
    (ts : TimerState) :
  timerInv st ts -> timerInv st (Timer.vTimer (Timer.followUp s now ts)).
Proof.
  unfold timerInv, Timer.followUp. intros (H1 & H2 & H3).
  case_bool_decide as Hs; simpl; [| done].
  repeat (case_match; simpl); rewrite ?Hs; intuition congruence.
Qed.

Lemma processSession_inv (s : Timer.Supervisor) (now : Time)
    (session : Session) :
  sessInv session ->
  sessInv (Timer.pSession (Timer.processSession s now session))
  /\ sessID (Timer.pSession (Timer.processSession s now session))
     = sessID session
  /\ sessStatus (Timer.pSession (Timer.processSession s now session))
     = sessStatus session.
Proof.
  intros Hinv. unfold Timer.processSession.
  case_bool_decide; cbn [negb Timer.pSession]; [| done].
  split; [| done]. unfold sessInv.
  cbn [sessTimerStates sessStatus setTimerStates].
  intros tid ts. rewrite <- !map_fmap_compose. revert tid ts.
  eapply timers_fmap_inv; [| exact Hinv].
  intros ts Hts. cbn [compose]. by apply followUp_inv, countdown_inv.
Qed.

End Invariants.

Section StoreInvariant.
Import System.

Lemma storeInv_poke (st : gmap string Session) (sid : string) (s' : Session) :
  storeInv st -> sessID s' = sid -> sessInv s' ->
  storeInv (Storage.poke st sid s').
Proof.
  intros Hst Hid Hinv k s. unfold Storage.poke. rewrite lookup_insert.
  case_decide; [intros [= <-]; by subst | apply Hst].
Qed.

Lemma storeInv_put (st : gmap string Session) (sid : string) (s' : Session) :
  storeInv st -> sessID s' = sid -> sessInv s' ->
  storeInv (Storage.Save (Storage.poke st sid s') s').
Proof.
  intros Hst Hid Hinv. unfold Storage.Save.
  apply (storeInv_poke _ (sessID s') s'); [| done | done].
  by apply storeInv_poke.
Qed.

Lemma sessInv_retimed (s s' : Session) :
  sessTimerStates s' = sessTimerStates s ->
  (forall ts, timerInv (sessStatus s) ts -> timerInv (sessStatus s') ts) ->
  sessInv s -> sessInv s'.
Proof.
  intros Ht Hst Hinv tid ts. rewrite Ht. intros Hts. by eapply Hst, Hinv.
Qed.

Lemma maybeStartTimer_inv (s : Session) (step : Step) :
  sessInv s -> sessInv (Engine.maybeStartTimer s step).
Proof.
  intros Hinv. unfold Engine.maybeStartTimer.
  destruct (stepTimerConfig step) as [cfg|]; [| done].
  intros tid ts. cbn [sessTimerStates sessStatus setTimerStates].
  rewrite lookup_insert. case_decide; [| apply Hinv].
  intros [= <-]. unfold timerInv. simpl. intuition congruence.
Qed.

Lemma maybeStartTimer_id (s : Session) (step : Step) :
  sessID (Engine.maybeStartTimer s step) = sessID s.
Proof.
  unfold Engine.maybeStartTimer. by destruct (stepTimerConfig step).
Qed.

Lemma StartSession_inv e newID t1 t2 t3 rid n :
  storeInv (Engine.store e) ->
  storeInv (Engine.store (Engine.StartSession e newID t1 t2 t3 rid n).2).
Proof.
  intros Hst. unfold Engine.StartSession, Engine.recipesGet.
  destruct (Engine.recipes e !! rid) as [recipe|]; [| done].
  cbn [sessStepStates].
  destruct (Engine.initStepStates (recipeSteps recipe) !! 0); [| done].
  destruct (index (recipeSteps recipe) 0) as [step0|]; [| done].
  cbn [snd Engine.store Engine.withStore].
  unfold Storage.Save.
  apply storeInv_poke; [done | done |].
  apply maybeStartTimer_inv. intros tid ts. cbn. by rewrite lookup_empty.
Qed.

Lemma leaveStep_inv final e now sid :
  storeInv (Engine.store e) ->
  storeInv (Engine.store (Engine.leaveStep final e now sid).2).
Proof.
  intros Hst. unfold Engine.leaveStep, Storage.Load.
  destruct (Engine.store e !! sid) as [s|] eqn:Hs; [| done].
  destruct (Hst sid s Hs) as [Hid Hinv].
  case_bool_decide as Hact; cbn [negb]; [| done].
  unfold Engine.recipesGet.
  repeat (case_match; try done); cbn [snd Engine.store Engine.withStore].
  - apply storeInv_put; [done | done |].
    eapply sessInv_retimed; [| | exact Hinv]; [done |].
    rewrite Hact. apply timerInv_from_active.
  - apply storeInv_put; [done | by rewrite maybeStartTimer_id |].
    apply maybeStartTimer_inv. by eapply sessInv_retimed; [| | exact Hinv].
  - apply storeInv_poke; [done | done |].
    by eapply sessInv_retimed; [| | exact Hinv].
  - apply storeInv_poke; [done | done |].
    by eapply sessInv_retimed; [| | exact Hinv].
Qed.

Lemma Pause_inv e now sid :
  storeInv (Engine.store e) ->
  storeInv (Engine.store (Engine.Pause e now sid).2).
Proof.
  intros Hst. unfold Engine.Pause, Storage.Load.
  destruct (Engine.store e !! sid) as [s|] eqn:Hs; [| done].
  destruct (Hst sid s Hs) as [Hid Hinv].
  case_bool_decide as Hact; cbn [negb]; [| done].
  cbn [snd Engine.store Engine.withStore].
  apply storeInv_put; [done | done |]. unfold sessInv.
  cbn [sessTimerStates sessStatus setTimerStates setUpdatedAt setStatus].
  eapply timers_fmap_inv; [apply pauseTimer_inv | exact Hinv].
Qed.

Lemma Resume_inv e now sid :
  storeInv (Engine.store e) ->
  storeInv (Engine.store (Engine.Resume e now sid).2).
Proof.
  intros Hst. unfold Engine.Resume, Storage.Load.
  destruct (Engine.store e !! sid) as [s|] eqn:Hs; [| done].
  destruct (Hst sid s Hs) as [Hid Hinv].
  case_bool_decide as Hact; cbn [negb]; [| done].
  cbn [snd Engine.store Engine.withStore].
  apply storeInv_put; [done | done |]. unfold sessInv.
  cbn [sessTimerStates sessStatus setTimerStates setUpdatedAt setStatus].
  eapply timers_fmap_inv; [apply resumeTimer_inv | exact Hinv].
Qed.

Lemma Abandon_inv e now sid :
  storeInv (Engine.store e) ->
  storeInv (Engine.store (Engine.Abandon e now sid).2).
Proof.
  intros Hst. unfold Engine.Abandon, Storage.Load.
  destruct (Engine.store e !! sid) as [s|] eqn:Hs; [| done].
  destruct (Hst sid s Hs) as [Hid Hinv].
  cbn [snd Engine.store Engine.withStore].
  apply storeInv_put; [done | done |].
  eapply sessInv_retimed; [| | exact Hinv]; [done |].
  intros ts. apply timerInv_abandon.
Qed.

Lemma StartPendingTimers_inv e now sid :
  storeInv (Engine.store e) ->
  storeInv (Engine.store (Engine.StartPendingTimers e now sid).2).
Proof.
  intros Hst. unfold Engine.StartPendingTimers, Storage.Load.
  destruct (Engine.store e !! sid) as [s|] eqn:Hs; [| done].
  destruct (Hst sid s Hs) as [Hid Hinv].
  assert (Hstarted : forall tid ts,
            (Engine.startTimer <$> sessTimerStates s) !! tid = Some ts ->
            timerInv (sessStatus s) ts).
  { eapply timers_fmap_inv; [apply startTimer_inv | exact Hinv]. }
  case_match; cbn [snd Engine.store Engine.withStore].
  - by apply storeInv_put.
  - by apply storeInv_poke.
Qed.

Lemma DismissTimer_inv e now sid tid :
  storeInv (Engine.store e) ->
  storeInv (Engine.store (Engine.DismissTimer e now sid tid).2).
Proof.
  intros Hst. unfold Engine.DismissTimer, Storage.Load.
  destruct (Engine.store e !! sid) as [s|] eqn:Hs; [| done].
  destruct (Hst sid s Hs) as [Hid Hinv].
  destruct (sessTimerStates s !! tid) as [ts|] eqn:Hts; [| done].
  case_match; [done |]. cbn [snd Engine.store Engine.withStore].
  apply storeInv_put; [done | done |].
  intros k ts'.
  cbn [sessTimerStates sessStatus setTimerStates setUpdatedAt].
  rewrite lookup_insert. destruct (decide (tid = k)); [| exact (Hinv k ts')].
  intros [= <-]. apply dismiss_inv. by eapply Hinv.
Qed.

Lemma tick_inv s now (st : gmap string Session) :
  storeInv st -> storeInv (Timer.tick s now st).1.
Proof.
  intros Hst sid session. unfold Timer.tick. cbn [fst].
  rewrite lookup_fmap.
  destruct (st !! sid) as [s0|] eqn:Hs; [| done].
  destruct (Hst sid s0 Hs) as [Hid Hinv]. intros [= <-].
  unfold Timer.tickSession. case_match; [| done].
  destruct (processSession_inv s now s0 Hinv) as (H1 & H2 & _).
  by rewrite H2.
Qed.

Lemma exec_inv (op : Op) (e e' : Engine.Engine) :
  storeInv (Engine.store e) -> exec op e = Some e' ->
  storeInv (Engine.store e').
Proof.
  intros Hst. destruct op; cbn [exec]; unfold after;
    try (match goal with
         | |- match fst ?r with _ => _ end = Some _ -> _ => destruct (fst r)
         end);
    intros [= <-].
  all: try (by apply StartSession_inv).
  all: try (by apply leaveStep_inv).
  all: try (by apply Pause_inv).
  all: try (by apply Resume_inv).
  all: try (by apply Abandon_inv).
  all: try (by apply StartPendingTimers_inv).
  all: try (by apply DismissTimer_inv).
  all: try (unfold Engine.UpdateRecipe; by case_match).
  all: try (unfold mutateRecipe; by case_match).
  cbn [Engine.store Engine.withStore]. by apply tick_inv.
Qed.

(** Every reachable engine keeps each session under its own ID, fired
    timers at zero, paused timers out of active sessions, and timers that
    have not fired at escalation level 0. *)
Lemma Reachable_storeInv (e : Engine.Engine) :
  Reachable e -> storeInv (Engine.store e).
Proof.
  induction 1 as [rs d|e op e' Hr IH Hexec].
  - intros sid s. cbn. by rewrite lookup_empty.
  - by eapply exec_inv.
Qed.

End StoreInvariant.

(** ** Pause and resume *)

Section PauseResume.
Import System.

Lemma put_lookup (st : gmap string Session) (sid : string) (s' : Session) :
  Storage.Save (Storage.poke st sid s') s' !! sid = Some s'.
Proof.
  unfold Storage.Save, Storage.poke. rewrite lookup_insert.
  case_decide; [done | apply lookup_insert_eq].
Qed.

Lemma resume_pause_timer (ts : TimerState) :
  tsStatus ts <> TimerPaused ->
  Engine.resumeTimer (Engine.pauseTimer ts) = ts.
Proof.
  intros Hne. unfold Engine.pauseTimer.
  case_bool_decide as Hrun.
  - unfold Engine.resumeTimer. simpl.
    destruct ts. simpl in *. by subst.
  - unfold Engine.resumeTimer. by rewrite bool_decide_eq_false_2.
Qed.

Lemma Reachable_engines : Reachable engineStarted /\ Reachable engineRunning
                          /\ Reachable engineDismissed.
Proof.
  assert (H0 : Reachable engine0) by apply Reachable_new.
  assert (H1 : Reachable engineStarted).
  { apply (Reachable_exec engine0
             (OpStartSession "abc" 100 100 100 "pasta" 0)); [done |].
    vm_compute. reflexivity. }
  assert (H2 : Reachable engineRunning).
  { apply (Reachable_exec engineStarted (OpStartPendingTimers 110 "abc"));
      [done |]. vm_compute. reflexivity. }
  repeat split; [done | done |].
  apply (Reachable_exec engineRunning (OpDismissTimer 120 "abc" "timer-s1"));
    [done |]. vm_compute. reflexivity.
Qed.

(** C3: on an active session of a reachable engine, [Pause] succeeds, sets
    the session paused and turns exactly the running timers to paused;
    [Resume] right after succeeds, sets the session active and turns
    exactly the paused timers to running; neither changes a timer's
    remaining time, and after the two every timer is what it was before
    the pause. *)
Theorem Pause_Resume_restores (e : Engine.Engine) (t1 t2 : Time)
    (sid : string) (session : Session) :
  Reachable e ->
  Engine.store e !! sid = Some session ->
  sessStatus session = SessionActive ->
  let paused := Engine.Pause e t1 sid in
  let resumed := Engine.Resume paused.2 t2 sid in
  exists s1 s2,
    paused.1 = Return tt
    /\ Engine.store paused.2 !! sid = Some s1
    /\ sessStatus s1 = SessionPaused
    /\ (forall tid, sessTimerStates session !! tid = None ->
                    sessTimerStates s1 !! tid = None)
    /\ (forall tid ts, sessTimerStates session !! tid = Some ts ->
          exists ts1,
            sessTimerStates s1 !! tid = Some ts1
            /\ tsRemaining ts1 = tsRemaining ts
            /\ (tsStatus ts = TimerRunning -> tsStatus ts1 = TimerPaused)
            /\ (tsStatus ts <> TimerRunning -> ts1 = ts))
    /\ resumed.1 = Return s2
    /\ Engine.store resumed.2 !! sid = Some s2
    /\ sessStatus s2 = SessionActive
    /\ (forall tid ts1, sessTimerStates s1 !! tid = Some ts1 ->
          exists ts2,
            sessTimerStates s2 !! tid = Some ts2
            /\ tsRemaining ts2 = tsRemaining ts1
            /\ (tsStatus ts1 = TimerPaused -> tsStatus ts2 = TimerRunning)
            /\ (tsStatus ts1 <> TimerPaused -> ts2 = ts1))
    /\ sessTimerStates s2 = sessTimerStates session.
Proof.
  intros Hreach Hload Hact paused resumed.
  destruct (Reachable_storeInv e Hreach sid session Hload) as [Hid Hinv].
  set (s1 := setTimerStates (Engine.pauseTimer <$> sessTimerStates session)
               (setUpdatedAt t1 (setStatus SessionPaused session))).
  assert (Hp : paused = (Return tt,
                Engine.withStore e
                  (Storage.Save (Storage.poke (Engine.store e) sid s1) s1))).
  { unfold paused, Engine.Pause, Storage.Load.
    rewrite Hload, bool_decide_eq_true_2 by done. reflexivity. }
  assert (Hl1 : Engine.store paused.2 !! sid = Some s1).
  { rewrite Hp. apply put_lookup. }
  set (s2 := setTimerStates (Engine.resumeTimer <$> sessTimerStates s1)
               (setUpdatedAt t2 (setStatus SessionActive s1))).
  assert (Hr : resumed = (Return s2,
                Engine.withStore paused.2
                  (Storage.Save (Storage.poke (Engine.store paused.2) sid s2)
                                s2))).
  { unfold resumed, Engine.Resume, Storage.Load.
    rewrite Hl1, bool_decide_eq_true_2 by done. reflexivity. }
  exists s1, s2. rewrite Hr, Hp. cbn [fst snd Engine.store Engine.withStore].
  split; [done |]. split; [apply put_lookup |]. split; [done |].
  split.
  { intros tid Hnone. subst s1. cbn. by rewrite lookup_fmap, Hnone. }
  split.
  { intros tid ts Hts. exists (Engine.pauseTimer ts). subst s1. cbn.
    rewrite lookup_fmap, Hts. split; [done |].
    unfold Engine.pauseTimer. case_bool_decide; simpl; by repeat split. }
  split; [done |]. split; [apply put_lookup |]. split; [done |].
  split.
  { intros tid ts1 Hts. exists (Engine.resumeTimer ts1). subst s2. cbn.
    rewrite lookup_fmap. cbn in Hts. rewrite Hts. split; [done |].
    unfold Engine.resumeTimer. case_bool_decide; simpl; by repeat split. }
  subst s2 s1. cbn. apply map_eq. intros tid.
  rewrite !lookup_fmap.
  destruct (sessTimerStates session !! tid) as [ts|] eqn:Hts; [| done].
  simpl. f_equal. apply resume_pause_timer.
  intros Hpaused. destruct (Hinv tid ts Hts) as (_ & H2 & _).
  rewrite Hact in H2. destruct (H2 Hpaused); discriminate.
Qed.

Lemma Pause_Resume_restores_witness :
  exists s2,
    (Engine.Resume (Engine.Pause engineRunning 130 "abc").2 140 "abc").1
    = Return s2
    /\ sessTimerStates s2 !! "timer-s1"
       = Some (setTimerStatus TimerRunning
                 (sampleTimer "Pasta" (3 * Second) TimerPending 0)).
Proof.
  edestruct (Pause_Resume_restores engineRunning 130 140 "abc")
    as (s1 & s2 & _ & _ & _ & _ & _ & Hres & _ & _ & _ & Hsame).
  - apply Reachable_engines.
  - vm_compute. reflexivity.
  - vm_compute. reflexivity.
  - exists s2. split; [exact Hres |]. rewrite Hsame.
    vm_compute. reflexivity.
Defined.

End PauseResume.

(** ** Remaining time of fired and dismissed timers *)

Section Remaining.
Import System.




End Remaining.

(** ** The supervisor, timer by timer *)

Section PerTimer.
Import Timer.

Lemma filter_tagged (k k' : string) (ns : list Notification) :
  filter (fun x : string * Notification => x.1 = k)
         ((fun n => (k', n)) <$> ns)
  = if decide (k' = k) then (fun n => (k', n)) <$> ns else [].
Proof.
  induction ns as [|n ns IH].
  - by case_decide.
  - rewrite fmap_cons, filter_cons, IH. cbn [fst].
    destruct (decide (k' = k)); done.
Qed.

Lemma notes_of_key {V} (f : V -> list Notification) (l : list (string * V))
    (k : string) (v : V) :
  NoDup (l.*1) -> (k, v) ∈ l ->
  filter (fun x : string * Notification => x.1 = k)
         (flat_map (fun kv => (fun n => (kv.1, n)) <$> f kv.2) l)
  = (fun n => (k, n)) <$> f v.
Proof.
  induction l as [|[k' v'] l IH]; intros Hnd Hin.
  - by apply elem_of_nil in Hin.
  - simpl in *. apply NoDup_cons in Hnd as [Hfresh Hnd].
    rewrite filter_app, filter_tagged.
    assert (Hrest : forall w, (k', w) ∈ l -> False).
    { intros w Hw. apply Hfresh. apply list_elem_of_fmap.
      by exists (k', w). }
    apply elem_of_cons in Hin as [Heq|Hin].
    + simplify_eq. rewrite decide_True by done.
      assert (Hnone : filter (fun x : string * Notification => x.1 = k')
                (flat_map (fun kv => (fun n => (kv.1, n)) <$> f kv.2) l) = []).
      { clear IH Hnd. induction l as [|[k2 v2] l IHl]; [done |].
        simpl. rewrite filter_app, filter_tagged.
        rewrite decide_False.
        - apply IHl.
          + intros Hk. apply Hfresh. simpl. by right.
          + intros w Hw. apply (Hrest w). by right.
        - intros ->. apply (Hrest v2). by left. }
      by rewrite Hnone, app_nil_r.
    + rewrite decide_False.
      * by apply IH.
      * intros ->. by apply (Hrest v).
Qed.

Lemma loopNotes_of_key (visited : gmap string Visit) (k : string) (v : Visit) :
  visited !! k = Some v ->
  filter (fun x : string * Notification => x.1 = k) (loopNotes visited)
  = (fun n => (k, n)) <$> vNotes v.
Proof.
  intros Hk. unfold loopNotes.
  apply (notes_of_key vNotes (map_to_list visited) k v).
  - apply NoDup_fst_map_to_list.
  - by apply elem_of_map_to_list.
Qed.

(** On an active session [processSession] applies [visit] to every timer,
    keeps the status of the session, and the notifier calls it makes for a
    timer are those of [visitNotes]. *)
Lemma processSession_active (s : Supervisor) (now : Time) (session : Session) :
  sessStatus session = SessionActive ->
  sessTimerStates (pSession (processSession s now session))
  = visit s now <$> sessTimerStates session
  /\ sessStatus (pSession (processSession s now session)) = SessionActive
  /\ forall tid ts, sessTimerStates session !! tid = Some ts ->
       filter (fun x : string * Notification => x.1 = tid)
              (pNotes (processSession s now session))
       = (fun n => (tid, n)) <$> visitNotes s now ts.
Proof.
  intros Hact. unfold processSession.
  rewrite bool_decide_eq_true_2 by done.
  cbn [negb pSession pNotes sessTimerStates sessStatus setTimerStates].
  split; [| split; [done |]].
  - rewrite <- !map_fmap_compose. done.
  - intros tid ts Hts. rewrite filter_app.
    rewrite (loopNotes_of_key _ tid (countdown s now ts))
      by (by rewrite lookup_fmap, Hts).
    rewrite (loopNotes_of_key _ tid
               (followUp s now (vTimer (countdown s now ts))))
      by (by rewrite !lookup_fmap, Hts).
    unfold visitNotes. by rewrite fmap_app.
Qed.

Lemma notesFor_app {T} (key : string)
    (l1 l2 : list (T * (string * Notification))) :
  notesFor key (l1 ++ l2) = notesFor key l1 ++ notesFor key l2.
Proof. unfold notesFor. by rewrite filter_app, fmap_app. Qed.

Lemma notesFor_stamped (key : string) (now : Time)
    (ns : list (string * Notification)) :
  notesFor key ((fun n => (now, n)) <$> ns)
  = (fun n => (now, n.2))
      <$> filter (fun x : string * Notification => x.1 = key) ns.
Proof.
  unfold notesFor. induction ns as [|n ns IH]; [done |].
  rewrite fmap_cons, !filter_cons. cbn [fst snd].
  destruct (decide (n.1 = key)); [| exact IH].
  rewrite !fmap_cons. cbn [fst snd]. f_equal. exact IH.
Qed.

(** [ticks] seen from one timer of an active session. *)
Lemma ticks_timer (s : Supervisor) (nows : list Time) :
  forall (session : Session) (tid : string) (ts : TimerState),
    sessStatus session = SessionActive ->
    sessTimerStates session !! tid = Some ts ->
    sessTimerStates (ticks s nows session).1 !! tid
    = Some (visits s nows ts).1
    /\ notesFor tid (ticks s nows session).2 = (visits s nows ts).2
    /\ sessStatus (ticks s nows session).1 = SessionActive.
Proof.
  induction nows as [|now rest IH]; intros session tid ts Hact Hts.
  - by repeat split.
  - destruct (processSession_active s now session Hact) as (Ht & Hst & Hn).
    destruct (IH (pSession (processSession s now session)) tid
                 (visit s now ts) Hst) as (IH1 & IH2 & IH3).
    { by rewrite Ht, lookup_fmap, Hts. }
    cbn [ticks visits fst snd]. split; [done |]. split; [| done].
    rewrite notesFor_app, notesFor_stamped, (Hn tid ts Hts), IH2.
    f_equal. rewrite <- !list_fmap_compose. done.
Qed.

End PerTimer.

(** ** Countdown and firing *)

Section Countdown.
Import Timer.

Variable s : Supervisor.
Hypothesis tick_pos : 0 < tickInterval s <= maxInt64.
Hypothesis cooldown_pos : 0 < notifyCooldown s.
Hypothesis escalation_bounded : maxEscalation s < maxInt64.

Lemma Sub_self (now : Time) : Sub now now = 0.
Proof. unfold Sub, minInt64, maxInt64. lia. Qed.

(** A running timer whose remaining time outlasts the tick keeps running. *)
Lemma countdown_keeps_running (now : Time) (ts : TimerState) :
  tsStatus ts = TimerRunning ->
  0 <= tsRemaining ts <= maxInt64 ->
  0 < tsRemaining ts - tickInterval s ->
  let v := countdown s now ts in
  tsStatus (vTimer v) = TimerRunning
  /\ tsRemaining (vTimer v) = tsRemaining ts - tickInterval s
  /\ tsEscalationLevel (vTimer v) = tsEscalationLevel ts
  /\ Forall (fun n => ntUrgent n = false) (vNotes v).
Proof.
  intros Hrun Hrem Hleft. unfold countdown.
  rewrite bool_decide_eq_true_2 by done. cbn [negb].
  rewrite wrap64_id
    by (unfold inInt64, minInt64, maxInt64 in *; lia).
  cbn [tsRemaining setRemaining].
  destruct (Z.leb_spec (tsRemaining ts - tickInterval s) 0); [lia |].
  repeat case_match; cbn; repeat split; try done;
    repeat constructor.
Qed.

(** A running timer whose remaining time does not outlast the tick fires:
    one urgent call with the message of its level, and level 1. *)
Lemma countdown_fires (now : Time) (ts : TimerState) :
  tsStatus ts = TimerRunning ->
  0 <= tsRemaining ts <= maxInt64 ->
  tsRemaining ts - tickInterval s <= 0 ->
  let v := countdown s now ts in
  tsStatus (vTimer v) = TimerFired
  /\ tsRemaining (vTimer v) = 0
  /\ tsEscalationLevel (vTimer v) = 1
  /\ tsLastNotified (vTimer v) = now
  /\ vNotes v = [ {| ntUrgent := true; ntMessage := escalationMessage ts |} ].
Proof.
  intros Hrun Hrem Hleft. unfold countdown.
  rewrite bool_decide_eq_true_2 by done. cbn [negb].
  rewrite wrap64_id
    by (unfold inInt64, minInt64, maxInt64 in *; lia).
  cbn [tsRemaining setRemaining].
  destruct (Z.leb_spec (tsRemaining ts - tickInterval s) 0); [| lia].
  cbn. repeat split.
Qed.

(** The second loop leaves alone a timer notified at this very instant. *)
Lemma followUp_just_notified (now : Time) (ts : TimerState) :
  now <> 0 -> tsLastNotified ts = now ->
  followUp s now ts = {| vTimer := ts; vNotes := []; vChanged := false |}.
Proof.
  intros Hnow Hlast. unfold followUp.
  case_bool_decide; cbn [negb]; [| done].
  case_match; [done |].
  rewrite Hlast, Sub_self. unfold IsZero.
  destruct (Z.eqb_spec now 0); [done |]. cbn [negb andb].
  destruct (Z.ltb_spec 0 (notifyCooldown s)); [done | lia].
Qed.

Lemma followUp_not_fired (now : Time) (ts : TimerState) :
  tsStatus ts <> TimerFired ->
  followUp s now ts = {| vTimer := ts; vNotes := []; vChanged := false |}.
Proof.
  intros Hst. unfold followUp. by rewrite bool_decide_eq_false_2.
Qed.

Lemma countdown_not_running (now : Time) (ts : TimerState) :
  tsStatus ts <> TimerRunning ->
  countdown s now ts = {| vTimer := ts; vNotes := []; vChanged := false |}.
Proof.
  intros Hst. unfold countdown. by rewrite bool_decide_eq_false_2.
Qed.

(** Once fired a timer stays fired at zero, and its level never drops. *)
Lemma visit_fired (now : Time) (ts : TimerState) :
  tsStatus ts = TimerFired -> tsRemaining ts = 0 ->
  1 <= tsEscalationLevel ts ->
  tsStatus (visit s now ts) = TimerFired
  /\ tsRemaining (visit s now ts) = 0
  /\ tsEscalationLevel ts <= tsEscalationLevel (visit s now ts).
Proof.
  intros Hst Hrem Hlvl. unfold visit.
  rewrite countdown_not_running by (rewrite Hst; discriminate).
  cbn [vTimer]. unfold followUp.
  rewrite bool_decide_eq_true_2 by done. cbn [negb].
  destruct (Z.gtb_spec (tsEscalationLevel ts) (maxEscalation s));
    [by repeat split; try lia |].
  case_match; cbn; repeat split; try done; try lia.
  rewrite wrap64_id; [lia |].
  unfold inInt64, minInt64, maxInt64 in *. lia.
Qed.

Lemma visits_fired (nows : list Time) : forall ts : TimerState,
  tsStatus ts = TimerFired -> tsRemaining ts = 0 ->
  1 <= tsEscalationLevel ts ->
  tsStatus (visits s nows ts).1 = TimerFired
  /\ tsRemaining (visits s nows ts).1 = 0
  /\ 1 <= tsEscalationLevel (visits s nows ts).1.
Proof.
  induction nows as [|now rest IH]; intros ts Hst Hrem Hlvl; [done |].
  destruct (visit_fired now ts Hst Hrem Hlvl) as (H1 & H2 & H3).
  cbn [visits fst]. apply IH; [done | done | lia].
Qed.

(** The tick on which a running timer fires. *)
Lemma visit_fires (now : Time) (ts : TimerState) :
  now <> 0 ->
  tsStatus ts = TimerRunning ->
  0 <= tsRemaining ts <= maxInt64 ->
  tsRemaining ts - tickInterval s <= 0 ->
  tsStatus (visit s now ts) = TimerFired
  /\ tsRemaining (visit s now ts) = 0
  /\ tsEscalationLevel (visit s now ts) = 1
  /\ tsLastNotified (visit s now ts) = now
  /\ visitNotes s now ts
     = [ {| ntUrgent := true; ntMessage := escalationMessage ts |} ].
Proof.
  intros Hnow Hrun Hrem Hleft.
  destruct (countdown_fires now ts Hrun Hrem Hleft)
    as (H1 & H2 & H3 & H4 & H5).
  unfold visit, visitNotes.
  rewrite followUp_just_notified by done.
  cbn [vTimer vNotes]. rewrite H5. by repeat split.
Qed.

(** A tick that a running timer outlasts. *)
Lemma visit_keeps_running (now : Time) (ts : TimerState) :
  tsStatus ts = TimerRunning ->
  0 <= tsRemaining ts <= maxInt64 ->
  0 < tsRemaining ts - tickInterval s ->
  tsStatus (visit s now ts) = TimerRunning
  /\ tsRemaining (visit s now ts) = tsRemaining ts - tickInterval s
  /\ tsEscalationLevel (visit s now ts) = tsEscalationLevel ts
  /\ Forall (fun n => ntUrgent n = false) (visitNotes s now ts).
Proof.
  intros Hrun Hrem Hleft.
  destruct (countdown_keeps_running now ts Hrun Hrem Hleft)
    as (H1 & H2 & H3 & H4).
  unfold visit, visitNotes.
  rewrite followUp_not_fired by (rewrite H1; discriminate).
  cbn [vTimer vNotes]. rewrite app_nil_r. by repeat split.
Qed.

(** After the ticks at [nows] a running timer has
    [max 0 (initial - n * tick)] remaining; it still runs while that is
    positive and is fired, at level 1 or more, once it is not. *)
Lemma visits_countdown (nows : list Time) : forall ts : TimerState,
  Forall (fun now => now <> 0) nows ->
  tsStatus ts = TimerRunning ->
  0 <= tsRemaining ts <= maxInt64 ->
  let left := tsRemaining ts - len nows * tickInterval s in
  tsRemaining (visits s nows ts).1 = Z.max 0 left
  /\ (0 < left -> tsStatus (visits s nows ts).1 = TimerRunning)
  /\ (nows <> [] -> left <= 0 ->
      tsStatus (visits s nows ts).1 = TimerFired
      /\ 1 <= tsEscalationLevel (visits s nows ts).1).
Proof.
  induction nows as [|now rest IH]; intros ts Hnows Hrun Hrem left.
  - subst left. unfold len. cbn. split; [lia |]. split; done.
  - apply Forall_cons in Hnows as [Hnow Hrest].
    assert (Hlen : len (now :: rest) = 1 + len rest)
      by (unfold len; simpl; lia).
    pose proof (len_nonneg rest) as Hn.
    destruct (Z.le_gt_cases (tsRemaining ts - tickInterval s) 0)
      as [Hfire|Hkeep].
    + destruct (visit_fires now ts Hnow Hrun Hrem Hfire)
        as (H1 & H2 & H3 & _).
      destruct (visits_fired rest (visit s now ts) H1 H2 ltac:(lia))
        as (F1 & F2 & F3).
      cbn [visits fst]. subst left. rewrite Hlen.
      split; [rewrite F2; nia |]. split; [intros; nia | done].
    + destruct (visit_keeps_running now ts Hrun Hrem Hkeep)
        as (H1 & H2 & _).
      destruct (IH (visit s now ts) Hrest H1 ltac:(rewrite H2; lia))
        as (I1 & I2 & I3).
      cbn [visits fst]. subst left. rewrite Hlen. rewrite H2 in *.
      replace (tsRemaining ts - (1 + len rest) * tickInterval s)
        with (tsRemaining ts - tickInterval s - len rest * tickInterval s)
        by lia.
      split; [done |]. split; [done |].
      intros _ Hle. apply I3; [| done].
      intros ->. unfold len in Hle. simpl in Hle. lia.
Qed.

End Countdown.

Section SupervisorTicks.
Import Timer System.

(** C2: for an active session of a reachable engine and a running timer of
    it, with a positive tick interval and cooldown: after the ticks at the
    instants [nows] the timer's remaining time is
    [max 0 (initial - n * tickInterval)]; it is still running while that
    is positive and is fired with escalation level at least 1 once it is
    not.  On the tick that brings the remaining time to zero or below it is
    clamped to 0, the status becomes fired, [LastNotified] is the instant
    of the tick, the level is 1, and the notifier calls made for the timer
    are exactly one urgent call with the level-0 message; on a tick it
    outlasts, the remaining time drops by the tick interval and no urgent
    call is made for it. *)
Theorem supervisor_countdown (s : Supervisor) (e : Engine.Engine)
    (sid tid : string) (session : Session) (ts : TimerState)
    (nows : list Time) :
  Reachable e ->
  Engine.store e !! sid = Some session ->
  sessStatus session = SessionActive ->
  sessTimerStates session !! tid = Some ts ->
  tsStatus ts = TimerRunning ->
  0 < tickInterval s <= maxInt64 ->
  0 < notifyCooldown s ->
  maxEscalation s < maxInt64 ->
  0 <= tsRemaining ts <= maxInt64 ->
  Forall (fun now => now <> 0) nows ->
  let left := tsRemaining ts - len nows * tickInterval s in
  (exists ts',
     sessTimerStates (ticks s nows session).1 !! tid = Some ts'
     /\ tsRemaining ts' = Z.max 0 left
     /\ (0 < left -> tsStatus ts' = TimerRunning)
     /\ (nows <> [] -> left <= 0 ->
         tsStatus ts' = TimerFired /\ 1 <= tsEscalationLevel ts'))
  /\ (forall now, now <> 0 ->
      let p := processSession s now session in
      exists ts1,
        sessTimerStates (pSession p) !! tid = Some ts1
        /\ (tsRemaining ts - tickInterval s <= 0 ->
            tsRemaining ts1 = 0
            /\ tsStatus ts1 = TimerFired
            /\ tsLastNotified ts1 = now
            /\ tsEscalationLevel ts1 = 1
            /\ filter (fun x : string * Notification => x.1 = tid) (pNotes p)
               = [ (tid, {| ntUrgent := true;
                            ntMessage := ("[Timer] " ++ tsLabel ts
                                          ++ " is up.")%string |}) ])
        /\ (0 < tsRemaining ts - tickInterval s ->
            tsRemaining ts1 = tsRemaining ts - tickInterval s
            /\ tsStatus ts1 = TimerRunning
            /\ Forall (fun x : string * Notification => ntUrgent x.2 = false)
                 (filter (fun x : string * Notification => x.1 = tid)
                         (pNotes p)))).
Proof.
  intros Hreach Hs Hact Hts Hrun Htick Hcool Hmax Hrem Hnows left.
  destruct (Reachable_storeInv e Hreach sid session Hs) as [_ Hinv].
  destruct (Hinv tid ts Hts) as (_ & _ & Hlvl).
  specialize (Hlvl ltac:(right; left; exact Hrun)).
  split.
  - destruct (ticks_timer s nows session tid ts Hact Hts) as (Hlook & _ & _).
    exists (visits s nows ts).1. split; [done |].
    by apply visits_countdown.
  - intros now Hnow p.
    destruct (processSession_active s now session Hact) as (Ht & _ & Hn).
    exists (visit s now ts). subst p.
    split; [by rewrite Ht, lookup_fmap, Hts |]. split.
    + intros Hfire.
      destruct (visit_fires s Htick Hcool now ts Hnow Hrun Hrem Hfire)
        as (H1 & H2 & H3 & H4 & H5).
      repeat split; try done.
      rewrite (Hn tid ts Hts), H5. unfold escalationMessage.
      by rewrite Hlvl.
    + intros Hkeep.
      destruct (visit_keeps_running s Htick now ts Hrun Hrem Hkeep)
        as (H1 & H2 & _ & H4).
      repeat split; try done.
      rewrite (Hn tid ts Hts). apply Forall_fmap.
      eapply Forall_impl; [exact H4 | done].
Qed.

Lemma supervisor_countdown_witness :
  exists session ts',
    Engine.store engineRunning !! "abc" = Some session
    /\ sessTimerStates (ticks Timer.New (every 1000 Second 3) session).1
         !! "timer-s1" = Some ts'
    /\ tsRemaining ts' = 0 /\ tsStatus ts' = TimerFired.
Proof.
  eassert (Hs : Engine.store engineRunning !! "abc" = Some _)
    by (vm_compute; reflexivity).
  match type of Hs with
  | _ = Some ?session =>
      eassert (Hts : sessTimerStates session !! "timer-s1" = Some _)
        by (vm_compute; reflexivity);
      match type of Hts with
      | _ = Some ?ts =>
          destruct (supervisor_countdown Timer.New engineRunning "abc"
                      "timer-s1" session ts (every 1000 Second 3))
            as [(ts' & Hlook & Hrem & _ & Hfired) _]
      end
  end.
  - apply Reachable_engines.
  - exact Hs.
  - vm_compute. reflexivity.
  - exact Hts.
  - vm_compute. reflexivity.
  - vm_compute. split; [reflexivity | discriminate].
  - vm_compute. reflexivity.
  - vm_compute. reflexivity.
  - vm_compute. split; discriminate.
  - repeat constructor; vm_compute; discriminate.
  - eexists. exists ts'. split; [exact Hs |]. split; [exact Hlook |]. split.
    + rewrite Hrem. vm_compute. reflexivity.
    + apply Hfired; vm_compute; discriminate.
Defined.

End SupervisorTicks.

(** ** Escalation under the default settings *)

Section Escalation.
Import Timer System.

Lemma visits_app (s : Supervisor) (l1 l2 : list Time) : forall ts : TimerState,
  visits s (l1 ++ l2) ts
  = ((visits s l2 (visits s l1 ts).1).1,
     (visits s l1 ts).2 ++ (visits s l2 (visits s l1 ts).1).2).
Proof.
  induction l1 as [|now l1 IH]; intros ts.
  - simpl. by destruct (visits s l2 ts).
  - cbn [app visits fst snd]. rewrite IH. cbn [fst snd].
    by rewrite app_assoc.
Qed.

Lemma every_S (t0 step : Time) (n : nat) :
  every t0 step (S n) = t0 :: every (t0 + step) step n.
Proof.
  unfold every. cbn [seq fmap list_fmap]. f_equal; [lia |].
  rewrite <- fmap_S_seq, <- list_fmap_compose.
  apply list_fmap_ext. intros i k _. cbn. lia.
Qed.

Lemma every_app (t0 step : Time) (a b : nat) :
  every t0 step (a + b)
  = every t0 step a ++ every (t0 + Z.of_nat a * step) step b.
Proof.
  revert t0. induction a as [|a IH]; intros t0.
  - replace (t0 + Z.of_nat 0 * step) with t0 by lia. done.
  - cbn [Nat.add]. rewrite !every_S, IH. cbn [app].
    replace (t0 + step + Z.of_nat a * step)
      with (t0 + Z.of_nat (S a) * step) by lia.
    done.
Qed.

Lemma every_bounds (t0 step : Time) (n : nat) (now : Time) :
  0 <= step -> now ∈ every t0 step n ->
  t0 <= now <= t0 + (Z.of_nat n - 1) * step.
Proof.
  intros Hstep [k [-> Hk%elem_of_seq]]%list_elem_of_fmap. nia.
Qed.

(** Under the default settings a fired timer is left alone while less than
    the cooldown has passed since it was last notified. *)
Lemma visit_quiet (now : Time) (ts : TimerState) (level : Z) (last : Time) :
  firedAt ts level last -> last <> 0 -> now - last < 15 * Second ->
  visit New now ts = ts /\ visitNotes New now ts = [].
Proof.
  intros (Hst & Hlvl & Hlast) Hnz Hsoon. unfold visit, visitNotes.
  rewrite countdown_not_running by (rewrite Hst; discriminate).
  cbn [vTimer vNotes app]. unfold followUp.
  rewrite bool_decide_eq_true_2 by done. cbn [negb].
  case_match; [done |].
  rewrite Hlast. unfold IsZero.
  destruct (Z.eqb_spec last 0); [done |]. cbn [negb andb].
  change (notifyCooldown New) with (15 * Second).
  destruct (Z.ltb_spec (Sub now last) (15 * Second)) as [|Hge]; [done |].
  unfold Sub, minInt64, maxInt64, Second in *. lia.
Qed.

(** Once the cooldown has passed, a fired timer at a level up to the
    maximum gets one (non-urgent) call with the message of its level. *)
Lemma visit_escalates (now : Time) (ts : TimerState) (level : Z) (last : Time) :
  firedAt ts level last -> 0 <= level <= 3 -> 15 * Second <= now - last ->
  firedAt (visit New now ts) (level + 1) now
  /\ tsLabel (visit New now ts) = tsLabel ts
  /\ visitNotes New now ts
     = [ {| ntUrgent := false; ntMessage := escalationMessage ts |} ].
Proof.
  intros (Hst & Hlvl & Hlast) Hrange Hlate. unfold visit, visitNotes.
  rewrite countdown_not_running by (rewrite Hst; discriminate).
  cbn [vTimer vNotes app]. unfold followUp.
  rewrite bool_decide_eq_true_2 by done. cbn [negb].
  rewrite Hlvl. change (maxEscalation New) with 3.
  destruct (Z.gtb_spec level 3); [lia |].
  rewrite Hlast. change (notifyCooldown New) with (15 * Second).
  assert (Hsub : (Sub now last <? 15 * Second) = false).
  { apply Z.ltb_ge. unfold Sub, minInt64, maxInt64, Second in *. lia. }
  rewrite Hsub, andb_false_r. cbn.
  rewrite Hlvl, wrap64_id by (unfold inInt64, minInt64, maxInt64; lia).
  unfold firedAt. cbn. by repeat split.
Qed.

(** Past the maximum level nothing is emitted any more. *)
Lemma visits_capped (s : Supervisor) (nows : list Time) (ts : TimerState) :
  tsStatus ts = TimerFired -> maxEscalation s < tsEscalationLevel ts ->
  visits s nows ts = (ts, []).
Proof.
  intros Hst Hlvl. induction nows as [|now rest IH]; [done |].
  assert (Hv : visit s now ts = ts /\ visitNotes s now ts = []).
  { unfold visit, visitNotes.
    rewrite countdown_not_running by (rewrite Hst; discriminate).
    cbn [vTimer vNotes app]. unfold followUp.
    rewrite bool_decide_eq_true_2 by done. cbn [negb].
    destruct (Z.gtb_spec (tsEscalationLevel ts) (maxEscalation s));
      [done | lia]. }
  destruct Hv as [Hv Hn]. cbn [visits]. rewrite Hv, Hn, IH. done.
Qed.

Lemma visits_quiet (nows : list Time) (ts : TimerState) (level : Z)
    (last : Time) :
  firedAt ts level last -> last <> 0 ->
  Forall (fun now => now - last < 15 * Second) nows ->
  visits New nows ts = (ts, []).
Proof.
  intros Hf Hnz. induction 1 as [|now rest Hnow Hrest IH]; [done |].
  destruct (visit_quiet now ts level last Hf Hnz Hnow) as [Hv Hn].
  cbn [visits]. rewrite Hv, Hn, IH. done.
Qed.

(** One cooldown period of one-second ticks after a notification: silence
    for fourteen ticks, then the next escalation. *)
Lemma visits_period (ts : TimerState) (level : Z) (last : Time) :
  firedAt ts level last -> last <> 0 -> 0 <= level <= 3 ->
  exists ts',
    visits New (every (last + Second) Second 15) ts
    = (ts', [ (last + 15 * Second,
               {| ntUrgent := false; ntMessage := escalationMessage ts |}) ])
    /\ firedAt ts' (level + 1) (last + 15 * Second)
    /\ tsLabel ts' = tsLabel ts.
Proof.
  intros Hf Hnz Hrange.
  change 15%nat with (14 + 1)%nat. rewrite every_app, visits_app.
  rewrite (every_S _ _ 0).
  replace (last + Second + Z.of_nat 14 * Second)
    with (last + 15 * Second) by lia.
  rewrite (visits_quiet _ ts level last Hf Hnz).
  - cbn [fst snd app every seq fmap list_fmap visits].
    destruct (visit_escalates (last + 15 * Second) ts level last Hf Hrange)
      as (H1 & H2 & H3); [lia |].
    exists (visit New (last + 15 * Second) ts).
    rewrite H3. split; [reflexivity | split; assumption].
  - apply Forall_forall. intros now Hin.
    apply every_bounds in Hin; unfold Second in *; lia.
Qed.

End Escalation.

Section EscalationCap.
Import Timer System.

Lemma visit_label (s : Supervisor) (now : Time) (ts : TimerState) :
  tsLabel (visit s now ts) = tsLabel ts.
Proof.
  unfold visit.
  assert (H1 : tsLabel (vTimer (countdown s now ts)) = tsLabel ts).
  { unfold countdown. repeat case_match; done. }
  rewrite <- H1. generalize (vTimer (countdown s now ts)). intros t.
  unfold followUp. repeat case_match; done.
Qed.

(** The default scenario seen from the timer: it fires on the first tick
    and is then visited every second. *)
Lemma visits_cons (s : Supervisor) (now : Time) (rest : list Time)
    (ts : TimerState) :
  visits s (now :: rest) ts
  = ((visits s rest (visit s now ts)).1,
     ((fun n => (now, n)) <$> visitNotes s now ts)
     ++ (visits s rest (visit s now ts)).2).
Proof. reflexivity. Qed.

Lemma New_sane :
  0 < tickInterval New <= maxInt64 /\ 0 < notifyCooldown New
  /\ maxEscalation New < maxInt64.
Proof. vm_compute. repeat split; discriminate. Qed.

(** The first tick fires the timer. *)
Lemma visits_first_tick (ts : TimerState) (t0 : Time) (rest : list Time) :
  tsStatus ts = TimerRunning ->
  tsEscalationLevel ts = 0 ->
  0 <= tsRemaining ts <= tickInterval New ->
  0 < t0 ->
  exists ts1,
    visits New (t0 :: rest) ts
    = ((visits New rest ts1).1,
       (t0, {| ntUrgent := true;
               ntMessage := ("[Timer] " ++ tsLabel ts ++ " is up.")%string |})
       :: (visits New rest ts1).2)
    /\ firedAt ts1 1 t0 /\ tsLabel ts1 = tsLabel ts.
Proof.
  intros Hrun Hlvl Hrem Ht0.
  destruct New_sane as (Htick & Hcool & _).
  assert (Hrem' : 0 <= tsRemaining ts <= maxInt64) by lia.
  assert (Hfire : tsRemaining ts - tickInterval New <= 0) by lia.
  destruct (visit_fires New Htick Hcool t0 ts ltac:(lia) Hrun Hrem' Hfire)
    as (F1 & F2 & F3 & F4 & F5).
  exists (visit New t0 ts). rewrite visits_cons, F5.
  unfold escalationMessage. rewrite Hlvl.
  split; [reflexivity |]. split; [by repeat split | apply visit_label].
Qed.

Lemma every_split (t0 : Time) (m : nat) :
  every (t0 + Second) Second (15 + (15 + (15 + m)))
  = every (t0 + Second) Second 15
    ++ every (t0 + 15 * Second + Second) Second 15
    ++ every (t0 + 30 * Second + Second) Second 15
    ++ every (t0 + 45 * Second + Second) Second m.
Proof.
  rewrite !every_app.
  replace (t0 + Second + Z.of_nat 15 * Second)
    with (t0 + 15 * Second + Second) by lia.
  replace (t0 + 15 * Second + Second + Z.of_nat 15 * Second)
    with (t0 + 30 * Second + Second) by lia.
  replace (t0 + 30 * Second + Second + Z.of_nat 15 * Second)
    with (t0 + 45 * Second + Second) by lia.
  reflexivity.
Qed.

Lemma visits_period_then (ts : TimerState) (level : Z) (last : Time)
    (rest : list Time) :
  firedAt ts level last -> last <> 0 -> 0 <= level <= 3 ->
  exists ts',
    visits New (every (last + Second) Second 15 ++ rest) ts
    = ((visits New rest ts').1,
       (last + 15 * Second,
        {| ntUrgent := false; ntMessage := escalationMessage ts |})
       :: (visits New rest ts').2)
    /\ firedAt ts' (level + 1) (last + 15 * Second)
    /\ tsLabel ts' = tsLabel ts.
Proof.
  intros Hf Hnz Hrange.
  destruct (visits_period ts level last Hf Hnz Hrange) as (ts' & E & Hf' & L).
  exists ts'. rewrite visits_app, E. split; [reflexivity | split; assumption].
Qed.

(** Three cooldown periods of one-second ticks after the firing. *)
Lemma visits_three_periods (ts1 : TimerState) (t0 : Time) (m : nat) :
  firedAt ts1 1 t0 -> 0 < t0 ->
  exists ts4,
    visits New (every (t0 + Second) Second (15 + (15 + (15 + m)))) ts1
    = (ts4,
       [ (t0 + 15 * Second,
          {| ntUrgent := false;
             ntMessage := ("[Timer] " ++ tsLabel ts1
                           ++ " -- check it now.")%string |});
         (t0 + 30 * Second,
          {| ntUrgent := false;
             ntMessage := ("[Timer] " ++ tsLabel ts1 ++ ". Now.")%string |});
         (t0 + 45 * Second,
          {| ntUrgent := false;
             ntMessage := ("[Timer] " ++ tsLabel ts1 ++ ".")%string |}) ])
    /\ tsStatus ts4 = TimerFired
    /\ tsEscalationLevel ts4 = 4.
Proof.
  intros Hf1 Ht0. rewrite every_split.
  destruct (visits_period_then ts1 1 t0
              (every (t0 + 15 * Second + Second) Second 15
               ++ every (t0 + 30 * Second + Second) Second 15
               ++ every (t0 + 45 * Second + Second) Second m)
              Hf1 ltac:(lia) ltac:(lia))
    as (ts2 & E2 & Hf2 & L2).
  change (1 + 1) with 2 in Hf2.
  assert (Hnz2 : t0 + 15 * Second <> 0) by (unfold Second; lia).
  destruct (visits_period_then ts2 2 (t0 + 15 * Second)
              (every (t0 + 30 * Second + Second) Second 15
               ++ every (t0 + 45 * Second + Second) Second m)
              Hf2 Hnz2 ltac:(lia))
    as (ts3 & E3 & Hf3 & L3).
  change (2 + 1) with 3 in Hf3.
  replace (t0 + 15 * Second + 15 * Second) with (t0 + 30 * Second)
    in E3, Hf3 by lia.
  assert (Hnz3 : t0 + 30 * Second <> 0) by (unfold Second; lia).
  destruct (visits_period_then ts3 3 (t0 + 30 * Second)
              (every (t0 + 45 * Second + Second) Second m)
              Hf3 Hnz3 ltac:(lia))
    as (ts4 & E4 & Hf4 & L4).
  change (3 + 1) with 4 in Hf4.
  replace (t0 + 30 * Second + 15 * Second) with (t0 + 45 * Second)
    in E4, Hf4 by lia.
  destruct Hf4 as (S4 & V4 & _).
  rewrite (visits_capped New _ ts4 S4) in E4
    by (change (maxEscalation New) with 3; lia).
  rewrite E2, E3, E4. cbn [fst snd].
  exists ts4. split; [| split; [done | done]].
  destruct Hf1 as (_ & V1 & _). destruct Hf2 as (_ & V2 & _).
  destruct Hf3 as (_ & V3 & _).
  unfold escalationMessage. rewrite V1, V2, V3, L3, L2.
  reflexivity.
Qed.

Lemma visits_default_scenario (ts : TimerState) (t0 : Time) (n : nat) :
  tsStatus ts = TimerRunning ->
  tsEscalationLevel ts = 0 ->
  0 <= tsRemaining ts <= tickInterval New ->
  0 < t0 ->
  (46 <= n)%nat ->
  exists ts',
    visits New (every t0 Second n) ts
    = (ts',
       [ (t0, {| ntUrgent := true;
                 ntMessage := ("[Timer] " ++ tsLabel ts ++ " is up.")%string |});
         (t0 + 15 * Second,
          {| ntUrgent := false;
             ntMessage := ("[Timer] " ++ tsLabel ts
                           ++ " -- check it now.")%string |});
         (t0 + 30 * Second,
          {| ntUrgent := false;
             ntMessage := ("[Timer] " ++ tsLabel ts ++ ". Now.")%string |});
         (t0 + 45 * Second,
          {| ntUrgent := false;
             ntMessage := ("[Timer] " ++ tsLabel ts ++ ".")%string |}) ])
    /\ tsStatus ts' = TimerFired
    /\ tsEscalationLevel ts' = 4.
Proof.
  intros Hrun Hlvl Hrem Ht0 Hn.
  replace n with (S (15 + (15 + (15 + (n - 46)))))%nat by lia.
  rewrite every_S.
  destruct (visits_first_tick ts t0
              (every (t0 + Second) Second (15 + (15 + (15 + (n - 46)))))
              Hrun Hlvl Hrem Ht0)
    as (ts1 & E1 & Hf1 & L1).
  destruct (visits_three_periods ts1 t0 (n - 46) Hf1 Ht0)
    as (ts4 & E4 & S4 & V4).
  exists ts4. rewrite E1, E4, L1. by repeat split.
Qed.

(** A follow-up notification is emitted only for a timer at a level up to
    the maximum, and only once the cooldown has passed since the last. *)
Lemma followUp_spaced (s : Supervisor) (now : Time) (ts : TimerState) :
  vNotes (followUp s now ts) <> [] ->
  tsStatus ts = TimerFired
  /\ tsEscalationLevel ts <= maxEscalation s
  /\ (tsLastNotified ts <> 0 -> minInt64 < notifyCooldown s ->
      notifyCooldown s <= now - tsLastNotified ts).
Proof.
  unfold followUp. case_bool_decide as Hst; cbn [negb]; [| done].
  destruct (Z.gtb_spec (tsEscalationLevel ts) (maxEscalation s)); [done |].
  unfold IsZero.
  destruct (Z.eqb_spec (tsLastNotified ts) 0) as [Hz|Hnz]; cbn [negb andb].
  - intros _. repeat split; [done | lia | done].
  - destruct (Z.ltb_spec (Sub now (tsLastNotified ts)) (notifyCooldown s))
      as [|Hge]; [done |].
    intros _. repeat split; [done | lia |]. intros _ Hc.
    unfold Sub, minInt64, maxInt64 in *. lia.
Qed.

End EscalationCap.

Section DefaultEscalation.
Import Timer System.

(** C5: under the default settings, for an active session of a reachable
    engine and a running timer that fires on the first tick, one-second
    ticks for 46 s or longer (60 s in particular) make the supervisor emit
    exactly four notifications for it: the urgent one of the firing and
    the escalations of levels 1, 2 and 3, each 15 s (the cooldown) after
    the one before; the timer ends fired at level 4.  Whatever the instants
    of the ticks, a fired timer whose level exceeds the maximum gets no
    notification and is left as it is, and a follow-up notification is
    only emitted at a level up to the maximum and at least a cooldown after
    the previous notification. *)
Theorem escalation_cap (e : Engine.Engine) (sid tid : string)
    (session : Session) (ts : TimerState) (t0 : Time) (n : nat) :
  Reachable e ->
  Engine.store e !! sid = Some session ->
  sessStatus session = SessionActive ->
  sessTimerStates session !! tid = Some ts ->
  tsStatus ts = TimerRunning ->
  0 <= tsRemaining ts <= tickInterval New ->
  0 < t0 ->
  (46 <= n)%nat ->
  let r := ticks New (every t0 Second n) session in
  notesFor tid r.2
  = [ (t0, {| ntUrgent := true;
              ntMessage := ("[Timer] " ++ tsLabel ts ++ " is up.")%string |});
      (t0 + 15 * Second,
       {| ntUrgent := false;
          ntMessage := ("[Timer] " ++ tsLabel ts
                        ++ " -- check it now.")%string |});
      (t0 + 30 * Second,
       {| ntUrgent := false;
          ntMessage := ("[Timer] " ++ tsLabel ts ++ ". Now.")%string |});
      (t0 + 45 * Second,
       {| ntUrgent := false;
          ntMessage := ("[Timer] " ++ tsLabel ts ++ ".")%string |}) ]
  /\ (exists ts', sessTimerStates r.1 !! tid = Some ts'
                  /\ tsStatus ts' = TimerFired
                  /\ tsEscalationLevel ts' = 4)
  /\ (forall (session' : Session) (nows : list Time) (ts0 : TimerState),
        sessStatus session' = SessionActive ->
        sessTimerStates session' !! tid = Some ts0 ->
        tsStatus ts0 = TimerFired ->
        maxEscalation New < tsEscalationLevel ts0 ->
        notesFor tid (ticks New nows session').2 = []
        /\ sessTimerStates (ticks New nows session').1 !! tid = Some ts0)
  /\ (forall (now : Time) (ts0 : TimerState),
        vNotes (followUp New now ts0) <> [] ->
        tsEscalationLevel ts0 <= maxEscalation New
        /\ (tsLastNotified ts0 <> 0 ->
            notifyCooldown New <= now - tsLastNotified ts0)).
Proof.
  intros Hreach Hs Hact Hts Hrun Hrem Ht0 Hn r.
  destruct (Reachable_storeInv e Hreach sid session Hs) as [_ Hinv].
  destruct (Hinv tid ts Hts) as (_ & _ & Hlvl).
  specialize (Hlvl ltac:(right; left; exact Hrun)).
  destruct (ticks_timer New (every t0 Second n) session tid ts Hact Hts)
    as (Hlook & Hnotes & _).
  destruct (visits_default_scenario ts t0 n Hrun Hlvl Hrem Ht0 Hn)
    as (ts' & Hv & Hfired & Hfour).
  subst r. rewrite Hnotes, Hlook, Hv. cbn [fst snd].
  split; [done |]. split; [by exists ts' |]. split.
  - intros session' nows ts0 Hact' Hts0 Hf0 Hcap.
    destruct (ticks_timer New nows session' tid ts0 Hact' Hts0)
      as (Hl & Hno & _).
    rewrite Hno, Hl, (visits_capped New nows ts0 Hf0 Hcap). done.
  - intros now ts0 Hemit.
    destruct (followUp_spaced New now ts0 Hemit) as (_ & Hle & Hgap).
    split; [done |]. intros Hnz. apply Hgap; [done |].
    vm_compute. reflexivity.
Qed.

Lemma escalation_cap_witness :
  exists session,
    Engine.store engineEgg !! "egg1" = Some session
    /\ length (notesFor "timer-e1"
                 (ticks New (every 1000 Second 60) session).2) = 4%nat.
Proof.
  eassert (Hs : Engine.store engineEgg !! "egg1" = Some _)
    by (vm_compute; reflexivity).
  match type of Hs with
  | _ = Some ?session =>
      eassert (Hts : sessTimerStates session !! "timer-e1" = Some _)
        by (vm_compute; reflexivity);
      match type of Hts with
      | _ = Some ?ts =>
          destruct (escalation_cap engineEgg "egg1" "timer-e1" session ts
                      1000 60)
            as (Hnotes & _)
      end
  end.
  - apply (Reachable_exec
             (Engine.StartSession engineEgg0 "egg1" 100 100 100 "egg" 0).2
             (OpStartPendingTimers 110 "egg1"));
      [| vm_compute; reflexivity].
    apply (Reachable_exec engineEgg0
             (OpStartSession "egg1" 100 100 100 "egg" 0));
      [apply Reachable_new | vm_compute; reflexivity].
  - exact Hs.
  - vm_compute. reflexivity.
  - exact Hts.
  - vm_compute. reflexivity.
  - vm_compute. split; discriminate.
  - lia.
  - lia.
  - eexists. split; [exact Hs |]. rewrite Hnotes. reflexivity.
Defined.

End DefaultEscalation.

(** * Further properties of the engine *)

Section EngineMore.
Import System EngineQueries.

(** X1: every operation of the engine that takes a session ID fails with the
    wrapped [ErrNotFound] of the store when no session is stored under it,
    and leaves the engine as it was. *)
Theorem unknown_session_not_found (e : Engine.Engine) (now : Time)
    (sessionID timerID : string) :
  Engine.store e !! sessionID = None ->
  let notFound := Wrapf "loading session" ErrNotFound in
  Engine.Advance e now sessionID = (Fail notFound, e)
  /\ Engine.Skip e now sessionID = (Fail notFound, e)
  /\ Engine.Pause e now sessionID = (Fail notFound, e)
  /\ Engine.Resume e now sessionID = (Fail notFound, e)
  /\ Engine.Abandon e now sessionID = (Fail notFound, e)
  /\ Engine.StartPendingTimers e now sessionID = (Fail notFound, e)
  /\ Engine.DismissTimer e now sessionID timerID = (Fail notFound, e)
  /\ CurrentStep e sessionID = Fail notFound
  /\ Repeat e sessionID = Fail notFound
  /\ NextStep e sessionID = Fail notFound
  /\ HasPendingTimers e sessionID = Fail notFound
  /\ ActiveTimers e sessionID = Fail notFound.
Proof.
  intros Hnone notFound.
  unfold Engine.Advance, Engine.Skip, Engine.leaveStep, Engine.Pause,
    Engine.Resume, Engine.Abandon, Engine.StartPendingTimers,
    Engine.DismissTimer, Repeat, CurrentStep, NextStep, HasPendingTimers,
    ActiveTimers, Storage.Load.
  rewrite Hnone. by repeat split.
Qed.

Lemma unknown_session_not_found_witness :
  Engine.Pause engine0 5 "nobody"
  = (Fail (Wrapf "loading session" ErrNotFound), engine0).
Proof.
  refine (proj1 (proj2 (proj2
            (unknown_session_not_found engine0 5 "nobody" "t" _)))).
  vm_compute. reflexivity.
Defined.

(** What leaving the current step does, whatever status ([StepDone] or
    [StepSkipped]) the step is left with. *)
Lemma leaveStep_moves (final : StepStatus) (e : Engine.Engine) (now : Time)
    (sessionID : string) (session : Session) (recipe : Recipe)
    (current : StepState) :
  Engine.store e !! sessionID = Some session ->
  sessStatus session = SessionActive ->
  Engine.recipes e !! sessRecipeID session = Some recipe ->
  0 <= sessCurrentStepIndex session < maxInt64 ->
  sessStepStates session !! sessCurrentStepIndex session = Some current ->
  let cur := sessCurrentStepIndex session in
  let left := {| ssStatus := final; ssStartedAt := ssStartedAt current;
                 ssCompletedAt := now |} in
  (len (recipeSteps recipe) <= cur + 1 ->
   Engine.leaveStep final e now sessionID
   = (Fail ErrNoMoreSteps,
      Engine.withStore e
        (Storage.Save
           (Storage.poke (Engine.store e) sessionID
              (setUpdatedAt now
                 (setStatus SessionCompleted
                    (setStepStates (<[cur := left]> (sessStepStates session))
                                   session))))
           (setUpdatedAt now
              (setStatus SessionCompleted
                 (setStepStates (<[cur := left]> (sessStepStates session))
                                session))))))
  /\ (cur + 1 < len (recipeSteps recipe) ->
      forall next : StepState,
      sessStepStates session !! (cur + 1) = Some next ->
      exists step,
        index (recipeSteps recipe) (cur + 1) = Some step
        /\ let moved :=
             Engine.maybeStartTimer
               (setUpdatedAt now
                  (setStepStates
                     (<[cur + 1 := {| ssStatus := StepActive;
                                      ssStartedAt := now;
                                      ssCompletedAt := ssCompletedAt next |}]>
                        (<[cur := left]> (sessStepStates session)))
                     (setCurrentStepIndex (cur + 1) session)))
               step in
           Engine.leaveStep final e now sessionID
           = (Return step,
              Engine.withStore e
                (Storage.Save (Storage.poke (Engine.store e) sessionID moved)
                              moved))).
Proof.
  intros Hload Hst Hrec Hcur Hstate cur left.
  assert (Hnext : wrap64 (cur + 1) = cur + 1).
  { apply wrap64_id. unfold inInt64, minInt64, maxInt64 in *.
    subst cur. lia. }
  split.
  - intros Hend.
    unfold Engine.leaveStep, Storage.Load, Engine.recipesGet.
    rewrite Hload, Hrec, bool_decide_eq_true_2 by done. cbn [negb].
    rewrite Hstate. fold cur. rewrite Hnext.
    destruct (Z.geb_spec (cur + 1) (len (recipeSteps recipe))); [| lia].
    reflexivity.
  - intros Hin next Hnextst.
    destruct (index_Some_lt (recipeSteps recipe) (cur + 1)) as [step Hstep].
    { subst cur. lia. }
    exists step. split; [done |].
    unfold Engine.leaveStep, Storage.Load, Engine.recipesGet.
    rewrite Hload, Hrec, bool_decide_eq_true_2 by done. cbn [negb].
    rewrite Hstate. fold cur. rewrite Hnext.
    destruct (Z.geb_spec (cur + 1) (len (recipeSteps recipe))); [lia |].
    cbn [sessStepStates setCurrentStepIndex setStepStates].
    rewrite lookup_insert_ne by lia. fold cur in Hnextst. rewrite Hnextst.
    rewrite Hstep. reflexivity.
Qed.

End EngineMore.

Section SkipAndQueries.
Import System EngineQueries.

(** X2: [Skip] fails on a session that is not active, leaving the engine as it
    was.  On an active session it has the outcome of [Advance] (the same
    step or the same [ErrNoMoreSteps]) and stores the same session, except
    that the step that is left gets the status skipped instead of done. *)
Theorem Skip_like_Advance (e : Engine.Engine) (now : Time)
    (sessionID : string) (session : Session) :
  Engine.store e !! sessionID = Some session ->
  (sessStatus session <> SessionActive ->
     Engine.Skip e now sessionID = (Fail ErrSessionNotActive, e))
  /\ (sessStatus session = SessionActive ->
      forall (recipe : Recipe) (current : StepState),
      Engine.recipes e !! sessRecipeID session = Some recipe ->
      0 <= sessCurrentStepIndex session < maxInt64 ->
      sessStepStates session !! sessCurrentStepIndex session = Some current ->
      (sessCurrentStepIndex session + 1 < len (recipeSteps recipe) ->
       is_Some (sessStepStates session !! (sessCurrentStepIndex session + 1))) ->
      let cur := sessCurrentStepIndex session in
      exists skipped advanced,
        (Engine.Skip e now sessionID).1 = (Engine.Advance e now sessionID).1
        /\ (Engine.Skip e now sessionID).1 <> Panic
        /\ Engine.store (Engine.Skip e now sessionID).2 !! sessionID
           = Some skipped
        /\ Engine.store (Engine.Advance e now sessionID).2 !! sessionID
           = Some advanced
        /\ sessStepStates skipped !! cur
           = Some {| ssStatus := StepSkipped;
                     ssStartedAt := ssStartedAt current;
                     ssCompletedAt := now |}
        /\ sessStepStates advanced !! cur
           = Some {| ssStatus := StepDone;
                     ssStartedAt := ssStartedAt current;
                     ssCompletedAt := now |}
        /\ (forall i, i <> cur ->
              sessStepStates skipped !! i = sessStepStates advanced !! i)
        /\ sessStatus skipped = sessStatus advanced
        /\ sessCurrentStepIndex skipped = sessCurrentStepIndex advanced
        /\ sessTimerStates skipped = sessTimerStates advanced
        /\ sessUpdatedAt skipped = now).
Proof.
  intros Hload. split.
  - intros Hst. unfold Engine.Skip, Engine.leaveStep, Storage.Load.
    rewrite Hload. by rewrite bool_decide_eq_false_2.
  - intros Hst recipe current Hrec Hcur Hstate Hnextst cur.
    destruct (leaveStep_moves StepSkipped e now sessionID session recipe
                current Hload Hst Hrec Hcur Hstate) as [Hs1 Hs2].
    destruct (leaveStep_moves StepDone e now sessionID session recipe
                current Hload Hst Hrec Hcur Hstate) as [Ha1 Ha2].
    fold cur in Hs1, Hs2, Ha1, Ha2, Hnextst.
    destruct (Z.le_gt_cases (len (recipeSteps recipe)) (cur + 1))
      as [Hend|Hin].
    + unfold Engine.Skip, Engine.Advance.
      rewrite (Hs1 Hend), (Ha1 Hend).
      cbn [fst snd Engine.store Engine.withStore].
      eexists. eexists. rewrite !put_lookup.
      split; [done |]. split; [done |]. split; [done |]. split; [done |].
      cbn. split; [apply lookup_insert_eq |].
      split; [apply lookup_insert_eq |].
      split; [| done]. intros i Hi. by rewrite !lookup_insert_ne.
    + destruct (Hnextst ltac:(lia)) as [next Hnext].
      destruct (Hs2 ltac:(lia) next Hnext) as (step & Hstep & Hs).
      destruct (Ha2 ltac:(lia) next Hnext) as (step' & Hstep' & Ha).
      simplify_eq. unfold Engine.Skip, Engine.Advance.
      rewrite Hs, Ha. cbn [fst snd Engine.store Engine.withStore].
      eexists. eexists. rewrite !put_lookup.
      split; [done |]. split; [done |]. split; [done |]. split; [done |].
      unfold Engine.maybeStartTimer.
      destruct (stepTimerConfig step); cbn.
      * split; [rewrite lookup_insert_ne by lia; apply lookup_insert_eq |].
        split; [rewrite lookup_insert_ne by lia; apply lookup_insert_eq |].
        split; [| done]. intros i Hi.
        destruct (decide (i = cur + 1)) as [->|Hne].
        -- by rewrite !lookup_insert_eq.
        -- by rewrite !(lookup_insert_ne _ (cur + 1)), !lookup_insert_ne.
      * split; [rewrite lookup_insert_ne by lia; apply lookup_insert_eq |].
        split; [rewrite lookup_insert_ne by lia; apply lookup_insert_eq |].
        split; [| done]. intros i Hi.
        destruct (decide (i = cur + 1)) as [->|Hne].
        -- by rewrite !lookup_insert_eq.
        -- by rewrite !(lookup_insert_ne _ (cur + 1)), !lookup_insert_ne.
Qed.

End SkipAndQueries.

Lemma Skip_like_Advance_witness :
  exists skipped,
    Engine.store (Engine.Skip engineStarted 200 "abc").2 !! "abc"
    = Some skipped
    /\ sessStepStates skipped !! 0
       = Some {| ssStatus := StepSkipped; ssStartedAt := 100;
                 ssCompletedAt := 200 |}.
Proof.
  edestruct (Skip_like_Advance engineStarted 200 "abc") as [_ H].
  { vm_compute. reflexivity. }
  edestruct (H ltac:(vm_compute; reflexivity)
               (sampleRecipe "pasta" pastaSteps)
               {| ssStatus := StepActive; ssStartedAt := 100;
                  ssCompletedAt := 0 |})
    as (skipped & advanced & _ & _ & Hs & _ & Hst & _).
  { vm_compute. reflexivity. }
  { vm_compute. split; [discriminate | reflexivity]. }
  { vm_compute. reflexivity. }
  { intros _. vm_compute. eexists. reflexivity. }
  exists skipped. split; [exact Hs | exact Hst].
Defined.

Section StepQueries.
Import System EngineQueries.




End StepQueries.

Section PendingTimers.
Import System EngineQueries.

Lemma startTimer_not_pending (ts : TimerState) :
  tsStatus (Engine.startTimer ts) <> TimerPending.
Proof.
  unfold Engine.startTimer. case_bool_decide; simpl; [discriminate | done].
Qed.

Lemma startTimer_fixed (ts : TimerState) :
  tsStatus ts <> TimerPending -> Engine.startTimer ts = ts.
Proof.
  intros H. unfold Engine.startTimer. by rewrite bool_decide_eq_false_2.
Qed.

Lemma countPending_none (timers : gmap string TimerState) :
  (forall tid ts, timers !! tid = Some ts -> tsStatus ts <> TimerPending) ->
  Engine.countPending timers = 0.
Proof.
  intros Hall. unfold Engine.countPending.
  replace (filter (fun kv : string * TimerState => tsStatus kv.2 = TimerPending)
                  timers) with (∅ : gmap string TimerState);
    [by rewrite map_size_empty |].
  symmetry. apply map_empty. intros i.
  apply map_lookup_filter_None. right. intros ts Hts. simpl.
  by apply (Hall i).
Qed.

Lemma no_pending_existsb (timers : gmap string TimerState) :
  (forall tid ts, timers !! tid = Some ts -> tsStatus ts <> TimerPending) ->
  existsb (fun kv : string * TimerState =>
             bool_decide (tsStatus kv.2 = TimerPending))
          (map_to_list timers) = false.
Proof.
  intros Hall.
  destruct (existsb _ _) eqn:Hex; [| done].
  apply existsb_exists in Hex as ([tid ts] & Hin & Hp).
  apply list_elem_of_In, elem_of_map_to_list in Hin.
  apply bool_decide_eq_true in Hp. by destruct (Hall tid ts Hin).
Qed.

Lemma setTimerStates_same (s : Session) :
  setTimerStates (sessTimerStates s) s = s.
Proof. by destruct s. Qed.

Lemma withStore_same (e : Engine.Engine) :
  Engine.withStore e (Engine.store e) = e.
Proof. by destruct e. Qed.

(** X4: [StartPendingTimers] checks no session status.  It returns the number
    of pending timers and turns exactly those to running, leaving every
    other timer and every remaining time as they were; after it
    [HasPendingTimers] answers false, and a second call returns 0 and
    leaves the engine as it is. *)
Theorem StartPendingTimers_idempotent (e : Engine.Engine) (t1 t2 : Time)
    (sessionID : string) (session : Session) :
  Engine.store e !! sessionID = Some session ->
  let first := Engine.StartPendingTimers e t1 sessionID in
  first.1 = Return (Engine.countPending (sessTimerStates session))
  /\ (exists s1,
        Engine.store first.2 !! sessionID = Some s1
        /\ sessStatus s1 = sessStatus session
        /\ (forall tid, sessTimerStates session !! tid = None ->
                        sessTimerStates s1 !! tid = None)
        /\ (forall tid ts, sessTimerStates session !! tid = Some ts ->
              exists ts1,
                sessTimerStates s1 !! tid = Some ts1
                /\ tsRemaining ts1 = tsRemaining ts
                /\ (tsStatus ts = TimerPending ->
                    ts1 = setTimerStatus TimerRunning ts)
                /\ (tsStatus ts <> TimerPending -> ts1 = ts)))
  /\ HasPendingTimers first.2 sessionID = Return false
  /\ Engine.StartPendingTimers first.2 t2 sessionID = (Return 0, first.2).
Proof.
  intros Hload first.
  set (started := setTimerStates
                    (Engine.startTimer <$> sessTimerStates session) session).
  assert (Hs1 : exists s1,
            first.1 = Return (Engine.countPending (sessTimerStates session))
            /\ Engine.store first.2 !! sessionID = Some s1
            /\ sessStatus s1 = sessStatus session
            /\ sessTimerStates s1
               = Engine.startTimer <$> sessTimerStates session).
  { unfold first, Engine.StartPendingTimers, Storage.Load. rewrite Hload.
    fold started. case_match; cbn [fst snd Engine.store Engine.withStore].
    - exists (setUpdatedAt t1 started). rewrite put_lookup. by repeat split.
    - exists started. unfold Storage.poke. rewrite lookup_insert_eq.
      by repeat split. }
  destruct Hs1 as (s1 & Hret & Hl1 & Hst1 & Ht1).
  assert (Hnone : forall tid ts, sessTimerStates s1 !! tid = Some ts ->
                                 tsStatus ts <> TimerPending).
  { intros tid ts. rewrite Ht1, lookup_fmap.
    destruct (sessTimerStates session !! tid); [| done].
    intros [= <-]. apply startTimer_not_pending. }
  split; [done |]. split; [| split].
  - exists s1. split; [done |]. split; [done |]. split.
    + intros tid Hn. by rewrite Ht1, lookup_fmap, Hn.
    + intros tid ts Hts. exists (Engine.startTimer ts).
      rewrite Ht1, lookup_fmap, Hts. split; [done |].
      unfold Engine.startTimer. case_bool_decide; simpl; by repeat split.
  - unfold HasPendingTimers, Storage.Load. rewrite Hl1.
    by rewrite no_pending_existsb.
  - unfold Engine.StartPendingTimers, Storage.Load. rewrite Hl1.
    rewrite (countPending_none _ Hnone). cbn [Z.ltb Z.compare].
    assert (Hfix : Engine.startTimer <$> sessTimerStates s1
                   = sessTimerStates s1).
    { apply map_eq. intros tid. rewrite lookup_fmap.
      destruct (sessTimerStates s1 !! tid) as [ts|] eqn:Hts; [| done].
      simpl. f_equal. apply startTimer_fixed. by eapply Hnone. }
    rewrite Hfix, setTimerStates_same. unfold Storage.poke.
    rewrite insert_id by done. by rewrite withStore_same.
Qed.

Lemma StartPendingTimers_idempotent_witness :
  (Engine.StartPendingTimers engineStarted 110 "abc").1 = Return 1
  /\ Engine.StartPendingTimers engineRunning 120 "abc"
     = (Return 0, engineRunning).
Proof.
  eassert (Hs : Engine.store engineStarted !! "abc" = Some _)
    by (vm_compute; reflexivity).
  match type of Hs with
  | _ = Some ?session =>
      destruct (StartPendingTimers_idempotent engineStarted 110 120 "abc"
                  session Hs) as (H1 & _ & _ & H4)
  end.
  split; [| exact H4]. rewrite H1. vm_compute. reflexivity.
Defined.

End PendingTimers.

Section Dismissal.
Import System EngineQueries.

(** X5: [DismissTimer] refuses a timer ID the session does not have, and a
    timer that is pending, paused or already dismissed; the engine stays
    as it was. *)
Theorem DismissTimer_refuses (e : Engine.Engine) (now : Time)
    (sessionID timerID : string) (session : Session) :
  Engine.store e !! sessionID = Some session ->
  (sessTimerStates session !! timerID = None ->
   Engine.DismissTimer e now sessionID timerID
   = (Fail (ErrTimerNotFound timerID), e))
  /\ (forall ts, sessTimerStates session !! timerID = Some ts ->
        tsStatus ts = TimerPending \/ tsStatus ts = TimerPaused
        \/ tsStatus ts = TimerDismissed ->
        Engine.DismissTimer e now sessionID timerID
        = (Fail (ErrTimerCannotDismiss timerID (tsStatus ts)), e)).
Proof.
  intros Hload. unfold Engine.DismissTimer, Storage.Load. rewrite Hload.
  split.
  - by intros ->.
  - intros ts -> Hst. by destruct Hst as [-> | [-> | ->]].
Qed.

Lemma DismissTimer_refuses_witness :
  Engine.DismissTimer engineStarted 120 "abc" "timer-s1"
  = (Fail (ErrTimerCannotDismiss "timer-s1" TimerPending), engineStarted)
  /\ Engine.DismissTimer engineStarted 120 "abc" "timer-s9"
     = (Fail (ErrTimerNotFound "timer-s9"), engineStarted).
Proof.
  eassert (Hs : Engine.store engineStarted !! "abc" = Some _)
    by (vm_compute; reflexivity).
  match type of Hs with
  | _ = Some ?session =>
      destruct (DismissTimer_refuses engineStarted 120 "abc" "timer-s1"
                  session Hs) as [_ H1];
      destruct (DismissTimer_refuses engineStarted 120 "abc" "timer-s9"
                  session Hs) as [H2 _]
  end.
  split.
  - refine (H1 (sampleTimer "Pasta" (3 * Second) TimerPending 0) _ _).
    + vm_compute. reflexivity.
    + left. reflexivity.
  - apply H2. vm_compute. reflexivity.
Defined.

(** X6: a successful [DismissTimer] touches nothing but the status of that one
    timer and the session's [UpdatedAt]; it checks no session status; and
    dismissing the same timer again is refused. *)
Theorem DismissTimer_once (e : Engine.Engine) (t1 t2 : Time)
    (sessionID timerID : string) (session : Session) (ts : TimerState) :
  Engine.store e !! sessionID = Some session ->
  sessTimerStates session !! timerID = Some ts ->
  tsStatus ts = TimerRunning \/ tsStatus ts = TimerFired ->
  let first := Engine.DismissTimer e t1 sessionID timerID in
  exists s1,
    first.1 = Return tt
    /\ Engine.store first.2 !! sessionID = Some s1
    /\ s1 = setUpdatedAt t1
              (setTimerStates
                 (<[timerID := setTimerStatus TimerDismissed ts]>
                    (sessTimerStates session))
                 session)
    /\ (forall tid, tid <> timerID ->
          sessTimerStates s1 !! tid = sessTimerStates session !! tid)
    /\ Engine.DismissTimer first.2 t2 sessionID timerID
       = (Fail (ErrTimerCannotDismiss timerID TimerDismissed), first.2).
Proof.
  intros Hload Hts Hst first.
  assert (Hgo : negb (bool_decide (tsStatus ts = TimerRunning))
                && negb (bool_decide (tsStatus ts = TimerFired)) = false).
  { destruct Hst as [-> | ->]; reflexivity. }
  set (s1 := setUpdatedAt t1
               (setTimerStates
                  (<[timerID := setTimerStatus TimerDismissed ts]>
                     (sessTimerStates session))
                  session)).
  assert (Hfirst : first = (Return tt,
            Engine.withStore e
              (Storage.Save (Storage.poke (Engine.store e) sessionID s1) s1))).
  { unfold first, Engine.DismissTimer, Storage.Load.
    by rewrite Hload, Hts, Hgo. }
  exists s1. rewrite Hfirst. cbn [fst snd Engine.store Engine.withStore].
  split; [done |]. split; [apply put_lookup |]. split; [done |].
  split.
  - intros tid Hne. subst s1. cbn. by rewrite lookup_insert_ne.
  - unfold Engine.DismissTimer, Storage.Load.
    cbn [Engine.store Engine.withStore]. rewrite put_lookup.
    subst s1. cbn [sessTimerStates setUpdatedAt setTimerStates].
    rewrite lookup_insert_eq. reflexivity.
Qed.

Lemma DismissTimer_once_witness :
  Engine.DismissTimer engineDismissed 130 "abc" "timer-s1"
  = (Fail (ErrTimerCannotDismiss "timer-s1" TimerDismissed), engineDismissed).
Proof.
  eassert (Hs : Engine.store engineRunning !! "abc" = Some _)
    by (vm_compute; reflexivity).
  match type of Hs with
  | _ = Some ?session =>
      eassert (Hts : sessTimerStates session !! "timer-s1" = Some _)
        by (vm_compute; reflexivity);
      match type of Hts with
      | _ = Some ?ts =>
          destruct (DismissTimer_once engineRunning 120 130 "abc" "timer-s1"
                      session ts Hs Hts ltac:(left; reflexivity))
            as (s1 & _ & _ & _ & _ & H)
      end
  end.
  exact H.
Defined.

End Dismissal.

Section SupervisorMore.
Import Timer System.

(** X8: the supervisor leaves alone every session that is not active (paused,
    completed or abandoned): [processSession] returns it unchanged with no
    notifier call and nothing to save, whatever the number of ticks, and
    [tick] keeps it in the store as it is.  In particular the timers of a
    paused session do not count down. *)
Theorem supervisor_skips_inactive (s : Supervisor) (now : Time)
    (nows : list Time) (session : Session) :
  sessStatus session <> SessionActive ->
  processSession s now session
  = {| pSession := session; pNotes := []; pChanged := false |}
  /\ ticks s nows session = (session, [])
  /\ (forall (st : gmap string Session) (sid : string),
        st !! sid = Some session -> (tick s now st).1 !! sid = Some session).
Proof.
  intros Hst.
  assert (Hp : forall t, processSession s t session
               = {| pSession := session; pNotes := []; pChanged := false |}).
  { intros t. unfold processSession. by rewrite bool_decide_eq_false_2. }
  split; [apply Hp |]. split.
  - induction nows as [|t rest IH]; [done |].
    cbn [ticks]. rewrite Hp. cbn [pSession pNotes]. by rewrite IH.
  - intros st sid Hl. unfold tick. cbn [fst]. rewrite lookup_fmap, Hl.
    cbn. f_equal. unfold tickSession. case_match; [| done]. by rewrite Hp.
Qed.

Lemma supervisor_skips_inactive_witness :
  exists paused,
    Engine.store (Engine.Pause engineRunning 130 "abc").2 !! "abc"
    = Some paused
    /\ ticks New (every 1000 Second 5) paused = (paused, []).
Proof.
  eassert (Hs : Engine.store (Engine.Pause engineRunning 130 "abc").2
                !! "abc" = Some _)
    by (vm_compute; reflexivity).
  match type of Hs with
  | _ = Some ?session =>
      destruct (supervisor_skips_inactive New 0 (every 1000 Second 5) session)
        as (_ & H & _)
  end.
  - vm_compute. discriminate.
  - eexists. split; [exact Hs | exact H].
Defined.

Lemma visits_idle (s : Supervisor) (nows : list Time) (ts : TimerState) :
  tsStatus ts <> TimerRunning -> tsStatus ts <> TimerFired ->
  visits s nows ts = (ts, []).
Proof.
  intros Hr Hf. induction nows as [|now rest IH]; [done |].
  assert (Hv : visit s now ts = ts /\ visitNotes s now ts = []).
  { unfold visit, visitNotes. rewrite countdown_not_running by done.
    cbn [vTimer vNotes]. by rewrite followUp_not_fired. }
  destruct Hv as [Hv Hn]. cbn [visits]. by rewrite Hv, Hn, IH.
Qed.

(** X9: ticks never touch a timer that is pending, paused or dismissed, even in
    an active session: it stays exactly as it is (a pending timer does not
    count down before it is started) and no notifier call is made for it
    (a dismissed timer is never announced again). *)
Theorem idle_timers_untouched (s : Supervisor) (nows : list Time)
    (session : Session) (tid : string) (ts : TimerState) :
  sessStatus session = SessionActive ->
  sessTimerStates session !! tid = Some ts ->
  tsStatus ts = TimerPending \/ tsStatus ts = TimerPaused
  \/ tsStatus ts = TimerDismissed ->
  sessTimerStates (ticks s nows session).1 !! tid = Some ts
  /\ notesFor tid (ticks s nows session).2 = [].
Proof.
  intros Hact Hts Hst.
  destruct (ticks_timer s nows session tid ts Hact Hts) as (H1 & H2 & _).
  rewrite H1, H2, visits_idle; [done | |];
    destruct Hst as [-> | [-> | ->]]; discriminate.
Qed.

Lemma idle_timers_untouched_witness :
  exists session ts,
    Engine.store engineDismissed !! "abc" = Some session
    /\ sessTimerStates session !! "timer-s1" = Some ts
    /\ sessTimerStates (ticks New (every 1000 Second 90) session).1
         !! "timer-s1" = Some ts
    /\ notesFor "timer-s1" (ticks New (every 1000 Second 90) session).2 = [].
Proof.
  eassert (Hs : Engine.store engineDismissed !! "abc" = Some _)
    by (vm_compute; reflexivity).
  match type of Hs with
  | _ = Some ?session =>
      eassert (Hts : sessTimerStates session !! "timer-s1" = Some _)
        by (vm_compute; reflexivity);
      match type of Hts with
      | _ = Some ?ts =>
          destruct (idle_timers_untouched New (every 1000 Second 90)
                      session "timer-s1" ts) as [H1 H2]
      end
  end.
  - vm_compute. reflexivity.
  - exact Hts.
  - right. right. vm_compute. reflexivity.
  - eexists. eexists. split; [exact Hs |]. split; [exact Hts |].
    split; [exact H1 | exact H2].
Defined.

Lemma followUp_at_most_one (s : Supervisor) (now : Time) (ts : TimerState) :
  (length (vNotes (followUp s now ts)) <= 1)%nat.
Proof. unfold followUp. repeat case_match; simpl; lia. Qed.

Lemma countdown_running_shape (s : Supervisor) (now : Time) (ts : TimerState) :
  tsStatus ts = TimerRunning ->
  (length (vNotes (countdown s now ts)) <= 1)%nat
  /\ (tsStatus (vTimer (countdown s now ts)) = TimerRunning
      \/ tsLastNotified (vTimer (countdown s now ts)) = now).
Proof.
  intros Hrun. unfold countdown. rewrite bool_decide_eq_true_2 by done.
  cbn [negb]. repeat case_match; simpl; (split; [lia |]); auto.
Qed.

(** X10: with a positive cooldown, a tick at an instant other than the zero
    time makes at most one notifier call for any one timer: a timer that
    fires is not escalated on the same tick. *)
Theorem one_note_per_timer_per_tick (s : Supervisor) (now : Time)
    (session : Session) (tid : string) (ts : TimerState) :
  0 < notifyCooldown s ->
  now <> 0 ->
  sessStatus session = SessionActive ->
  sessTimerStates session !! tid = Some ts ->
  (length (filter (fun x : string * Notification => x.1 = tid)
                  (pNotes (processSession s now session))) <= 1)%nat.
Proof.
  intros Hcool Hnow Hact Hts.
  destruct (processSession_active s now session Hact) as (_ & _ & Hn).
  rewrite (Hn tid ts Hts), length_fmap. unfold visitNotes.
  rewrite length_app.
  destruct (decide (tsStatus ts = TimerRunning)) as [Hrun|Hnot].
  - destruct (countdown_running_shape s now ts Hrun) as [Hle [Hstill|Hlast]].
    + rewrite followUp_not_fired by (rewrite Hstill; discriminate).
      simpl. lia.
    + rewrite (followUp_just_notified s Hcool) by done. simpl. lia.
  - rewrite countdown_not_running by done. cbn [vTimer vNotes length].
    pose proof (followUp_at_most_one s now ts). lia.
Qed.

Lemma one_note_per_timer_per_tick_witness :
  exists session,
    Engine.store engineEgg !! "egg1" = Some session
    /\ (length (filter (fun x : string * Notification => x.1 = "timer-e1")
                  (pNotes (processSession New 1000%Z session))) <= 1)%nat.
Proof.
  eassert (Hs : Engine.store engineEgg !! "egg1" = Some _)
    by (vm_compute; reflexivity).
  match type of Hs with
  | _ = Some ?session =>
      eassert (Hts : sessTimerStates session !! "timer-e1" = Some _)
        by (vm_compute; reflexivity);
      match type of Hts with
      | _ = Some ?ts =>
          pose proof (one_note_per_timer_per_tick New 1000 session
                        "timer-e1" ts) as H
      end
  end.
  eexists. split; [exact Hs |]. apply H.
  - vm_compute. reflexivity.
  - discriminate.
  - vm_compute. reflexivity.
  - exact Hts.
Defined.

End SupervisorMore.


Section Finished.
Import Timer System Shape.

Ltac frame_op Hinv sid' :=
  unfold Storage.Load;
  let s0 := fresh "s0" in
  let Hs0 := fresh "Hs0" in
  destruct (Engine.store _ !! sid') as [s0|] eqn:Hs0; [| done];
  let Hid := fresh "Hid" in
  destruct (Hinv sid' s0 Hs0) as [Hid _];
  unfold Engine.recipesGet;
  repeat case_match; try done;
  cbn [snd Engine.store Engine.withStore];
  unfold Storage.Save, Storage.poke;
  rewrite ?maybeStartTimer_id;
  cbn [sessID setUpdatedAt setStatus setStepStates setTimerStates
       setCurrentStepIndex];
  rewrite ?lookup_insert_ne by congruence; done.

Lemma leaveStep_frame final e now sid' sid :
  storeInv (Engine.store e) -> sid' <> sid ->
  Engine.store (Engine.leaveStep final e now sid').2 !! sid
  = Engine.store e !! sid.
Proof. intros Hinv Hne. unfold Engine.leaveStep. frame_op Hinv sid'. Qed.

Lemma Pause_frame e now sid' sid :
  storeInv (Engine.store e) -> sid' <> sid ->
  Engine.store (Engine.Pause e now sid').2 !! sid = Engine.store e !! sid.
Proof. intros Hinv Hne. unfold Engine.Pause. frame_op Hinv sid'. Qed.

Lemma Resume_frame e now sid' sid :
  storeInv (Engine.store e) -> sid' <> sid ->
  Engine.store (Engine.Resume e now sid').2 !! sid = Engine.store e !! sid.
Proof. intros Hinv Hne. unfold Engine.Resume. frame_op Hinv sid'. Qed.

Lemma Abandon_frame e now sid' sid :
  storeInv (Engine.store e) -> sid' <> sid ->
  Engine.store (Engine.Abandon e now sid').2 !! sid = Engine.store e !! sid.
Proof. intros Hinv Hne. unfold Engine.Abandon. frame_op Hinv sid'. Qed.

Lemma StartPendingTimers_frame e now sid' sid :
  storeInv (Engine.store e) -> sid' <> sid ->
  Engine.store (Engine.StartPendingTimers e now sid').2 !! sid
  = Engine.store e !! sid.
Proof.
  intros Hinv Hne. unfold Engine.StartPendingTimers. frame_op Hinv sid'.
Qed.

Lemma DismissTimer_frame e now sid' tid sid :
  storeInv (Engine.store e) -> sid' <> sid ->
  Engine.store (Engine.DismissTimer e now sid' tid).2 !! sid
  = Engine.store e !! sid.
Proof.
  intros Hinv Hne. unfold Engine.DismissTimer. frame_op Hinv sid'.
Qed.

Lemma StartSession_frame e newID t1 t2 t3 rid n sid :
  newID <> sid ->
  Engine.store (Engine.StartSession e newID t1 t2 t3 rid n).2 !! sid
  = Engine.store e !! sid.
Proof.
  intros Hne. unfold Engine.StartSession, Engine.recipesGet.
  destruct (Engine.recipes e !! rid) as [recipe|]; [| done].
  cbn [sessStepStates].
  destruct (Engine.initStepStates (recipeSteps recipe) !! 0); [| done].
  destruct (index (recipeSteps recipe) 0) as [step0|]; [| done].
  cbn [snd Engine.store Engine.withStore]. unfold Storage.Save.
  rewrite maybeStartTimer_id. cbn [sessID setStepStates].
  by rewrite lookup_insert_ne.
Qed.

Lemma tick_lookup (s : Supervisor) (now : Time) (st : gmap string Session)
    (sid : string) :
  (tick s now st).1 !! sid = tickSession s now <$> st !! sid.
Proof. unfold tick. cbn [fst]. apply lookup_fmap. Qed.

Lemma exec_store_lookup (e e' : Engine.Engine) (op : Op) (sid : string) :
  exec op e = Some e' ->
  Engine.store e' !! sid
  = match op with
    | OpStartSession newID t1 t2 t3 rid n =>
        Engine.store (Engine.StartSession e newID t1 t2 t3 rid n).2 !! sid
    | OpAdvance now k => Engine.store (Engine.Advance e now k).2 !! sid
    | OpSkip now k => Engine.store (Engine.Skip e now k).2 !! sid
    | OpPause now k => Engine.store (Engine.Pause e now k).2 !! sid
    | OpResume now k => Engine.store (Engine.Resume e now k).2 !! sid
    | OpAbandon now k => Engine.store (Engine.Abandon e now k).2 !! sid
    | OpStartPendingTimers now k =>
        Engine.store (Engine.StartPendingTimers e now k).2 !! sid
    | OpDismissTimer now k tid =>
        Engine.store (Engine.DismissTimer e now k tid).2 !! sid
    | OpUpdateRecipe _ => Engine.store e !! sid
    | OpMutateRecipe _ _ => Engine.store e !! sid
    | OpTick s now => tickSession s now <$> Engine.store e !! sid
    end.
Proof.
  destruct op; cbn [exec]; unfold after;
    try (match goal with
         | |- match fst ?r with _ => _ end = Some _ -> _ => destruct (fst r)
         end);
    intros [= <-]; try done.
  - unfold Engine.UpdateRecipe. by case_match.
  - unfold Engine.UpdateRecipe. by case_match.
  - unfold mutateRecipe. by case_match.
  - cbn [Engine.store Engine.withStore]. apply tick_lookup.
Qed.

(** X13: a completed or abandoned session is never revived: whatever operation
    or tick comes next (short of a new session being started under the
    very same ID), it is still stored, completed or abandoned, with its
    steps and its current index as they were. *)
Theorem finished_stays_finished (e e' : Engine.Engine) (op : Op)
    (sid : string) (session : Session) :
  Reachable e ->
  Engine.store e !! sid = Some session ->
  finished (sessStatus session) ->
  keepsID sid op ->
  exec op e = Some e' ->
  exists session',
    Engine.store e' !! sid = Some session'
    /\ finished (sessStatus session')
    /\ sessStepStates session' = sessStepStates session
    /\ sessCurrentStepIndex session' = sessCurrentStepIndex session.
Proof.
  intros Hreach Hs Hfin Hkeep Hexec.
  pose proof (Reachable_storeInv e Hreach) as Hinv.
  assert (Hna : sessStatus session <> SessionActive)
    by (destruct Hfin as [-> | ->]; discriminate).
  assert (Hnp : sessStatus session <> SessionPaused)
    by (destruct Hfin as [-> | ->]; discriminate).
  rewrite (exec_store_lookup e e' op sid Hexec). clear Hexec.
  destruct op as [newID t1 t2 t3 rid n|now k|now k|now k|now k|now k|now k
                 |now k tid|r|rid r|s now]; cbn [keepsID] in Hkeep.
  - rewrite StartSession_frame by done. by exists session.
  - destruct (decide (k = sid)) as [->|Hne].
    + unfold Engine.Advance, Engine.leaveStep, Storage.Load.
      rewrite Hs, bool_decide_eq_false_2 by done. by exists session.
    + unfold Engine.Advance. rewrite leaveStep_frame by done.
      by exists session.
  - destruct (decide (k = sid)) as [->|Hne].
    + unfold Engine.Skip, Engine.leaveStep, Storage.Load.
      rewrite Hs, bool_decide_eq_false_2 by done. by exists session.
    + unfold Engine.Skip. rewrite leaveStep_frame by done.
      by exists session.
  - destruct (decide (k = sid)) as [->|Hne].
    + unfold Engine.Pause, Storage.Load.
      rewrite Hs, bool_decide_eq_false_2 by done. by exists session.
    + rewrite Pause_frame by done. by exists session.
  - destruct (decide (k = sid)) as [->|Hne].
    + unfold Engine.Resume, Storage.Load.
      rewrite Hs, bool_decide_eq_false_2 by done. by exists session.
    + rewrite Resume_frame by done. by exists session.
  - destruct (decide (k = sid)) as [->|Hne].
    + unfold Engine.Abandon, Storage.Load. rewrite Hs.
      cbn [snd Engine.store Engine.withStore]. rewrite put_lookup.
      eexists. split; [done |]. split; [by right | done].
    + rewrite Abandon_frame by done. by exists session.
  - destruct (decide (k = sid)) as [->|Hne].
    + unfold Engine.StartPendingTimers, Storage.Load. rewrite Hs.
      case_match; cbn [snd Engine.store Engine.withStore].
      * rewrite put_lookup. eexists. by repeat split.
      * unfold Storage.poke. rewrite lookup_insert_eq. eexists.
        by repeat split.
    + rewrite StartPendingTimers_frame by done. by exists session.
  - destruct (decide (k = sid)) as [->|Hne].
    + unfold Engine.DismissTimer, Storage.Load. rewrite Hs.
      repeat case_match; cbn [snd Engine.store Engine.withStore];
        try (by exists session).
      rewrite put_lookup. eexists. by repeat split.
    + rewrite DismissTimer_frame by done. by exists session.
  - by exists session.
  - by exists session.
  - rewrite Hs. cbn. exists session. split; [| done].
    unfold tickSession, Storage.isListed.
    by rewrite !bool_decide_eq_false_2.
Qed.

Lemma finished_stays_finished_witness :
  exists session',
    Engine.store (Engine.Resume (Engine.Abandon engineRunning 130 "abc").2
                    140 "abc").2 !! "abc" = Some session'
    /\ finished (sessStatus session').
Proof.
  eassert (Hs : Engine.store (Engine.Abandon engineRunning 130 "abc").2
                !! "abc" = Some _)
    by (vm_compute; reflexivity).
  match type of Hs with
  | _ = Some ?session =>
      destruct (finished_stays_finished
                  (Engine.Abandon engineRunning 130 "abc").2
                  (Engine.Resume (Engine.Abandon engineRunning 130 "abc").2
                     140 "abc").2
                  (OpResume 140 "abc") "abc" session)
        as (session' & H1 & H2 & _)
  end.
  - apply (Reachable_exec engineRunning (OpAbandon 130 "abc"));
      [apply Reachable_engines | vm_compute; reflexivity].
  - exact Hs.
  - right. vm_compute. reflexivity.
  - exact I.
  - vm_compute. reflexivity.
  - exists session'. split; [exact H1 | exact H2].
Defined.

End Finished.

Section ActiveStep.
Import Timer System Shape.

Lemma after_Some {A} (r : Outcome error A * Engine.Engine) (e' : Engine.Engine) :
  after r = Some e' -> r.1 <> Panic /\ e' = r.2.
Proof.
  unfold after. destruct r as [[a|err|] e2]; cbn; intros [= <-]; done.
Qed.

Lemma stepInv_same (s s' : Session) :
  sessStatus s' = sessStatus s ->
  sessStepStates s' = sessStepStates s ->
  sessCurrentStepIndex s' = sessCurrentStepIndex s ->
  stepInv s -> stepInv s'.
Proof. unfold stepInv. intros -> -> ->. done. Qed.

Lemma stepInv_abandoned (s : Session) :
  sessStatus s = SessionAbandoned -> stepInv s.
Proof. unfold stepInv. intros ->. split; [intros [|] | intros]; done. Qed.

Lemma tickSession_same (s : Supervisor) (now : Time) (session : Session) :
  sessStatus (tickSession s now session) = sessStatus session
  /\ sessStepStates (tickSession s now session) = sessStepStates session
  /\ sessCurrentStepIndex (tickSession s now session)
     = sessCurrentStepIndex session.
Proof.
  unfold tickSession, processSession. by repeat case_match.
Qed.

Lemma maybeStartTimer_steps (s : Session) (step : Step) :
  sessStatus (Engine.maybeStartTimer s step) = sessStatus s
  /\ sessStepStates (Engine.maybeStartTimer s step) = sessStepStates s
  /\ sessCurrentStepIndex (Engine.maybeStartTimer s step)
     = sessCurrentStepIndex s.
Proof. unfold Engine.maybeStartTimer. by case_match. Qed.

Lemma leaveStep_stepInv (final : StepStatus) (e e' : Engine.Engine)
    (now : Time) (k sid : string) (s' : Session) :
  final <> StepActive ->
  storeInv (Engine.store e) ->
  (forall i s, Engine.store e !! i = Some s -> stepInv s) ->
  after (Engine.leaveStep final e now k) = Some e' ->
  Engine.store e' !! sid = Some s' -> stepInv s'.
Proof.
  intros Hfinal Hinv Hall [Hnp ->]%after_Some.
  destruct (decide (k = sid)) as [->|Hne];
    [| rewrite leaveStep_frame by done; apply Hall].
  revert Hnp. unfold Engine.leaveStep, Storage.Load.
  destruct (Engine.store e !! sid) as [s|] eqn:Hs; [| intros _; apply Hall].
  case_bool_decide as Hact; cbn [negb]; [| intros _; apply Hall].
  unfold Engine.recipesGet.
  destruct (Engine.recipes e !! sessRecipeID s) as [recipe|];
    [| intros _; apply Hall].
  destruct (sessStepStates s !! sessCurrentStepIndex s) as [current|] eqn:Hcur;
    [| intros _; apply Hall].
  destruct (Hall sid s Hs) as [Hone _].
  destruct (Hone ltac:(by left)) as [_ Huniq].
  set (cur := sessCurrentStepIndex s) in *.
  set (next := wrap64 (cur + 1)) in *.
  destruct (next >=? len (recipeSteps recipe)).
  - intros _. cbn [snd Engine.store Engine.withStore]. rewrite put_lookup.
    intros [= <-]. split; [intros [|]; done |].
    intros _ i st. cbn [sessStepStates setUpdatedAt setStatus setStepStates].
    rewrite lookup_insert. case_decide as Hi.
    + intros [= <-]. done.
    + intros Hst Hactive. by destruct Hi; symmetry; eapply Huniq.
  - cbn [sessStepStates setCurrentStepIndex setStepStates].
    destruct (<[cur := _]> (sessStepStates s) !! next) as [nx|] eqn:Hnx;
      [| done].
    destruct (index (recipeSteps recipe) next) as [step|]; [| done].
    intros _. cbn [snd Engine.store Engine.withStore]. rewrite put_lookup.
    intros [= <-].
    match goal with
    | |- stepInv (Engine.maybeStartTimer ?s0 ?st0) =>
        destruct (maybeStartTimer_steps s0 st0) as (E1 & E2 & E3)
    end.
    unfold stepInv. rewrite E1, E2, E3.
    cbn [sessStatus sessStepStates sessCurrentStepIndex setUpdatedAt
         setStepStates setCurrentStepIndex].
    split; [| by rewrite Hact].
    intros _. split.
    + eexists. by rewrite lookup_insert_eq.
    + intros i st. rewrite lookup_insert. case_decide as Hi; [done |].
      rewrite lookup_insert. case_decide as Hi2.
      * intros [= <-]. done.
      * intros Hst Hactive. by destruct Hi2; symmetry; eapply Huniq.
Qed.

Lemma StartSession_stepInv (e : Engine.Engine) newID t1 t2 t3 rid n
    (sid : string) (s' : Session) :
  (forall i s, Engine.store e !! i = Some s -> stepInv s) ->
  Engine.store (Engine.StartSession e newID t1 t2 t3 rid n).2 !! sid = Some s' ->
  stepInv s'.
Proof.
  intros Hall. unfold Engine.StartSession, Engine.recipesGet.
  destruct (Engine.recipes e !! rid) as [recipe|]; [| apply Hall].
  cbn [sessStepStates].
  destruct (Engine.initStepStates (recipeSteps recipe) !! 0) as [st0|] eqn:H0;
    [| apply Hall].
  destruct (index (recipeSteps recipe) 0) as [step0|]; [| apply Hall].
  cbn [snd Engine.store Engine.withStore]. unfold Storage.Save.
  rewrite lookup_insert. case_decide; [| apply Hall].
  intros [= <-].
  match goal with
  | |- stepInv (Engine.maybeStartTimer ?s ?st) =>
      destruct (maybeStartTimer_steps s st) as (E1 & E2 & E3)
  end.
  unfold stepInv. rewrite E1, E2, E3.
  cbn [sessStatus sessStepStates sessCurrentStepIndex setStepStates].
  split; [| done]. intros _. split.
  - eexists. by rewrite lookup_insert_eq.
  - intros i st. rewrite lookup_insert. case_decide; [done |].
    rewrite initStepStates_lookup. case_decide; [| done].
    by intros [= <-].
Qed.

Lemma exec_stepInv (e e' : Engine.Engine) (op : Op) :
  storeInv (Engine.store e) ->
  (forall i s, Engine.store e !! i = Some s -> stepInv s) ->
  exec op e = Some e' ->
  forall sid s', Engine.store e' !! sid = Some s' -> stepInv s'.
Proof.
  intros Hinv Hall Hexec sid s'.
  destruct op as [newID t1 t2 t3 rid n|now k|now k|now k|now k|now k|now k
                 |now k tid|r|rid r|s now].
  - rewrite (exec_store_lookup _ _ _ sid Hexec). by apply StartSession_stepInv.
  - by apply (leaveStep_stepInv StepDone e e' now k).
  - by apply (leaveStep_stepInv StepSkipped e e' now k).
  - rewrite (exec_store_lookup _ _ _ sid Hexec).
    destruct (decide (k = sid)) as [->|Hne];
      [| rewrite Pause_frame by done; apply Hall].
    unfold Engine.Pause, Storage.Load.
    destruct (Engine.store e !! sid) as [s|] eqn:Hs; [| apply Hall].
    case_bool_decide as Hact; cbn [negb]; [| apply Hall].
    cbn [snd Engine.store Engine.withStore]. rewrite put_lookup.
    intros [= <-]. destruct (Hall sid s Hs) as [Hone _].
    specialize (Hone ltac:(by left)).
    split; [done | intros; done].
  - rewrite (exec_store_lookup _ _ _ sid Hexec).
    destruct (decide (k = sid)) as [->|Hne];
      [| rewrite Resume_frame by done; apply Hall].
    unfold Engine.Resume, Storage.Load.
    destruct (Engine.store e !! sid) as [s|] eqn:Hs; [| apply Hall].
    case_bool_decide as Hp; cbn [negb]; [| apply Hall].
    cbn [snd Engine.store Engine.withStore]. rewrite put_lookup.
    intros [= <-]. destruct (Hall sid s Hs) as [Hone _].
    specialize (Hone ltac:(by right)).
    split; [done | intros; done].
  - rewrite (exec_store_lookup _ _ _ sid Hexec).
    destruct (decide (k = sid)) as [->|Hne];
      [| rewrite Abandon_frame by done; apply Hall].
    unfold Engine.Abandon, Storage.Load.
    destruct (Engine.store e !! sid) as [s|] eqn:Hs; [| apply Hall].
    cbn [snd Engine.store Engine.withStore]. rewrite put_lookup.
    intros [= <-]. by apply stepInv_abandoned.
  - rewrite (exec_store_lookup _ _ _ sid Hexec).
    destruct (decide (k = sid)) as [->|Hne];
      [| rewrite StartPendingTimers_frame by done; apply Hall].
    unfold Engine.StartPendingTimers, Storage.Load.
    destruct (Engine.store e !! sid) as [s|] eqn:Hs; [| apply Hall].
    case_match; cbn [snd Engine.store Engine.withStore].
    + rewrite put_lookup. intros [= <-].
      by apply (stepInv_same s); [| | | eapply Hall].
    + unfold Storage.poke. rewrite lookup_insert_eq. intros [= <-].
      by apply (stepInv_same s); [| | | eapply Hall].
  - rewrite (exec_store_lookup _ _ _ sid Hexec).
    destruct (decide (k = sid)) as [->|Hne];
      [| rewrite DismissTimer_frame by done; apply Hall].
    unfold Engine.DismissTimer, Storage.Load.
    destruct (Engine.store e !! sid) as [s|] eqn:Hs; [| apply Hall].
    repeat case_match; cbn [snd Engine.store Engine.withStore];
      try apply Hall.
    rewrite put_lookup. intros [= <-].
    by apply (stepInv_same s); [| | | eapply Hall].
  - rewrite (exec_store_lookup _ _ _ sid Hexec). apply Hall.
  - rewrite (exec_store_lookup _ _ _ sid Hexec). apply Hall.
  - rewrite (exec_store_lookup _ _ _ sid Hexec).
    destruct (Engine.store e !! sid) as [s0|] eqn:Hs; [| done].
    cbn. intros [= <-].
    destruct (tickSession_same s now s0) as (E1 & E2 & E3).
    by apply (stepInv_same s0); [| | | eapply Hall].
Qed.

(** X14: in every reachable engine, each active or paused session has exactly
    one active step, the one at its current index, and a completed session
    has none. *)
Theorem one_active_step (e : Engine.Engine) (sid : string) (session : Session) :
  Reachable e ->
  Engine.store e !! sid = Some session ->
  stepInv session.
Proof.
  intros Hreach. revert sid session.
  induction Hreach as [rs d|e op e' Hr IH Hexec]; intros sid session.
  - cbn. by rewrite lookup_empty.
  - eapply exec_stepInv; [by apply Reachable_storeInv | exact IH | exact Hexec].
Qed.

Lemma one_active_step_witness :
  exists session,
    Engine.store (Engine.Advance engineRunning 200 "abc").2 !! "abc"
    = Some session
    /\ stepInv session.
Proof.
  eassert (Hs : Engine.store (Engine.Advance engineRunning 200 "abc").2
                !! "abc" = Some _)
    by (vm_compute; reflexivity).
  match type of Hs with
  | _ = Some ?session =>
      pose proof (one_active_step (Engine.Advance engineRunning 200 "abc").2
                    "abc" session) as H
  end.
  eexists. split; [exact Hs |]. apply H; [| exact Hs].
  apply (Reachable_exec engineRunning (OpAdvance 200 "abc"));
    [apply Reachable_engines | vm_compute; reflexivity].
Defined.

End ActiveStep.

Section SentencesProps.
Import Sentences.




Lemma splitFrom_single (runes current : list rune) :
  Forall (fun r => isSentenceEnd r = false) runes ->
  splitFrom runes current false
  = if bool_decide (current ++ runes = []) then [] else [current ++ runes].
Proof.
  revert current. induction runes as [|r rest IH]; intros current Hall.
  - cbn [splitFrom]. by rewrite app_nil_r.
  - inversion Hall as [|? ? Hr Hrest]; subst. cbn [splitFrom andb app].
    rewrite Hr, IH by done. by rewrite <- app_assoc.
Qed.

(** A text with no [.], [!] or [?] is one sentence (none when it is
    empty). *)
Lemma splitSentences_no_end (text : list rune) :
  Forall (fun r => isSentenceEnd r = false) text ->
  splitSentences text = if bool_decide (text = []) then [] else [text].
Proof.
  intros Hall. unfold splitSentences. by rewrite splitFrom_single.
Qed.

Lemma splitSentences_no_end_witness :
  splitSentences [104; 105] = [[104; 105]].
Proof.
  apply (splitSentences_no_end [104; 105]).
  repeat constructor.
Defined.

(** X23: [truncate] (and [truncateStr]): a string that fits is returned as it
    is; a longer one is cut to exactly [maxLen] bytes, the last three being
    dots, when [maxLen] is at least 3; for a smaller [maxLen] the slice
    expression panics. *)
Theorem truncate_spec (s : list Z) (maxLen : Z) :
  inInt64 maxLen ->
  len s <= maxInt64 - 3 ->
  (len s <= maxLen -> truncate s maxLen = Some s)
  /\ (maxLen < len s -> 3 <= maxLen ->
      exists r, truncate s maxLen = Some r /\ len r = maxLen
                /\ r = take (Z.to_nat (maxLen - 3)) s ++ [46; 46; 46])
  /\ (maxLen < len s -> maxLen < 3 -> truncate s maxLen = None).
Proof.
  intros [Hlo Hhi] Hlen. unfold truncate, minInt64, maxInt64 in *.
  split; [| split].
  - intros H. by rewrite (proj2 (Z.leb_le _ _) H).
  - intros Hlt H3. rewrite (proj2 (Z.leb_gt _ _) Hlt).
    rewrite wrap64_id by (unfold inInt64, minInt64, maxInt64; lia).
    rewrite (proj2 (Z.ltb_ge _ _)) by lia.
    replace (maxLen - 3 >? len s) with false by (symmetry; lia).
    cbn [orb]. eexists. split; [done |]. split; [| done].
    unfold len in *. rewrite length_app, length_take. cbn [length]. lia.
  - intros Hlt H3. rewrite (proj2 (Z.leb_gt _ _) Hlt).
    destruct (decide (minInt64 + 3 <= maxLen)) as [Hge|Hsmall];
      unfold minInt64 in *.
    + rewrite wrap64_id by (unfold inInt64, minInt64, maxInt64; lia).
      by rewrite (proj2 (Z.ltb_lt _ _)) by lia.
    + assert (Hw : wrap64 (maxLen - 3) = maxLen - 3 + 2 ^ 64).
      { unfold wrap64.
        replace (maxLen - 3 + 2 ^ 63) with (maxLen - 3 + 2 ^ 64 + 2 ^ 63 + -1 * 2 ^ 64) by lia.
        rewrite Z.mod_add by lia. rewrite Z.mod_small by lia. lia. }
      rewrite Hw. rewrite (proj2 (Z.ltb_ge _ _)) by lia.
      replace (maxLen - 3 + 2 ^ 64 >? len s) with true by (symmetry; lia).
      done.
Qed.

Lemma truncate_spec_witness :
  (exists r, truncate [104; 101; 108; 108; 111; 33] 5 = Some r /\ len r = 5
             /\ r = [104; 101; 46; 46; 46])
  /\ truncate [104; 101; 108; 108; 111; 33] 2 = None.
Proof.
  split.
  - destruct (truncate_spec [104; 101; 108; 108; 111; 33] 5) as (_ & H & _);
      [vm_compute; split; discriminate | vm_compute; discriminate |].
    apply H; vm_compute; [reflexivity | discriminate].
  - destruct (truncate_spec [104; 101; 108; 108; 111; 33] 2) as (_ & _ & H);
      [vm_compute; split; discriminate | vm_compute; discriminate |].
    apply H; vm_compute; reflexivity.
Defined.

End SentencesProps.

Section StoreProps.
Import System StorageMore.

(** X17: round trip of the memory store: a saved session is loaded back under
    its ID and the other IDs load what they did; deleting it succeeds,
    after which loading it and deleting it again both fail with
    [ErrNotFound], the other IDs still loading what they did. *)
Theorem store_round_trip (st : gmap string Session) (session : Session) :
  let saved := Storage.Save st session in
  let deleted := (Delete saved (sessID session)).2 in
  Storage.Load saved (sessID session) = Return session
  /\ (forall id, id <> sessID session ->
        Storage.Load saved id = Storage.Load st id)
  /\ (Delete saved (sessID session)).1 = Return tt
  /\ Storage.Load deleted (sessID session) = Fail ErrNotFound
  /\ Delete deleted (sessID session) = (Fail ErrNotFound, deleted)
  /\ (forall id, id <> sessID session ->
        Storage.Load deleted id = Storage.Load st id).
Proof.
  cbn zeta. unfold Delete, Storage.Load, Storage.Save.
  rewrite lookup_insert_eq. cbn [fst snd].
  rewrite lookup_delete_eq.
  repeat split.
  - intros id Hne. by rewrite lookup_insert_ne.
  - intros id Hne. rewrite lookup_delete_ne by done.
    by rewrite lookup_insert_ne.
Qed.

Lemma ListActive_elem (st : gmap string Session) (session : Session) :
  session ∈ Storage.ListActive st
  <-> (exists id, st !! id = Some session)
      /\ (sessStatus session = SessionActive
          \/ sessStatus session = SessionPaused).
Proof.
  unfold Storage.ListActive, Storage.isListed.
  rewrite list_elem_of_filter, list_elem_of_fmap. split.
  - intros [Hl ([id s] & -> & Hin)]. apply elem_of_map_to_list in Hin.
    split; [by exists id |]. cbn in Hl.
    apply orb_true_iff in Hl as [H|H]; apply bool_decide_eq_true in H; auto.
  - intros [[id Hid] Hst]. split.
    + apply orb_true_iff.
      destruct Hst as [H|H]; [left | right]; by apply bool_decide_eq_true.
    + exists (id, session). split; [done |]. by apply elem_of_map_to_list.
Qed.

(** X18: in every reachable engine [ListActive] returns each active or paused
    session exactly once, and nothing else: a session is listed if and only
    if it is stored (under its own ID) with one of these two statuses. *)
Theorem ListActive_exact (e : Engine.Engine) :
  Reachable e ->
  NoDup (Storage.ListActive (Engine.store e))
  /\ forall session,
       session ∈ Storage.ListActive (Engine.store e)
       <-> Engine.store e !! sessID session = Some session
           /\ (sessStatus session = SessionActive
               \/ sessStatus session = SessionPaused).
Proof.
  intros Hinv%Reachable_storeInv. split.
  - unfold Storage.ListActive. apply NoDup_filter.
    apply NoDup_fmap_2_strong; [| apply NoDup_map_to_list].
    intros [k1 s1] [k2 s2] H1%elem_of_map_to_list H2%elem_of_map_to_list.
    cbn. intros ->. destruct (Hinv _ _ H1) as [<- _].
    destruct (Hinv _ _ H2) as [<- _]. done.
  - intros session. rewrite ListActive_elem. split.
    + intros [[id Hid] Hst]. split; [| done].
      destruct (Hinv _ _ Hid) as [-> _]. done.
    + intros [Hid Hst]. split; [by eexists | done].
Qed.

Lemma ListActive_exact_witness :
  NoDup (Storage.ListActive (Engine.store engineRunning)).
Proof.
  apply (ListActive_exact engineRunning). apply Reachable_engines.
Defined.

(** X19: [UpdateRecipe] refuses a recipe whose ID the source does not know and
    changes nothing then; otherwise the source holds the given recipe under
    its ID with the version of the given recipe plus one, the other recipes
    and the sessions being as before. *)
Theorem UpdateRecipe_spec (e : Engine.Engine) (r : Recipe) :
  (Engine.recipes e !! recipeID r = None ->
   Engine.UpdateRecipe e r = (Fail ErrNotFound, e))
  /\ (is_Some (Engine.recipes e !! recipeID r) ->
      exists e' r',
        Engine.UpdateRecipe e r = (Return tt, e')
        /\ Engine.store e' = Engine.store e
        /\ Engine.recipesGet e' (recipeID r) = Return r'
        /\ recipeVersion r' = wrap64 (recipeVersion r + 1)
        /\ recipeSteps r' = recipeSteps r
        /\ recipeIngredients r' = recipeIngredients r
        /\ recipeServings r' = recipeServings r
        /\ recipeName r' = recipeName r
        /\ recipeID r' = recipeID r
        /\ forall id, id <> recipeID r ->
             Engine.recipesGet e' id = Engine.recipesGet e id).
Proof.
  unfold Engine.UpdateRecipe, Engine.recipesGet. split.
  - by intros ->.
  - intros [old ->]. eexists _, _. split; [reflexivity |].
    cbn [Engine.store Engine.recipes recipeID].
    rewrite lookup_insert_eq.
    repeat split.
    intros id Hne. by rewrite lookup_insert_ne.
Qed.

Lemma UpdateRecipe_spec_witness :
  Engine.UpdateRecipe engine0 (sampleRecipe "pasta" [])
  <> (Fail ErrNotFound, engine0).
Proof.
  destruct (UpdateRecipe_spec engine0 (sampleRecipe "pasta" []))
    as [_ H].
  destruct H as (e' & r' & -> & _); [vm_compute; eauto | discriminate].
Defined.

End StoreProps.

Section Bounds.
Import Timer System Shape.

Lemma storeBounded_insert (st : gmap string Session) (k : string)
    (s' : Session) :
  storeBounded st -> sessBounded s' -> storeBounded (<[k := s']> st).
Proof.
  intros Hst Hs sid x. rewrite lookup_insert.
  case_decide; [by intros [= <-] | apply Hst].
Qed.

Lemma sessBounded_fmap (f : TimerState -> TimerState) (s s' : Session) :
  (forall ts, timerBounded ts -> timerBounded (f ts)) ->
  sessTimerStates s' = f <$> sessTimerStates s ->
  sessBounded s -> sessBounded s'.
Proof.
  intros Hf Heq Hs tid ts. rewrite Heq, lookup_fmap.
  destruct (sessTimerStates s !! tid) as [ts0|] eqn:H0; [| done].
  intros [= <-]. apply Hf. by eapply Hs.
Qed.

Lemma sessBounded_same (s s' : Session) :
  sessTimerStates s' = sessTimerStates s -> sessBounded s -> sessBounded s'.
Proof. unfold sessBounded. by intros ->. Qed.

Lemma pauseTimer_bounded (ts : TimerState) :
  timerBounded ts -> timerBounded (Engine.pauseTimer ts).
Proof. unfold Engine.pauseTimer. by case_bool_decide. Qed.

Lemma resumeTimer_bounded (ts : TimerState) :
  timerBounded ts -> timerBounded (Engine.resumeTimer ts).
Proof. unfold Engine.resumeTimer. by case_bool_decide. Qed.

Lemma startTimer_bounded (ts : TimerState) :
  timerBounded ts -> timerBounded (Engine.startTimer ts).
Proof. unfold Engine.startTimer. by case_bool_decide. Qed.

Lemma maybeStartTimer_bounded (s : Session) (step : Step) :
  configBounded step -> sessBounded s ->
  sessBounded (Engine.maybeStartTimer s step).
Proof.
  unfold configBounded, Engine.maybeStartTimer.
  destruct (stepTimerConfig step) as [cfg|]; [| done].
  intros Hcfg Hs tid ts. cbn [sessTimerStates setTimerStates].
  rewrite lookup_insert. case_decide; [| apply Hs].
  intros [= <-]. unfold timerBounded. cbn. lia.
Qed.

Lemma countdown_bounded (s : Supervisor) (now : Time) (ts : TimerState) :
  0 <= tickInterval s <= maxInt64 ->
  timerBounded ts -> timerBounded (vTimer (countdown s now ts)).
Proof.
  intros Htick (Hrem & Hdur). unfold countdown.
  case_bool_decide; cbn [negb]; [| done].
  assert (Hw : wrap64 (tsRemaining ts - tickInterval s)
               = tsRemaining ts - tickInterval s).
  { apply wrap64_id. unfold inInt64, minInt64, maxInt64 in *. lia. }
  cbn [tsRemaining setRemaining tsDuration tsWarnedAlmost]. rewrite Hw.
  destruct (tsRemaining ts - tickInterval s <=? 0) eqn:Hle.
  { unfold timerBounded. cbn. lia. }
  apply Z.leb_gt in Hle.
  assert (Hb : timerBounded
                 (setRemaining (tsRemaining ts - tickInterval s) ts)).
  { unfold timerBounded. cbn. lia. }
  repeat case_match; exact Hb.
Qed.

Lemma followUp_bounded (s : Supervisor) (now : Time) (ts : TimerState) :
  timerBounded ts -> timerBounded (vTimer (followUp s now ts)).
Proof. intros Hb. unfold followUp. repeat case_match; exact Hb. Qed.

Lemma tickSession_bounded (s : Supervisor) (now : Time) (session : Session) :
  0 <= tickInterval s <= maxInt64 ->
  sessBounded session -> sessBounded (tickSession s now session).
Proof.
  intros Htick Hs. unfold tickSession, processSession.
  repeat case_match; try done.
  cbn [pSession]. intros tid ts. cbn [sessTimerStates setTimerStates].
  rewrite !lookup_fmap.
  destruct (sessTimerStates session !! tid) as [ts0|] eqn:Hts0; [| done].
  cbn. intros [= <-]. apply followUp_bounded, countdown_bounded; [done |].
  by eapply Hs.
Qed.

Lemma recipesBounded_index (e : Engine.Engine) (rid : string)
    (recipe : Recipe) (i : Z) (step : Step) :
  recipesBounded e -> Engine.recipes e !! rid = Some recipe ->
  index (recipeSteps recipe) i = Some step -> configBounded step.
Proof.
  intros Hr Hrec Hi. apply (Hr rid recipe step Hrec).
  unfold index in Hi. destruct (i <? 0); [done |].
  by eapply list_elem_of_lookup_2.
Qed.

Ltac bounded_store Hst :=
  cbn [snd Engine.store Engine.withStore];
  unfold Storage.Save, Storage.poke;
  repeat (apply storeBounded_insert);
  try exact Hst.

Lemma leaveStep_bounded (final : StepStatus) (e : Engine.Engine) (now : Time)
    (k : string) :
  storeBounded (Engine.store e) -> recipesBounded e ->
  storeBounded (Engine.store (Engine.leaveStep final e now k).2).
Proof.
  intros Hst Hr. unfold Engine.leaveStep, Storage.Load, Engine.recipesGet.
  destruct (Engine.store e !! k) as [s0|] eqn:Hs0; [| done].
  case_bool_decide; cbn [negb]; [| done].
  destruct (Engine.recipes e !! sessRecipeID s0) as [recipe|] eqn:Hrec;
    [| done].
  destruct (sessStepStates s0 !! sessCurrentStepIndex s0); [| done].
  pose proof (Hst k s0 Hs0) as Hb.
  case_match; [by bounded_store Hst |].
  case_match; [| by bounded_store Hst].
  case_match eqn:Hstep; [| by bounded_store Hst].
  bounded_store Hst;
    (apply maybeStartTimer_bounded;
     [by eapply recipesBounded_index | exact Hb]).
Qed.

(** X11: the operations of the engine and the ticks of a supervisor keep every
    timer within its bounds, [0 <= Remaining <= Duration], provided the
    timer configs of the recipes have durations that are not negative and
    the tick interval is not negative: a countdown never passes zero and
    nothing ever adds time to a timer. *)
Theorem remaining_stays_bounded (e e' : Engine.Engine) (op : Op) :
  storeBounded (Engine.store e) ->
  recipesBounded e ->
  tickBounded op ->
  exec op e = Some e' ->
  storeBounded (Engine.store e').
Proof.
  intros Hst Hr Htick Hexec.
  destruct op as [newID t1 t2 t3 rid n|now k|now k|now k|now k|now k|now k
                 |now k tid|r|rid r|s now]; cbn [exec] in Hexec;
    try (apply after_Some in Hexec as [_ ->]).
  - unfold Engine.StartSession, Engine.recipesGet.
    destruct (Engine.recipes e !! rid) as [recipe|] eqn:Hrec; [| done].
    cbn [sessStepStates].
    destruct (Engine.initStepStates (recipeSteps recipe) !! 0); [| done].
    destruct (index (recipeSteps recipe) 0) as [step0|] eqn:Hstep; [| done].
    bounded_store Hst. apply maybeStartTimer_bounded.
    + by eapply recipesBounded_index.
    + intros tid ts. cbn. by rewrite lookup_empty.
  - by apply leaveStep_bounded.
  - by apply leaveStep_bounded.
  - unfold Engine.Pause, Storage.Load.
    destruct (Engine.store e !! k) as [s0|] eqn:Hs0; [| done].
    case_bool_decide; cbn [negb]; [| done].
    bounded_store Hst;
      (eapply (sessBounded_fmap Engine.pauseTimer s0);
       [apply pauseTimer_bounded | done | by eapply Hst]).
  - unfold Engine.Resume, Storage.Load.
    destruct (Engine.store e !! k) as [s0|] eqn:Hs0; [| done].
    case_bool_decide; cbn [negb]; [| done].
    bounded_store Hst;
      (eapply (sessBounded_fmap Engine.resumeTimer s0);
       [apply resumeTimer_bounded | done | by eapply Hst]).
  - unfold Engine.Abandon, Storage.Load.
    destruct (Engine.store e !! k) as [s0|] eqn:Hs0; [| done].
    bounded_store Hst;
      (apply (sessBounded_same s0); [done | by eapply Hst]).
  - unfold Engine.StartPendingTimers, Storage.Load.
    destruct (Engine.store e !! k) as [s0|] eqn:Hs0; [| done].
    case_match; bounded_store Hst;
      (eapply (sessBounded_fmap Engine.startTimer s0);
       [apply startTimer_bounded | done | by eapply Hst]).
  - unfold Engine.DismissTimer, Storage.Load.
    destruct (Engine.store e !! k) as [s0|] eqn:Hs0; [| done].
    destruct (sessTimerStates s0 !! tid) as [ts|] eqn:Hts; [| done].
    case_match; [done |].
    bounded_store Hst;
      (intros tid' ts'; cbn [sessTimerStates setUpdatedAt setTimerStates];
       rewrite lookup_insert; destruct (decide (tid = tid'));
       [intros [= <-]; by apply (Hst k s0 Hs0 tid ts)
       | by apply (Hst k s0 Hs0)]).
  - unfold Engine.UpdateRecipe. by case_match.
  - injection Hexec as <-. unfold mutateRecipe. by case_match.
  - injection Hexec as <-. cbn [Engine.store Engine.withStore].
    intros sid s'. rewrite lookup_fmap.
    destruct (Engine.store e !! sid) as [s0|] eqn:Hs0; [| done].
    cbn. intros [= <-]. apply tickSession_bounded; [exact Htick |].
    by eapply Hst.
Qed.

Lemma remaining_stays_bounded_witness :
  storeBounded (Engine.store engineStarted).
Proof.
  apply (remaining_stays_bounded engine0 engineStarted
           (OpStartSession "abc" 100 100 100 "pasta" 0)).
  - intros sid session Hs. unfold engine0 in Hs. cbn [Engine.store] in Hs.
    by rewrite lookup_empty in Hs.
  - intros rid recipe step Hrec Hin. unfold engine0 in Hrec.
    cbn [Engine.recipes] in Hrec. rewrite lookup_insert in Hrec.
    case_decide.
    + injection Hrec as <-. apply list_elem_of_In in Hin.
      destruct Hin as [<-|[<-|[<-|[]]]]; unfold configBounded; cbn;
        unfold maxInt64, Second; lia.
    + rewrite lookup_insert in Hrec. case_decide.
      * injection Hrec as <-. by apply elem_of_nil in Hin.
      * by rewrite lookup_empty in Hrec.
  - exact I.
  - reflexivity.
Defined.

End Bounds.

Section SpeechMore.
Import Speech.

Lemma StronglySorted_pairs {A} (R : relation A) (l : list A) (i j : nat)
    (a b : A) :
  StronglySorted R l -> (i < j)%nat ->
  l !! i = Some a -> l !! j = Some b -> R a b.
Proof.
  intros Hl. revert i j. induction Hl as [|x l Hl IH Hall]; intros i j Hij.
  - done.
  - destruct i as [|i], j as [|j]; try lia; cbn.
    + intros [= <-] Hb. rewrite Forall_forall in Hall. apply Hall.
      by eapply list_elem_of_lookup_2.
    + apply IH. lia.
Qed.

Lemma Queued_low_last (t : Time) (q : list SpeechRequest) :
  Queued t q ->
  StronglySorted
    (fun a b => Prio a <= PriorityLow -> Prio b <= PriorityLow) q.
Proof.
  induction 1 as [t|t q text priority now Hq IH Hnow
                 |t q item q' Hq IH Hdq|t q Hq IH].
  - constructor.
  - unfold Say. apply StronglySorted_app_2.
    + intros x1 x2 Hx1 ->%list_elem_of_singleton. cbn [Prio].
      destruct (priority >=? PriorityNormal) eqn:Hp.
      * unfold flushLowLocked in Hx1.
        apply list_elem_of_filter in Hx1 as [Hx1 _]. lia.
      * unfold PriorityNormal, PriorityLow in *. lia.
    + destruct (priority >=? PriorityNormal); [| done].
      eapply StronglySorted_sublist; [apply sublist_filter | done].
    + repeat constructor.
  - assert (Hne : q <> []) by (by destruct q).
    destruct (dequeue_spec q Hne) as (item' & _ & Heq).
    rewrite Heq in Hdq. simplify_eq.
    eapply StronglySorted_sublist; [apply sublist_delete | done].
  - constructor.
Qed.

(** X20: in every queue the Mouth can hold, the low-priority requests wait
    behind all the others: no request of normal or higher priority is ever
    queued behind a low-priority one, since [Say] flushes the low-priority
    requests before it queues such a request. *)
Theorem low_requests_wait_last (t : Time) (q : list SpeechRequest)
    (i j : nat) (a b : SpeechRequest) :
  Queued t q ->
  (i < j)%nat ->
  q !! i = Some a -> q !! j = Some b ->
  Prio a <= PriorityLow ->
  Prio b <= PriorityLow.
Proof.
  intros Hq Hij Ha Hb.
  exact (StronglySorted_pairs _ q i j a b (Queued_low_last t q Hq) Hij Ha Hb).
Qed.

Lemma low_requests_wait_last_witness :
  Prio {| Text := "tip two"; Prio := PriorityLow; QueuedAt := 50 |}
  <= PriorityLow.
Proof.
  apply (low_requests_wait_last 50
           (Say (Say sampleQueue "tip one" PriorityLow 40)
                "tip two" PriorityLow 50)
           3 4
           {| Text := "tip one"; Prio := PriorityLow; QueuedAt := 40 |}
           {| Text := "tip two"; Prio := PriorityLow; QueuedAt := 50 |}).
  - apply (Queued_say 40); [| lia].
    apply (Queued_say 30); [| lia].
    unfold sampleQueue.
    apply (Queued_say 20); [| lia].
    apply (Queued_say 10); [| lia].
    apply (Queued_say 0); [apply Queued_new | lia].
  - lia.
  - reflexivity.
  - reflexivity.
  - reflexivity.
Defined.

(** X21: a request queued with normal or higher priority is the only thing
    [Say] adds, and what it removes are exactly the low-priority requests:
    the others stay, in their order.  Once it is queued, [dequeue] returns
    a request above low priority. *)
Theorem Say_urgent_flushes (q : list SpeechRequest) (text : string)
    (priority : Priority) (now : Time) :
  PriorityNormal <= priority ->
  let item := {| Text := text; Prio := priority; QueuedAt := now |} in
  Say q text priority now
  = filter (fun x => PriorityLow < Prio x) q ++ [item]
  /\ Forall (fun x => PriorityLow < Prio x) (Say q text priority now)
  /\ exists first rest,
       dequeue (Say q text priority now) = Some (first, rest)
       /\ PriorityNormal <= Prio first
       /\ Forall (fun x => PriorityLow < Prio x) rest.
Proof.
  intros Hp item. unfold Say.
  rewrite (proj2 (Z.geb_le _ _) Hp). unfold flushLowLocked.
  fold item. set (queue := filter _ q ++ [item]).
  assert (Hall : Forall (fun x => PriorityLow < Prio x) queue).
  { apply Forall_app. split.
    - apply Forall_forall. by intros x [Hx _]%list_elem_of_filter.
    - repeat constructor. cbn. unfold PriorityNormal, PriorityLow in *. lia. }
  split; [done |]. split; [done |].
  assert (Hne : queue <> []) by (unfold queue; by destruct (filter _ q)).
  destruct (dequeue_spec queue Hne) as (first & Hfirst & ->).
  exists first, (delete (bestIndex queue) queue).
  split; [done |]. rewrite Forall_forall in Hall. split.
  - assert (PriorityLow < Prio first)
      by (apply Hall; by eapply list_elem_of_lookup_2).
    unfold PriorityNormal, PriorityLow in *. lia.
  - apply Forall_forall. intros x Hx. apply Hall.
    eapply elem_of_sublist; [done | apply sublist_delete].
Qed.

Lemma Say_urgent_flushes_witness :
  Forall (fun x => PriorityLow < Prio x)
    (Say (Say [] "tip" PriorityLow 10) "timer is up" PriorityHigh 20).
Proof.
  apply (Say_urgent_flushes (Say [] "tip" PriorityLow 10) "timer is up"
           PriorityHigh 20).
  vm_compute. discriminate.
Defined.

End SpeechMore.

Section StepActions.
Import Gpt.

Lemma stepIndex_in_range (z : Z) :
  inInt64 z -> 1 <= z ->
  wrap64 (z - 1) = z - 1 /\ 0 <= z - 1.
Proof.
  intros Hz H1. split; [| lia].
  apply wrap64_id. unfold inInt64, minInt64, maxInt64 in *. lia.
Qed.

Lemma renumber_length (steps : list Step) :
  length (renumber steps) = length steps.
Proof. unfold renumber. apply length_imap. Qed.

Lemma setOrder_own (s : Step) : setOrder (stepOrder s) s = s.
Proof. by destruct s. Qed.

Lemma renumber_numbered (steps : list Step) :
  len steps <= maxInt64 ->
  (forall (j : nat) s, steps !! j = Some s -> stepOrder s = Z.of_nat j + 1) ->
  renumber steps = steps.
Proof.
  intros Hlen Hnum. apply list_eq. intros j. rewrite renumber_lookup.
  destruct (steps !! j) as [s|] eqn:Hj; [| done]. cbn.
  rewrite wrap64_id.
  - rewrite <- (Hnum j s Hj). by rewrite setOrder_own.
  - apply lookup_lt_Some in Hj.
    unfold inInt64, minInt64, maxInt64, len in *. lia.
Qed.

Lemma renumber_setOrder (steps : list Step) (j : nat) :
  len steps <= maxInt64 ->
  renumber steps !! j = setOrder (Z.of_nat j + 1) <$> steps !! j.
Proof.
  intros Hlen. rewrite renumber_lookup.
  destruct (steps !! j) as [s|] eqn:Hj; [| done]. cbn.
  rewrite wrap64_id; [done |].
  apply lookup_lt_Some in Hj.
  unfold inInt64, minInt64, maxInt64, len in *. lia.
Qed.

Lemma renumber_ignores_order (steps steps' : list Step) :
  setOrder 0 <$> steps = setOrder 0 <$> steps' ->
  renumber steps = renumber steps'.
Proof.
  intros Heq. apply list_eq. intros j. rewrite !renumber_lookup.
  apply (f_equal (fun l => l !! j)) in Heq. rewrite !list_lookup_fmap in Heq.
  destruct (steps !! j) as [s|], (steps' !! j) as [s'|]; try done.
  destruct s, s'. unfold setOrder in *. cbn in *. congruence.
Qed.

(** X25: an add_step action whose 1-based index lies between 1 and the number
    of steps plus one inserts the new step at that position: the steps
    before it stay where they are, the steps from it on move one position
    down, the new step carries the action's instruction and no timer, and
    every step's order is its position plus one. *)
Theorem addStep_in_range (r : Recipe) (act : Action) :
  inInt64 (StepIndex act) ->
  len (recipeSteps r) < maxInt64 ->
  1 <= StepIndex act <= len (recipeSteps r) + 1 ->
  let i := Z.to_nat (StepIndex act - 1) in
  exists r',
    addStep r act = Return r'
    /\ len (recipeSteps r') = len (recipeSteps r) + 1
    /\ (exists st, recipeSteps r' !! i = Some st
                   /\ stepInstruction st = Instruction act
                   /\ stepID st
                      = ("step-" ++ pretty (len (recipeSteps r) + 1))%string
                   /\ stepTimerConfig st = None)
    /\ (forall (j : nat), (j < i)%nat ->
          recipeSteps r' !! j
          = setOrder (Z.of_nat j + 1) <$> recipeSteps r !! j)
    /\ (forall (j : nat), (i <= j)%nat ->
          recipeSteps r' !! S j
          = setOrder (Z.of_nat j + 2) <$> recipeSteps r !! j)
    /\ (forall (j : nat) st, recipeSteps r' !! j = Some st ->
          stepOrder st = Z.of_nat j + 1).
Proof.
  intros Hz Hlen [H1 Hn] i.
  destruct (stepIndex_in_range _ Hz H1) as [Hw H0].
  unfold addStep. rewrite Hw.
  replace ((StepIndex act - 1 <? 0) || (StepIndex act - 1 >? len (recipeSteps r)))
    with false by (symmetry; apply orb_false_iff; split; lia).
  fold i.
  assert (Hi : (i <= length (recipeSteps r))%nat)
    by (unfold len in *; lia).
  rewrite addStep_inserts by done.
  set (newStep := {| stepID := _ |}).
  set (steps' := take i (recipeSteps r) ++ newStep :: drop i (recipeSteps r)).
  assert (Hlen' : length steps' = S (length (recipeSteps r))).
  { unfold steps'. rewrite length_app, length_take. cbn [length].
    rewrite length_drop. lia. }
  assert (Hmax : len steps' <= maxInt64) by (unfold len in *; lia).
  eexists. split; [reflexivity |]. cbn [recipeSteps setSteps].
  split; [unfold len; rewrite renumber_length; lia |].
  split; [| split; [| split]].
  - rewrite renumber_setOrder by done. unfold steps'.
    rewrite lookup_app_r by (rewrite length_take; lia).
    rewrite length_take, Nat.min_l, Nat.sub_diag by lia. cbn.
    eexists. split; [reflexivity |]. cbn.
    rewrite wrap64_id; [done |].
    unfold inInt64, minInt64, maxInt64 in *. lia.
  - intros j Hj. rewrite renumber_setOrder by done. unfold steps'.
    rewrite lookup_app_l by (rewrite length_take; lia).
    by rewrite lookup_take_lt.
  - intros j Hj. rewrite renumber_setOrder by done. unfold steps'.
    rewrite lookup_app_r by (rewrite length_take; lia).
    rewrite length_take, Nat.min_l by lia.
    replace (S j - i)%nat with (S (j - i)) by lia.
    change ((newStep :: drop i (recipeSteps r)) !! S (j - i))
      with (drop i (recipeSteps r) !! (j - i)%nat).
    rewrite lookup_drop. replace (i + (j - i))%nat with j by lia.
    by replace (Z.of_nat (S j) + 1) with (Z.of_nat j + 2) by lia.
  - intros j st. by apply renumber_order.
Qed.

Lemma addStep_in_range_witness :
  exists r',
    addStep (sampleRecipe "pasta" pastaSteps)
            (stepAction ActionAddStep 2 "drain") = Return r'
    /\ (stepID <$> recipeSteps r') = ["s1"; "step-4"; "s2"; "s3"]%string
    /\ (stepOrder <$> recipeSteps r') = [1; 2; 3; 4].
Proof.
  destruct (addStep_in_range (sampleRecipe "pasta" pastaSteps)
              (stepAction ActionAddStep 2 "drain"))
    as (r' & Hr' & _).
  - vm_compute. split; discriminate.
  - vm_compute. reflexivity.
  - vm_compute. split; discriminate.
  - exists r'. split; [exact Hr' |].
    vm_compute in Hr'. injection Hr' as <-. split; reflexivity.
Defined.

(** X26: a remove_step action whose 1-based index names a step removes that
    step and no other: the steps before it stay where they are, the later
    ones move one position up, and every step's order is its position plus
    one. *)
Theorem removeStep_in_range (r : Recipe) (act : Action) :
  inInt64 (StepIndex act) ->
  len (recipeSteps r) <= maxInt64 ->
  1 <= StepIndex act <= len (recipeSteps r) ->
  let i := Z.to_nat (StepIndex act - 1) in
  exists r',
    removeStep r act = Return r'
    /\ len (recipeSteps r') = len (recipeSteps r) - 1
    /\ (forall (j : nat), (j < i)%nat ->
          recipeSteps r' !! j
          = setOrder (Z.of_nat j + 1) <$> recipeSteps r !! j)
    /\ (forall (j : nat), (i <= j)%nat ->
          recipeSteps r' !! j
          = setOrder (Z.of_nat j + 1) <$> recipeSteps r !! S j)
    /\ (forall (j : nat) st, recipeSteps r' !! j = Some st ->
          stepOrder st = Z.of_nat j + 1).
Proof.
  intros Hz Hlen [H1 Hn] i.
  destruct (stepIndex_in_range _ Hz H1) as [Hw H0].
  unfold removeStep. rewrite Hw.
  replace ((StepIndex act - 1 <? 0) || (StepIndex act - 1 >=? len (recipeSteps r)))
    with false by (symmetry; apply orb_false_iff; split; lia).
  fold i.
  assert (Hi : (i < length (recipeSteps r))%nat) by (unfold len in *; lia).
  set (steps' := take i (recipeSteps r) ++ drop (S i) (recipeSteps r)).
  assert (Hlen' : S (length steps') = length (recipeSteps r)).
  { unfold steps'. rewrite length_app, length_take, length_drop. lia. }
  assert (Hmax : len steps' <= maxInt64) by (unfold len in *; lia).
  eexists. split; [reflexivity |]. cbn [recipeSteps setSteps].
  split; [unfold len; rewrite renumber_length; lia |].
  split; [| split].
  - intros j Hj. rewrite renumber_setOrder by done. unfold steps'.
    rewrite lookup_app_l by (rewrite length_take; lia).
    by rewrite lookup_take_lt.
  - intros j Hj. rewrite renumber_setOrder by done. unfold steps'.
    rewrite lookup_app_r by (rewrite length_take; lia).
    rewrite length_take, Nat.min_l by lia.
    rewrite lookup_drop. by replace (S i + (j - i))%nat with (S j) by lia.
  - intros j st. by apply renumber_order.
Qed.

Lemma removeStep_in_range_witness :
  exists r',
    removeStep (sampleRecipe "pasta" pastaSteps)
               (stepAction ActionRemoveStep 2 EmptyString) = Return r'
    /\ (stepID <$> recipeSteps r') = ["s1"; "s3"]%string
    /\ (stepOrder <$> recipeSteps r') = [1; 2].
Proof.
  destruct (removeStep_in_range (sampleRecipe "pasta" pastaSteps)
              (stepAction ActionRemoveStep 2 EmptyString))
    as (r' & Hr' & _).
  - vm_compute. split; discriminate.
  - vm_compute. discriminate.
  - vm_compute. split; discriminate.
  - exists r'. split; [exact Hr' |].
    vm_compute in Hr'. injection Hr' as <-. split; reflexivity.
Defined.

(** X27: removing the step that an add_step action has just inserted, with the
    same index, gives back the steps of the recipe, renumbered; so a recipe
    whose steps are numbered by their positions gets its steps back
    unchanged. *)
Theorem removeStep_undoes_addStep (r r' : Recipe) (act : Action) :
  inInt64 (StepIndex act) ->
  len (recipeSteps r) < maxInt64 ->
  1 <= StepIndex act <= len (recipeSteps r) + 1 ->
  addStep r act = Return r' ->
  removeStep r' act = Return (setSteps (renumber (recipeSteps r)) r)
  /\ ((forall (j : nat) s, recipeSteps r !! j = Some s ->
         stepOrder s = Z.of_nat j + 1) ->
      removeStep r' act = Return r).
Proof.
  intros Hz Hlen [H1 Hn].
  destruct (stepIndex_in_range _ Hz H1) as [Hw H0].
  unfold addStep. rewrite Hw.
  replace ((StepIndex act - 1 <? 0) || (StepIndex act - 1 >? len (recipeSteps r)))
    with false by (symmetry; apply orb_false_iff; split; lia).
  set (i := Z.to_nat (StepIndex act - 1)).
  assert (Hi : (i <= length (recipeSteps r))%nat)
    by (unfold len in *; lia).
  rewrite addStep_inserts by done.
  set (newStep := {| stepID := _ |}).
  set (steps' := take i (recipeSteps r) ++ newStep :: drop i (recipeSteps r)).
  intros [= <-].
  assert (Hlen' : length steps' = S (length (recipeSteps r))).
  { unfold steps'. rewrite length_app, length_take. cbn [length].
    rewrite length_drop. lia. }
  assert (Hfirst :
    removeStep (setSteps (renumber steps') r) act
    = Return (setSteps (renumber (recipeSteps r)) r)).
  { unfold removeStep. rewrite Hw. cbn [recipeSteps setSteps].
    replace ((StepIndex act - 1 <? 0)
             || (StepIndex act - 1 >=? len (renumber steps')))
      with false
      by (symmetry; apply orb_false_iff; unfold len in *;
          rewrite renumber_length; split; lia).
    fold i. f_equal. unfold setSteps. cbn. f_equal.
    apply renumber_ignores_order.
    rewrite fmap_app, fmap_take, fmap_drop.
    unfold renumber. rewrite fmap_imap.
    assert (Hz0 : forall l : list Step,
               imap (fun n => setOrder 0 ∘ setOrder (wrap64 (Z.of_nat n + 1))) l
               = setOrder 0 <$> l).
    { intros l. apply list_eq. intros j. rewrite list_lookup_imap.
      rewrite list_lookup_fmap. by destruct (l !! j). }
    rewrite Hz0. unfold steps'.
    rewrite fmap_app, fmap_cons.
    rewrite take_app_length' by (rewrite length_fmap, length_take; lia).
    rewrite drop_app_ge by (rewrite length_fmap, length_take; lia).
    rewrite length_fmap, length_take.
    replace (S i - i `min` length (recipeSteps r))%nat with 1%nat by lia.
    cbn [drop]. rewrite drop_0, <- fmap_app. by rewrite take_drop. }
  split; [exact Hfirst |].
  intros Hnum. rewrite Hfirst.
  rewrite renumber_numbered by (done || lia).
  by destruct r.
Qed.

Lemma removeStep_undoes_addStep_witness :
  exists r',
    addStep (sampleRecipe "pasta" pastaSteps)
            (stepAction ActionAddStep 2 "drain") = Return r'
    /\ removeStep r' (stepAction ActionAddStep 2 "drain")
       = Return (sampleRecipe "pasta" pastaSteps).
Proof.
  eassert (Hadd : addStep (sampleRecipe "pasta" pastaSteps)
                    (stepAction ActionAddStep 2 "drain") = Return _)
    by (vm_compute; reflexivity).
  match type of Hadd with
  | _ = Return ?r' =>
      destruct (removeStep_undoes_addStep (sampleRecipe "pasta" pastaSteps)
                  r' (stepAction ActionAddStep 2 "drain")) as [_ H]
  end.
  - vm_compute. split; discriminate.
  - vm_compute. reflexivity.
  - vm_compute. split; discriminate.
  - exact Hadd.
  - eexists. split; [exact Hadd |]. apply H.
    intros [|[|[|j]]] s; cbn; intros [= <-]; reflexivity.
Defined.

End StepActions.

Section UpdateActions.
Import Gpt GptTimer Shape.

Lemma stepIndex_out_of_range (z n : Z) :
  inInt64 z -> 0 <= n <= maxInt64 -> z < 1 \/ n < z ->
  (wrap64 (z - 1) <? 0) || (wrap64 (z - 1) >=? n) = true.
Proof.
  intros Hz Hn Hout. apply orb_true_iff.
  destruct (decide (z = minInt64)) as [->|Hmin].
  - right. replace (wrap64 (minInt64 - 1)) with maxInt64
      by (vm_compute; reflexivity). lia.
  - rewrite wrap64_id by (unfold inInt64, minInt64, maxInt64 in *; lia).
    lia.
Qed.

Lemma stepIndex_inside (z n : Z) :
  inInt64 z -> 1 <= z <= n ->
  wrap64 (z - 1) = z - 1
  /\ (z - 1 <? 0) || (z - 1 >=? n) = false.
Proof.
  intros Hz Hin. split.
  - apply wrap64_id. unfold inInt64, minInt64, maxInt64 in *. lia.
  - apply orb_false_iff. lia.
Qed.

(** X28: an update_step action whose 1-based index names a step changes the
    instruction of that step and nothing else (no other step, no ID, no
    order, no timer config); with an empty instruction it changes nothing
    at all.  An index that names no step is refused with the out-of-range
    error. *)
Theorem updateStep_touches_one (r : Recipe) (act : Action) :
  inInt64 (StepIndex act) ->
  len (recipeSteps r) <= maxInt64 ->
  let n := len (recipeSteps r) in
  let i := Z.to_nat (StepIndex act - 1) in
  (StepIndex act < 1 \/ n < StepIndex act ->
   updateStep r act = Fail (ErrStepOutOfRange (StepIndex act) n))
  /\ (1 <= StepIndex act <= n ->
      exists r',
        updateStep r act = Return r'
        /\ length (recipeSteps r') = length (recipeSteps r)
        /\ (forall j, j <> i -> recipeSteps r' !! j = recipeSteps r !! j)
        /\ (Instruction act = EmptyString -> r' = r)
        /\ (Instruction act <> EmptyString ->
            recipeSteps r' !! i
            = setInstruction (Instruction act) <$> recipeSteps r !! i)).
Proof.
  intros Hz Hlen n i. unfold updateStep. fold n. split.
  - intros Hout. rewrite stepIndex_out_of_range; [done | done | | done].
    unfold n, len in *. lia.
  - intros Hin. destruct (stepIndex_inside _ n Hz Hin) as [-> ->].
    fold i. case_bool_decide as Hins; cbn [negb].
    + exists r. by repeat split.
    + eexists. split; [reflexivity |]. cbn [recipeSteps setSteps].
      split; [by rewrite length_alter |].
      split; [intros j Hj; by rewrite list_lookup_alter_ne by congruence |].
      split; [intros Hempty; by destruct Hins |].
      intros _. by rewrite list_lookup_alter, decide_True by done.
Qed.

Lemma updateStep_touches_one_witness :
  exists r',
    updateStep (sampleRecipe "pasta" pastaSteps)
               (stepAction ActionUpdateStep 2 "whisk") = Return r'
    /\ (stepInstruction <$> recipeSteps r') = ["stir"; "whisk"; "stir"]%string.
Proof.
  destruct (updateStep_touches_one (sampleRecipe "pasta" pastaSteps)
              (stepAction ActionUpdateStep 2 "whisk")) as [_ H].
  - vm_compute. split; discriminate.
  - vm_compute. discriminate.
  - destruct H as (r' & Hr' & _); [vm_compute; split; discriminate |].
    exists r'. split; [exact Hr' |].
    vm_compute in Hr'. injection Hr' as <-. reflexivity.
Defined.

(** X29: an update_timer action is refused when its index names no step and,
    for an index that names one, when the parsed duration is not positive.
    Otherwise the addressed step, and no other, gets a timer config with
    the parsed duration; the label is the action's label, or the label the
    step had when the action gives none; the step keeps its ID, order and
    instruction, and the timer configs stay within the bounds the timers
    rely on. *)
Theorem updateTimer_spec (dur : Duration) (r : Recipe) (act : Action) :
  inInt64 (StepIndex act) ->
  len (recipeSteps r) <= maxInt64 ->
  let n := len (recipeSteps r) in
  let i := Z.to_nat (StepIndex act - 1) in
  (StepIndex act < 1 \/ n < StepIndex act ->
   updateTimer dur r act = Fail (TimerStepOutOfRange (StepIndex act) n))
  /\ (1 <= StepIndex act <= n -> dur <= 0 ->
      updateTimer dur r act
      = Fail (InvalidTimerDuration (TimerDuration act)))
  /\ (1 <= StepIndex act <= n -> 0 < dur ->
      exists r' old new cfg,
        updateTimer dur r act = Return r'
        /\ recipeSteps r !! i = Some old
        /\ recipeSteps r' !! i = Some new
        /\ stepTimerConfig new = Some cfg
        /\ tcDuration cfg = dur
        /\ tcLabel cfg
           = (if bool_decide (TimerLabel act = EmptyString)
              then from_option tcLabel EmptyString (stepTimerConfig old)
              else TimerLabel act)
        /\ setTimerConfig None new = setTimerConfig None old
        /\ length (recipeSteps r') = length (recipeSteps r)
        /\ (forall j, j <> i -> recipeSteps r' !! j = recipeSteps r !! j)
        /\ (dur <= maxInt64 ->
            Forall configBounded (recipeSteps r) ->
            Forall configBounded (recipeSteps r'))).
Proof.
  intros Hz Hlen n i. unfold updateTimer. fold n. split; [| split].
  - intros Hout. rewrite stepIndex_out_of_range; [done | done | | done].
    unfold n, len in *. lia.
  - intros Hin Hdur. destruct (stepIndex_inside _ n Hz Hin) as [-> ->].
    by rewrite (proj2 (Z.leb_le _ _) Hdur).
  - intros Hin Hdur. destruct (stepIndex_inside _ n Hz Hin) as [-> ->].
    rewrite (proj2 (Z.leb_gt _ _) Hdur). fold i.
    destruct (lookup_lt_is_Some_2 (recipeSteps r) i) as [old Hold].
    { unfold n, len in *. lia. }
    exists (setSteps (alter (retime dur (TimerLabel act)) i (recipeSteps r)) r),
      old, (retime dur (TimerLabel act) old).
    eexists. cbn [recipeSteps setSteps].
    split; [reflexivity |]. split; [exact Hold |].
    split; [by rewrite list_lookup_alter, decide_True, Hold by done |].
    split; [reflexivity |].
    split; [by case_bool_decide |].
    split.
    { case_bool_decide; cbn [negb]; [| done].
      by destruct (stepTimerConfig old). }
    split; [done |].
    split; [by rewrite length_alter |].
    split; [intros j Hj; by rewrite list_lookup_alter_ne by congruence |].
    intros Hmax Hall. rewrite Forall_lookup in Hall. apply Forall_lookup.
    intros j st. destruct (decide (j = i)) as [->|Hne].
    + rewrite list_lookup_alter, decide_True, Hold by done. intros [= <-].
      unfold configBounded, retime. cbn [stepTimerConfig setTimerConfig].
      case_bool_decide; cbn; lia.
    + rewrite list_lookup_alter_ne by congruence. apply Hall.
Qed.

Lemma updateTimer_spec_witness :
  exists r',
    updateTimer (5 * Second) (sampleRecipe "pasta" pastaSteps)
                (stepAction ActionUpdateTimer 2 EmptyString) = Return r'
    /\ (stepTimerConfig <$> recipeSteps r') !! 1%nat
       = Some (Some {| tcDuration := 5 * Second; tcLabel := EmptyString |}).
Proof.
  destruct (updateTimer_spec (5 * Second) (sampleRecipe "pasta" pastaSteps)
              (stepAction ActionUpdateTimer 2 EmptyString)) as (_ & _ & H).
  - vm_compute. split; discriminate.
  - vm_compute. discriminate.
  - destruct H as (r' & old & new & cfg & Hr' & _);
      [vm_compute; split; discriminate | reflexivity |].
    exists r'. split; [exact Hr' |].
    vm_compute in Hr'. injection Hr' as <-. reflexivity.
Defined.

End UpdateActions.

Section Spoken.
Import Timer.

Lemma Round_Second (d : Duration) :
  0 <= d <= maxInt64 - Second ->
  Round d Second = (d + Second / 2) / Second * Second.
Proof.
  intros [Hd0 Hd1]. unfold Round, maxInt64 in *.
  change (Second <=? 0) with false. cbn [negb].
  rewrite (proj2 (Z.ltb_ge d 0)) by lia.
  rewrite Z.rem_mod_nonneg by (unfold Second; lia).
  pose proof (Z.mod_pos_bound d Second ltac:(unfold Second; lia)) as Hr.
  pose proof (Z.div_mod d Second ltac:(unfold Second; lia)) as Hdm.
  set (r := d mod Second) in *. set (q := d / Second) in *.
  assert (Hlt : lessThanHalf r Second = (2 * r <? Second)).
  { unfold lessThanHalf.
    rewrite (Z.mod_small r) by (unfold Second in *; lia).
    rewrite (Z.mod_small (r + r)) by (unfold Second in *; lia).
    rewrite (Z.mod_small Second) by (unfold Second; lia).
    f_equal. lia. }
  rewrite Hlt. unfold Second in *.
  change (1000000000 / 2) with 500000000.
  destruct (2 * r <? 1000000000) eqn:Hhalf.
  - apply Z.ltb_lt in Hhalf.
    rewrite wrap64_id by (unfold inInt64, minInt64, maxInt64; lia).
    assert ((d + 500000000) / 1000000000 = q)
      by (symmetry; apply (Z.div_unique _ _ q (r + 500000000)); lia).
    lia.
  - apply Z.ltb_ge in Hhalf.
    rewrite (wrap64_id (d + 1000000000))
      by (unfold inInt64, minInt64, maxInt64; lia).
    rewrite wrap64_id by (unfold inInt64, minInt64, maxInt64; lia).
    rewrite (proj2 (Z.gtb_lt _ _)) by lia.
    assert ((d + 500000000) / 1000000000 = q + 1)
      by (symmetry; apply (Z.div_unique _ _ (q + 1) (r - 500000000)); lia).
    lia.
Qed.

(** X24: what [formatRemaining] says of a remaining time that is not negative:
    the time is rounded to the nearest second (a half second rounds up);
    below 60 s the seconds are said, and from 60 s on the minutes, rounded
    to the nearest minute (half a minute rounds up), [1 second] and
    [1 minute] being said in the singular. *)
Theorem formatRemaining_nearest (d : Duration) :
  0 <= d <= maxInt64 - Second ->
  let seconds := (d + Second / 2) / Second in
  let minutes := (seconds + 30) / 60 in
  formatRemaining d
  = if seconds <? 60 then
      if seconds =? 1 then "1 second"%string
      else (pretty seconds ++ " seconds")%string
    else
      if minutes =? 1 then "1 minute"%string
      else (pretty minutes ++ " minutes")%string.
Proof.
  intros Hd seconds minutes. unfold formatRemaining.
  rewrite Round_Second by done. fold seconds.
  assert (Hsec : 0 <= seconds <= 9223372036).
  { unfold seconds. change (Second / 2) with 500000000.
    change 9223372036 with ((2 ^ 63 - 1) / 1000000000).
    unfold maxInt64, Second in *. split.
    - apply Z.div_pos; lia.
    - apply Z.div_le_mono; lia. }
  assert (Hws : wholeSeconds (seconds * Second) = seconds).
  { unfold wholeSeconds. rewrite Z.quot_mul; [done | unfold Second; lia]. }
  rewrite Hws. destruct (seconds <? 60) eqn:H60; [done |].
  apply Z.ltb_ge in H60.
  rewrite wrap64_id
    by (unfold inInt64, minInt64, maxInt64; lia).
  rewrite Z.quot_div_nonneg by lia. fold minutes.
  assert (1 <= minutes)
    by (unfold minutes; apply Z.div_le_lower_bound; lia).
  by rewrite (proj2 (Z.leb_gt minutes 0)) by lia.
Qed.

Lemma formatRemaining_nearest_witness :
  formatRemaining (89 * Second + 500 * 1000000) = "2 minutes"%string.
Proof.
  rewrite (formatRemaining_nearest (89 * Second + 500 * 1000000)).
  - vm_compute. reflexivity.
  - vm_compute. split; discriminate.
Defined.

End Spoken.

Section Consistency.
Import Timer System Shape EngineQueries.

(** X12: in every reachable engine the status of a timer agrees with the status
    of its session and with its escalation level: a timer is paused only
    in a session that is paused or was abandoned while paused, so an active
    or completed session holds no paused timer; and a timer that has not
    fired yet (pending, running or paused) has escalation level 0. *)
Theorem timer_status_consistent (e : Engine.Engine) (sid tid : string)
    (session : Session) (ts : TimerState) :
  Reachable e ->
  Engine.store e !! sid = Some session ->
  sessTimerStates session !! tid = Some ts ->
  (tsStatus ts = TimerPaused ->
   sessStatus session = SessionPaused \/ sessStatus session = SessionAbandoned)
  /\ (sessStatus session = SessionActive
      \/ sessStatus session = SessionCompleted ->
      tsStatus ts <> TimerPaused)
  /\ (tsStatus ts = TimerPending \/ tsStatus ts = TimerRunning
      \/ tsStatus ts = TimerPaused ->
      tsEscalationLevel ts = 0).
Proof.
  intros Hinv%Reachable_storeInv Hs Hts.
  destruct (Hinv sid session Hs) as [_ Hsess].
  destruct (Hsess tid ts Hts) as (_ & Hpaused & Hlevel).
  split; [exact Hpaused |]. split; [| exact Hlevel].
  intros Hst Hp. destruct (Hpaused Hp) as [H|H]; rewrite H in Hst;
    by destruct Hst.
Qed.

Lemma timer_status_consistent_witness :
  exists ts,
    (Engine.store engineRunning !! "abc"
       ≫= fun session => sessTimerStates session !! "timer-s1") = Some ts
    /\ tsStatus ts <> TimerPaused
    /\ tsEscalationLevel ts = 0.
Proof.
  eassert (Hs : Engine.store engineRunning !! "abc" = Some _)
    by (vm_compute; reflexivity).
  match type of Hs with
  | _ = Some ?session =>
      eassert (Hts : sessTimerStates session !! "timer-s1" = Some _)
        by (vm_compute; reflexivity);
      match type of Hts with
      | _ = Some ?ts =>
          destruct (timer_status_consistent engineRunning "abc" "timer-s1"
                      session ts) as (_ & H1 & H2);
            [apply Reachable_engines | exact Hs | exact Hts |];
          exists ts
      end
  end.
  split; [by rewrite Hs |]. split.
  - apply H1. left. reflexivity.
  - apply H2. right. left. reflexivity.
Defined.

Lemma Reachable_stepInv (e : Engine.Engine) :
  Reachable e ->
  forall sid session, Engine.store e !! sid = Some session -> stepInv session.
Proof.
  induction 1 as [rs d|e op e' Hr IH Hexec]; intros sid session.
  - cbn. by rewrite lookup_empty.
  - eapply exec_stepInv; [by apply Reachable_storeInv | exact IH | exact Hexec].
Qed.

(** X16: in every reachable engine [CurrentStep], when it returns for a session
    that is active or paused, returns a step state (never the nil pointer),
    and that state is active. *)
Theorem CurrentStep_state_active (e : Engine.Engine) (sid : string)
    (session : Session) (step : Step) (state : option StepState) :
  Reachable e ->
  Engine.store e !! sid = Some session ->
  sessStatus session = SessionActive \/ sessStatus session = SessionPaused ->
  CurrentStep e sid = Return (step, state) ->
  exists st, state = Some st /\ ssStatus st = StepActive.
Proof.
  intros Hreach Hs Hst. unfold CurrentStep, Storage.Load, Engine.recipesGet.
  rewrite Hs.
  destruct (Reachable_stepInv e Hreach sid session Hs) as [Hone _].
  destruct (Hone Hst) as [(st & Hcur & Hact) _].
  repeat case_match; try done. intros [= <- <-]. eauto.
Qed.

Lemma CurrentStep_state_active_witness :
  exists step st,
    CurrentStep engineRunning "abc" = Return (step, Some st)
    /\ ssStatus st = StepActive.
Proof.
  eassert (Hs : Engine.store engineRunning !! "abc" = Some _)
    by (vm_compute; reflexivity).
  eassert (Hc : CurrentStep engineRunning "abc" = Return (_, _))
    by (vm_compute; reflexivity).
  match type of Hs with
  | _ = Some ?session =>
      match type of Hc with
      | _ = Return (?step, ?state) =>
          destruct (CurrentStep_state_active engineRunning "abc" session
                      step state) as (st & Heq & Hact);
            [apply Reachable_engines | exact Hs | by left | exact Hc |];
          exists step, st
      end
  end.
  split; [by rewrite Hc, Heq | exact Hact].
Defined.

End Consistency.

Section Progress.
Import Timer System Shape.

Lemma progressInv_same (s s' : Session) :
  sessStepStates s' = sessStepStates s ->
  sessCurrentStepIndex s' = sessCurrentStepIndex s ->
  progressInv s -> progressInv s'.
Proof. unfold progressInv. intros -> ->. done. Qed.

Lemma wrap64_succ (z : Z) :
  0 <= z <= maxInt64 ->
  wrap64 (z + 1) = z + 1 \/ wrap64 (z + 1) < 0.
Proof.
  intros Hz. destruct (decide (z = maxInt64)) as [->|Hne].
  - right. vm_compute. reflexivity.
  - left. apply wrap64_id. unfold inInt64, minInt64, maxInt64 in *. lia.
Qed.

Lemma leaveStep_progressInv (final : StepStatus) (e e' : Engine.Engine)
    (now : Time) (k sid : string) (s' : Session) :
  final = StepDone \/ final = StepSkipped ->
  storeInv (Engine.store e) ->
  (forall i s, Engine.store e !! i = Some s -> progressInv s) ->
  after (Engine.leaveStep final e now k) = Some e' ->
  Engine.store e' !! sid = Some s' -> progressInv s'.
Proof.
  intros Hfinal Hinv Hall [Hnp ->]%after_Some.
  destruct (decide (k = sid)) as [->|Hne];
    [| rewrite leaveStep_frame by done; apply Hall].
  revert Hnp. unfold Engine.leaveStep, Storage.Load.
  destruct (Engine.store e !! sid) as [s|] eqn:Hs; [| intros _; apply Hall].
  case_bool_decide as Hact; cbn [negb]; [| intros _; apply Hall].
  unfold Engine.recipesGet.
  destruct (Engine.recipes e !! sessRecipeID s) as [recipe|];
    [| intros _; apply Hall].
  destruct (sessStepStates s !! sessCurrentStepIndex s) as [current|] eqn:Hcur;
    [| intros _; apply Hall].
  destruct (Hall sid s Hs) as [Hrange Hsteps].
  set (cur := sessCurrentStepIndex s) in *.
  set (next := wrap64 (cur + 1)) in *.
  destruct (next >=? len (recipeSteps recipe)).
  - intros _. cbn [snd Engine.store Engine.withStore]. rewrite put_lookup.
    intros [= <-]. split; [exact Hrange |].
    intros i st.
    cbn [sessStepStates sessCurrentStepIndex setUpdatedAt setStatus
         setStepStates].
    fold cur. rewrite lookup_insert. case_decide as Hi.
    + intros [= <-]. subst i. split; [lia |]. split; intros; lia.
    + apply Hsteps.
  - cbn [sessStepStates setCurrentStepIndex setStepStates].
    destruct (<[cur := _]> (sessStepStates s) !! next) as [nx|] eqn:Hnx;
      [| done].
    destruct (index (recipeSteps recipe) next) as [step|]; [| done].
    intros _. cbn [snd Engine.store Engine.withStore]. rewrite put_lookup.
    intros [= <-].
    assert (Hnext : next = cur + 1).
    { destruct (wrap64_succ cur Hrange) as [H|H]; [exact H |].
      exfalso. fold next in H. revert Hnx. rewrite lookup_insert.
      case_decide; [lia |]. intros Hnx.
      destruct (Hsteps next nx Hnx) as [Hn0 _]. lia. }
    assert (Hle : next <= maxInt64).
    { unfold next, wrap64, maxInt64.
      pose proof (Z.mod_pos_bound (cur + 1 + 2 ^ 63) (2 ^ 64) ltac:(lia)).
      lia. }
    match goal with
    | |- progressInv (Engine.maybeStartTimer ?s0 ?st0) =>
        destruct (maybeStartTimer_steps s0 st0) as (_ & E2 & E3)
    end.
    unfold progressInv. rewrite E2, E3.
    cbn [sessStepStates sessCurrentStepIndex setUpdatedAt
         setStepStates setCurrentStepIndex].
    split; [lia |].
    intros i st. rewrite lookup_insert. case_decide as Hi.
    + intros _. subst i. split; [lia |]. split; intros; lia.
    + rewrite lookup_insert. case_decide as Hi2.
      * intros [= <-]. subst i. cbn [ssStatus setStepCompletedAt setStepStatus].
        split; [lia |]. split; [intros _; exact Hfinal | intros; lia].
      * intros Hst. destruct (Hsteps i st Hst) as (H0 & Hbefore & Hafter).
        split; [exact H0 |]. split; intros Hlt.
        -- apply Hbefore. lia.
        -- apply Hafter. lia.
Qed.

Lemma StartSession_progressInv (e : Engine.Engine) newID t1 t2 t3 rid n
    (sid : string) (s' : Session) :
  (forall i s, Engine.store e !! i = Some s -> progressInv s) ->
  Engine.store (Engine.StartSession e newID t1 t2 t3 rid n).2 !! sid = Some s' ->
  progressInv s'.
Proof.
  intros Hall. unfold Engine.StartSession, Engine.recipesGet.
  destruct (Engine.recipes e !! rid) as [recipe|]; [| apply Hall].
  cbn [sessStepStates].
  destruct (Engine.initStepStates (recipeSteps recipe) !! 0) as [st0|] eqn:H0;
    [| apply Hall].
  destruct (index (recipeSteps recipe) 0) as [step0|]; [| apply Hall].
  cbn [snd Engine.store Engine.withStore]. unfold Storage.Save.
  rewrite lookup_insert. case_decide; [| apply Hall].
  intros [= <-].
  match goal with
  | |- progressInv (Engine.maybeStartTimer ?s ?st) =>
      destruct (maybeStartTimer_steps s st) as (_ & E2 & E3)
  end.
  unfold progressInv. rewrite E2, E3.
  cbn [sessStepStates sessCurrentStepIndex setStepStates].
  split; [unfold maxInt64; lia |].
  intros i st. rewrite lookup_insert. case_decide as Hi.
  - intros _. subst i. split; [lia |]. split; intros; lia.
  - rewrite initStepStates_lookup. case_decide as Hr; [| done].
    intros [= <-]. split; [lia |]. split; [intros; lia | done].
Qed.

Lemma exec_progressInv (e e' : Engine.Engine) (op : Op) :
  storeInv (Engine.store e) ->
  (forall i s, Engine.store e !! i = Some s -> progressInv s) ->
  exec op e = Some e' ->
  forall sid s', Engine.store e' !! sid = Some s' -> progressInv s'.
Proof.
  intros Hinv Hall Hexec sid s'.
  destruct op as [newID t1 t2 t3 rid n|now k|now k|now k|now k|now k|now k
                 |now k tid|r|rid r|s now].
  - rewrite (exec_store_lookup _ _ _ sid Hexec).
    by apply StartSession_progressInv.
  - apply (leaveStep_progressInv StepDone e e' now k); auto.
  - apply (leaveStep_progressInv StepSkipped e e' now k); auto.
  - rewrite (exec_store_lookup _ _ _ sid Hexec).
    destruct (decide (k = sid)) as [->|Hne];
      [| rewrite Pause_frame by done; apply Hall].
    unfold Engine.Pause, Storage.Load.
    destruct (Engine.store e !! sid) as [s|] eqn:Hs; [| apply Hall].
    case_bool_decide as Hact; cbn [negb]; [| apply Hall].
    cbn [snd Engine.store Engine.withStore]. rewrite put_lookup.
    intros [= <-]. by apply (progressInv_same s); [| | eapply Hall].
  - rewrite (exec_store_lookup _ _ _ sid Hexec).
    destruct (decide (k = sid)) as [->|Hne];
      [| rewrite Resume_frame by done; apply Hall].
    unfold Engine.Resume, Storage.Load.
    destruct (Engine.store e !! sid) as [s|] eqn:Hs; [| apply Hall].
    case_bool_decide as Hp; cbn [negb]; [| apply Hall].
    cbn [snd Engine.store Engine.withStore]. rewrite put_lookup.
    intros [= <-]. by apply (progressInv_same s); [| | eapply Hall].
  - rewrite (exec_store_lookup _ _ _ sid Hexec).
    destruct (decide (k = sid)) as [->|Hne];
      [| rewrite Abandon_frame by done; apply Hall].
    unfold Engine.Abandon, Storage.Load.
    destruct (Engine.store e !! sid) as [s|] eqn:Hs; [| apply Hall].
    cbn [snd Engine.store Engine.withStore]. rewrite put_lookup.
    intros [= <-]. by apply (progressInv_same s); [| | eapply Hall].
  - rewrite (exec_store_lookup _ _ _ sid Hexec).
    destruct (decide (k = sid)) as [->|Hne];
      [| rewrite StartPendingTimers_frame by done; apply Hall].
    unfold Engine.StartPendingTimers, Storage.Load.
    destruct (Engine.store e !! sid) as [s|] eqn:Hs; [| apply Hall].
    case_match; cbn [snd Engine.store Engine.withStore].
    + rewrite put_lookup. intros [= <-].
      by apply (progressInv_same s); [| | eapply Hall].
    + unfold Storage.poke. rewrite lookup_insert_eq. intros [= <-].
      by apply (progressInv_same s); [| | eapply Hall].
  - rewrite (exec_store_lookup _ _ _ sid Hexec).
    destruct (decide (k = sid)) as [->|Hne];
      [| rewrite DismissTimer_frame by done; apply Hall].
    unfold Engine.DismissTimer, Storage.Load.
    destruct (Engine.store e !! sid) as [s|] eqn:Hs; [| apply Hall].
    repeat case_match; cbn [snd Engine.store Engine.withStore];
      try apply Hall.
    rewrite put_lookup. intros [= <-].
    by apply (progressInv_same s); [| | eapply Hall].
  - rewrite (exec_store_lookup _ _ _ sid Hexec). apply Hall.
  - rewrite (exec_store_lookup _ _ _ sid Hexec). apply Hall.
  - rewrite (exec_store_lookup _ _ _ sid Hexec).
    destruct (Engine.store e !! sid) as [s0|] eqn:Hs; [| done].
    cbn. intros [= <-].
    destruct (tickSession_same s now s0) as (_ & E2 & E3).
    by apply (progressInv_same s0); [| | eapply Hall].
Qed.

(** X15: in every reachable engine a session goes through its steps in order,
    one at a time: the steps before the current one are done or skipped,
    the steps after it are still pending, and neither the current index nor
    the index of a step state is ever negative.  This holds whatever the
    status of the session, also while the recipe is changed under it. *)
Theorem steps_progress_in_order (e : Engine.Engine) (sid : string)
    (session : Session) :
  Reachable e ->
  Engine.store e !! sid = Some session ->
  progressInv session.
Proof.
  intros Hreach. revert sid session.
  induction Hreach as [rs d|e op e' Hr IH Hexec]; intros sid session.
  - cbn. by rewrite lookup_empty.
  - eapply exec_progressInv;
      [by apply Reachable_storeInv | exact IH | exact Hexec].
Qed.

Lemma steps_progress_in_order_witness :
  exists session,
    Engine.store (Engine.Advance engineRunning 200 "abc").2 !! "abc"
    = Some session
    /\ progressInv session.
Proof.
  eassert (Hs : Engine.store (Engine.Advance engineRunning 200 "abc").2
                !! "abc" = Some _)
    by (vm_compute; reflexivity).
  match type of Hs with
  | _ = Some ?session =>
      pose proof (steps_progress_in_order
                    (Engine.Advance engineRunning 200 "abc").2
                    "abc" session) as H
  end.
  eexists. split; [exact Hs |]. apply H; [| exact Hs].
  apply (Reachable_exec engineRunning (OpAdvance 200 "abc"));
    [apply Reachable_engines | vm_compute; reflexivity].
Defined.

End Progress.

Section TimerKeys.
Import Timer System Shape EngineQueries.

(** A property of the timers, with their keys, that holds of every timer
    [maybeStartTimer] creates and that the timer updates of the engine and
    of the supervisor keep, holds of every timer of the store after an
    operation when it held before. *)
Lemma exec_timers (P : string -> TimerState -> Prop)
    (e e' : Engine.Engine) (op : Op) :
  (forall tid ts st, P tid ts -> P tid (setTimerStatus st ts)) ->
  (forall s now tid ts, P tid ts -> P tid (vTimer (countdown s now ts))) ->
  (forall s now tid ts, P tid ts -> P tid (vTimer (followUp s now ts))) ->
  (forall session step tid ts,
     sessTimerStates (Engine.maybeStartTimer session step) !! tid = Some ts ->
     sessTimerStates session !! tid = Some ts \/ P tid ts) ->
  (forall sid session tid ts,
     Engine.store e !! sid = Some session ->
     sessTimerStates session !! tid = Some ts -> P tid ts) ->
  exec op e = Some e' ->
  forall sid session tid ts,
    Engine.store e' !! sid = Some session ->
    sessTimerStates session !! tid = Some ts -> P tid ts.
Proof.
  intros Hset Hcount Hfollow Hnew Hall Hexec sid session tid ts.
  assert (Hmap : forall (f : TimerState -> TimerState) s0 k,
             (forall tid ts, P tid ts -> P tid (f ts)) ->
             Engine.store e !! k = Some s0 ->
             (f <$> sessTimerStates s0) !! tid = Some ts -> P tid ts).
  { intros f s0 k Hf Hs0. rewrite lookup_fmap.
    destruct (sessTimerStates s0 !! tid) as [ts0|] eqn:Hts0; [| done].
    cbn. intros [= <-]. apply Hf. by eapply Hall. }
  assert (Hpause : forall tid ts, P tid ts -> P tid (Engine.pauseTimer ts)).
  { intros k x Hx. unfold Engine.pauseTimer. case_bool_decide; auto. }
  assert (Hresume : forall tid ts, P tid ts -> P tid (Engine.resumeTimer ts)).
  { intros k x Hx. unfold Engine.resumeTimer. case_bool_decide; auto. }
  assert (Hstart : forall tid ts, P tid ts -> P tid (Engine.startTimer ts)).
  { intros k x Hx. unfold Engine.startTimer. case_bool_decide; auto. }
  destruct op as [newID t1 t2 t3 rid n|now k|now k|now k|now k|now k|now k
                 |now k tid'|r|rid r|s now]; cbn [exec] in Hexec;
    try (apply after_Some in Hexec as [_ ->]).
  - unfold Engine.StartSession, Engine.recipesGet.
    destruct (Engine.recipes e !! rid) as [recipe|]; [| apply Hall].
    cbn [sessStepStates].
    destruct (Engine.initStepStates (recipeSteps recipe) !! 0); [| apply Hall].
    destruct (index (recipeSteps recipe) 0) as [step0|]; [| apply Hall].
    cbn [snd Engine.store Engine.withStore]. unfold Storage.Save.
    rewrite lookup_insert. case_decide; [| apply Hall].
    intros [= <-] Hts. apply Hnew in Hts as [Hts|Hts]; [| done].
    cbn in Hts. by rewrite lookup_empty in Hts.
  - unfold Engine.Advance, Engine.leaveStep, Storage.Load, Engine.recipesGet.
    destruct (Engine.store e !! k) as [s0|] eqn:Hs0; [| apply Hall].
    repeat case_match; try apply Hall;
      cbn [snd Engine.store Engine.withStore];
      unfold Storage.Save, Storage.poke;
      rewrite ?lookup_insert; repeat case_decide; try apply Hall;
      intros [= <-] Hts; try (by apply (Hall k s0));
      apply Hnew in Hts as [Hts|Hts]; try done; by apply (Hall k s0).
  - unfold Engine.Skip, Engine.leaveStep, Storage.Load, Engine.recipesGet.
    destruct (Engine.store e !! k) as [s0|] eqn:Hs0; [| apply Hall].
    repeat case_match; try apply Hall;
      cbn [snd Engine.store Engine.withStore];
      unfold Storage.Save, Storage.poke;
      rewrite ?lookup_insert; repeat case_decide; try apply Hall;
      intros [= <-] Hts; try (by apply (Hall k s0));
      apply Hnew in Hts as [Hts|Hts]; try done; by apply (Hall k s0).
  - unfold Engine.Pause, Storage.Load.
    destruct (Engine.store e !! k) as [s0|] eqn:Hs0; [| apply Hall].
    case_bool_decide; cbn [negb]; [| apply Hall].
    cbn [snd Engine.store Engine.withStore].
    unfold Storage.Save, Storage.poke.
    rewrite ?lookup_insert; repeat case_decide; try apply Hall;
      intros [= <-]; by apply (Hmap Engine.pauseTimer s0 k).
  - unfold Engine.Resume, Storage.Load.
    destruct (Engine.store e !! k) as [s0|] eqn:Hs0; [| apply Hall].
    case_bool_decide; cbn [negb]; [| apply Hall].
    cbn [snd Engine.store Engine.withStore].
    unfold Storage.Save, Storage.poke.
    rewrite ?lookup_insert; repeat case_decide; try apply Hall;
      intros [= <-]; by apply (Hmap Engine.resumeTimer s0 k).
  - unfold Engine.Abandon, Storage.Load.
    destruct (Engine.store e !! k) as [s0|] eqn:Hs0; [| apply Hall].
    cbn [snd Engine.store Engine.withStore].
    unfold Storage.Save, Storage.poke.
    rewrite ?lookup_insert; repeat case_decide; try apply Hall;
      intros [= <-]; by apply (Hall k s0).
  - unfold Engine.StartPendingTimers, Storage.Load.
    destruct (Engine.store e !! k) as [s0|] eqn:Hs0; [| apply Hall].
    case_match; cbn [snd Engine.store Engine.withStore];
      unfold Storage.Save, Storage.poke;
      rewrite ?lookup_insert; repeat case_decide; try apply Hall;
      intros [= <-]; by apply (Hmap Engine.startTimer s0 k).
  - unfold Engine.DismissTimer, Storage.Load.
    destruct (Engine.store e !! k) as [s0|] eqn:Hs0; [| apply Hall].
    destruct (sessTimerStates s0 !! tid') as [ts0|] eqn:Hts0; [| apply Hall].
    destruct (_ && _); [apply Hall |].
    cbn [snd Engine.store Engine.withStore].
    unfold Storage.Save, Storage.poke.
    rewrite ?lookup_insert; repeat case_decide; try apply Hall;
      intros [= <-]; cbn [sessTimerStates setUpdatedAt setTimerStates];
      rewrite lookup_insert; destruct (decide (tid' = tid)) as [<-|Hne];
      try (intros [= <-]; apply Hset; by apply (Hall k s0));
      by apply (Hall k s0).
  - unfold Engine.UpdateRecipe. case_match; apply Hall.
  - injection Hexec as <-. unfold mutateRecipe. case_match; apply Hall.
  - injection Hexec as <-. cbn [Engine.store Engine.withStore].
    rewrite lookup_fmap.
    destruct (Engine.store e !! sid) as [s0|] eqn:Hs0; [| done].
    cbn. intros [= <-]. unfold tickSession, processSession.
    repeat case_match; try by apply (Hall sid s0).
    cbn [pSession sessTimerStates setTimerStates].
    rewrite !lookup_fmap.
    destruct (sessTimerStates s0 !! tid) as [ts0|] eqn:Hts0; [| done].
    cbn. intros [= <-]. apply Hfollow, Hcount. by apply (Hall sid s0).
Qed.

Lemma Reachable_keyed (e : Engine.Engine) :
  Reachable e ->
  forall sid session tid ts,
    Engine.store e !! sid = Some session ->
    sessTimerStates session !! tid = Some ts ->
    tsID ts = tid /\ tid = Engine.timerIDOf (tsStepID ts).
Proof.
  induction 1 as [rs d|e op e' Hr IH Hexec].
  - intros sid session tid ts. cbn. by rewrite lookup_empty.
  - apply (exec_timers
             (fun tid ts => tsID ts = tid
                            /\ tid = Engine.timerIDOf (tsStepID ts))
             e e' op); try done.
    + intros s now tid ts Hts. unfold countdown. by repeat case_match.
    + intros s now tid ts Hts. unfold followUp. by repeat case_match.
    + intros session step tid ts. unfold Engine.maybeStartTimer.
      destruct (stepTimerConfig step) as [cfg|]; [| by left].
      cbn [sessTimerStates setTimerStates]. rewrite lookup_insert.
      case_decide as Hk; [| by left]. intros [= <-]. right. by subst tid.
Qed.

(** X7: in every reachable engine a timer that [ActiveTimers] returns has
    the ID [timer-] followed by the ID of its step and can be dismissed by
    that ID: [DismissTimer] succeeds on it and the timer is dismissed
    afterwards (each timer is stored under its own ID). *)
Theorem ActiveTimers_dismissable (e : Engine.Engine) (now : Time)
    (sid : string) (timers : list TimerState) (ts : TimerState) :
  Reachable e ->
  ActiveTimers e sid = Return timers ->
  ts ∈ timers ->
  tsID ts = Engine.timerIDOf (tsStepID ts)
  /\ exists e' session',
       Engine.DismissTimer e now sid (tsID ts) = (Return tt, e')
       /\ Engine.store e' !! sid = Some session'
       /\ sessTimerStates session' !! tsID ts
          = Some (setTimerStatus TimerDismissed ts).
Proof.
  intros Hreach. unfold ActiveTimers, Engine.DismissTimer, Storage.Load.
  destruct (Engine.store e !! sid) as [session|] eqn:Hs; [| done].
  intros [= <-] Hin.
  apply list_elem_of_filter in Hin as [Hact Hin].
  apply list_elem_of_fmap in Hin as ([tid ts'] & -> & Hin).
  apply elem_of_map_to_list in Hin. cbn [snd] in *.
  destruct (Reachable_keyed e Hreach sid session tid ts' Hs Hin) as [Hid Hstep].
  split; [congruence |].
  rewrite Hid, Hin.
  unfold isActiveTimer in Hact.
  replace (negb (bool_decide (tsStatus ts' = TimerRunning))
           && negb (bool_decide (tsStatus ts' = TimerFired))) with false
    by (by destruct (bool_decide (tsStatus ts' = TimerRunning)),
              (bool_decide (tsStatus ts' = TimerFired))).
  eexists _, _. split; [reflexivity |].
  cbn [Engine.store Engine.withStore]. split; [apply put_lookup |].
  cbn [sessTimerStates setUpdatedAt setTimerStates].
  by rewrite lookup_insert_eq.
Qed.

Lemma ActiveTimers_dismissable_witness :
  exists ts e',
    ActiveTimers engineRunning "abc" = Return [ts]
    /\ Engine.DismissTimer engineRunning 120 "abc" (tsID ts) = (Return tt, e').
Proof.
  eassert (Ha : ActiveTimers engineRunning "abc" = Return [_])
    by (vm_compute; reflexivity).
  match type of Ha with
  | _ = Return [?ts] =>
      destruct (ActiveTimers_dismissable engineRunning 120 "abc" [ts] ts)
        as (_ & e' & session' & Hd & _);
        [apply Reachable_engines | exact Ha | by apply list_elem_of_singleton |];
      exists ts, e'
  end.
  split; [exact Ha | exact Hd].
Defined.

End TimerKeys.

Section AddedStep.
Import System EngineQueries.

(** C1: [Advance] does not handle an active session whose recipe got a
    step after the session was started.  The session [abc] of the reachable
    engine [engineGrown] is active on the third step of its recipe, which
    has a fourth step, added in place by an add_step action after
    [StartSession] had made the step states; [NextStep] names that step,
    and [Advance], instead of making it the active step, dereferences the
    nil step state of index 3 and panics, having already marked the third
    step done and moved the current index. *)
Theorem Advance_panics_on_added_step :
  Reachable engineGrown
  /\ (exists session recipe step,
        Engine.store engineGrown !! "abc" = Some session
        /\ sessStatus session = SessionActive
        /\ sessCurrentStepIndex session = 2
        /\ Engine.recipes engineGrown !! sessRecipeID session = Some recipe
        /\ len (recipeSteps recipe) = 4
        /\ index (recipeSteps recipe) 3 = Some step
        /\ NextStep engineGrown "abc" = Return (Some step)
        /\ sessStepStates session !! 3 = None)
  /\ (Engine.Advance engineGrown 220 "abc").1 = Panic
  /\ (exists left,
        Engine.store (Engine.Advance engineGrown 220 "abc").2 !! "abc"
        = Some left
        /\ sessStatus left = SessionActive
        /\ sessCurrentStepIndex left = 3
        /\ (ssStatus <$> sessStepStates left !! 2) = Some StepDone
        /\ sessStepStates left !! 3 = None).
Proof.
  split; [| split; [| split]].
  - destruct Reachable_engines as [Hstarted _].
    assert (H1 : Reachable (mutateRecipe engineStarted "pasta" pastaGrown)).
    { apply (Reachable_exec engineStarted (OpMutateRecipe "pasta" pastaGrown));
        [exact Hstarted |]. vm_compute. reflexivity. }
    assert (H2 : Reachable engineModified).
    { apply (Reachable_exec _ (OpUpdateRecipe pastaGrown) _ H1).
      vm_compute. reflexivity. }
    assert (H3 : Reachable (Engine.Advance engineModified 200 "abc").2).
    { apply (Reachable_exec _ (OpAdvance 200 "abc") _ H2).
      vm_compute. reflexivity. }
    apply (Reachable_exec _ (OpAdvance 210 "abc") _ H3).
    vm_compute. reflexivity.
  - eassert (Hs : Engine.store engineGrown !! "abc" = Some _)
      by (vm_compute; reflexivity).
    eassert (Hr : Engine.recipes engineGrown !! "pasta" = Some _)
      by (vm_compute; reflexivity).
    eassert (Hn : NextStep engineGrown "abc" = Return (Some _))
      by (vm_compute; reflexivity).
    match type of Hs with
    | _ = Some ?session =>
        match type of Hr with
        | _ = Some ?recipe =>
            match type of Hn with
            | _ = Return (Some ?step) => exists session, recipe, step
            end
        end
    end.
    split; [exact Hs |].
    split; [vm_compute; reflexivity |].
    split; [vm_compute; reflexivity |].
    split; [vm_compute; reflexivity |].
    split; [vm_compute; reflexivity |].
    split; [vm_compute; reflexivity |].
    split; [exact Hn |].
    vm_compute. reflexivity.
  - vm_compute. reflexivity.
  - eassert (Hs : Engine.store (Engine.Advance engineGrown 220 "abc").2
                  !! "abc" = Some _)
      by (vm_compute; reflexivity).
    match type of Hs with
    | _ = Some ?left => exists left
    end.
    split; [exact Hs |].
    split; [vm_compute; reflexivity |].
    split; [vm_compute; reflexivity |].
    split; [vm_compute; reflexivity |].
    vm_compute. reflexivity.
Qed.

End AddedStep.
